(** * kubediscovery: the provenance (composition) store, builder and query

    A shallow embedding of [pkg/discovery/discovery.go].  Go slices are
    lists, Go maps are association lists, [int] is a 64-bit two's
    complement integer carried by [Z], JSON numbers are IEEE binary64
    floats, and a panic is an explicit outcome.

    The order of the entries of a map is the order in which a [range]
    visits them.  Go leaves that order unspecified, so a statement that
    holds for every list holds for every iteration order of a map that is
    ranged over once.  [KindPluralMap] is ranged over once for every stored
    record within one query: there the order of each visit is the
    runtime's choice, [rangeOrder].  What the toolchain decides and the
    source does not (that order, and the Unicode tables behind
    [strings.ToLower]) is gathered in the class [Toolchain]. *)

From Stdlib Require Import List String Ascii ZArith Bool Lia PeanoNat.
From Stdlib Require Import Floats DecimalString Permutation.
Import ListNotations.

Set Warnings "-register-all".

Local Open Scope string_scope.
Local Open Scope list_scope.

(** ** Go values *)

(** [int] on a 64-bit platform: addition wraps around. *)
Definition int_wrap (z : Z) : Z :=
  ((z + 2 ^ 63) mod 2 ^ 64 - 2 ^ 63)%Z.

Definition int_add (a b : Z) : Z := int_wrap (a + b).

(** A Go [map[string]V]: its entries.  [mapLookup] is the two-result index
    expression [v, ok := m[k]]. *)
Definition gomap (V : Type) : Type := list (string * V).

Fixpoint mapLookup {V : Type} (k : string) (m : gomap V) : option V :=
  match m with
  | [] => None
  | (k', v) :: m' => if String.eqb k' k then Some v else mapLookup k m'
  end.

(** The text has no byte above 127. *)
Fixpoint isASCII (s : string) : bool :=
  match s with
  | EmptyString => true
  | String c s' => (nat_of_ascii c <? 128)%nat && isASCII s'
  end.

(** The letters [A] to [Z] to lower case, every other byte as it is. *)
Definition lower_ascii (c : ascii) : ascii :=
  let n := nat_of_ascii c in
  if (65 <=? n)%nat && (n <=? 90)%nat then ascii_of_nat (n + 32) else c.

Fixpoint lowerASCII (s : string) : string :=
  match s with
  | EmptyString => EmptyString
  | String c s' => String (lower_ascii c) (lowerASCII s')
  end.

(** What the Go toolchain decides, and the source leaves to it.

    [lowerUnicode s] is [strings.Map(unicode.ToLower, s)], the path
    [strings.ToLower] takes for a text with a byte above 127: the runes of
    [s] mapped through the case tables of the toolchain's Unicode version.
    On a text without such a byte it is the byte-wise lower-casing, a text
    in lower case is left as it is (every rune [unicode.ToLower] returns is
    one it leaves alone), and no rune is dropped, so only the empty text
    gives the empty text.

    [rangeOrder i m] is the order in which the [i]-th execution of a
    [range] statement over the map [m], counted from 0 within one call,
    visits the entries: each entry once.

    [shortEscapes] tells whether [json.Marshal] writes a backspace and a
    form feed as [\b] and [\f] (Go 1.22 and later) or as [\u0008] and
    [\u000c] (before). *)
Class Toolchain : Type := mkToolchain
  { lowerUnicode : string -> string;
    rangeOrder : nat -> gomap string -> gomap string;
    shortEscapes : bool;
    lowerUnicode_ascii : forall s, isASCII s = true -> lowerUnicode s = lowerASCII s;
    lowerUnicode_lowered : forall s, lowerUnicode (lowerUnicode s) = lowerUnicode s;
    lowerUnicode_nonempty : forall s, lowerUnicode s = EmptyString -> s = EmptyString;
    rangeOrder_visits : forall i m, Permutation (rangeOrder i m) m }.

(** [strings.ToLower]: byte-wise when the text has no byte above 127,
    through the Unicode tables otherwise. *)
Definition ToLower {T : Toolchain} (s : string) : string :=
  if isASCII s then lowerASCII s else lowerUnicode s.

(** [strings.Contains s substr]. *)
Fixpoint Contains (s substr : string) : bool :=
  if String.prefix substr s then true
  else match s with
       | EmptyString => false
       | String _ s' => Contains s' substr
       end.

(** The one-result index expression [m[k]] of a [map[string]string]: the
    zero value when the key is absent. *)
Definition mapGet (k : string) (m : gomap string) : string :=
  match mapLookup k m with
  | Some v => v
  | None => EmptyString
  end.

Definition keys {V : Type} (m : gomap V) : list string := map fst m.

(** ** Outcomes

    A call returns a value, panics, needs more nesting of calls than the
    bound it was given (the two recursive functions are defined with such a
    bound), or blocks on the mutex because another goroutine holds it. *)
Inductive Outcome (A : Type) : Type :=
| Done (a : A)
| Panicked
| Exhausted
| Blocked.

Arguments Done {A} a.
Arguments Panicked {A}.
Arguments Exhausted {A}.
Arguments Blocked {A}.

Definition bind {A B : Type} (m : Outcome A) (k : A -> Outcome B) : Outcome B :=
  match m with
  | Done a => k a
  | Panicked => Panicked
  | Exhausted => Exhausted
  | Blocked => Blocked
  end.

Declare Scope go_scope.
Delimit Scope go_scope with go.
Notation "x <- c1 ;; c2" := (bind c1 (fun x => c2))
  (at level 61, c1 at next level, right associativity) : go_scope.
Notation "' pat <- c1 ;; c2" := (bind c1 (fun x => match x with pat => c2 end))
  (at level 61, pat pattern, c1 at next level, right associativity) : go_scope.
Local Open Scope go_scope.

(** A [for _, x := range l] loop whose body may panic, threading the
    variables the body assigns. *)
Fixpoint forRange {A S : Type} (l : list A) (body : S -> A -> Outcome S) (s : S)
  : Outcome S :=
  match l with
  | [] => Done s
  | x :: l' => s' <- body s x ;; forRange l' body s'
  end.

(** ** The data model

    The struct declarations live in another file of the package; the
    fields below are the ones this file reads and writes.  Each struct is
    a record [t] in a module of its own, so that the field names stay the
    Go ones. *)

(** [MetaDataAndOwnerReferences]: one live instance as a listing shows it. *)
Module MetaData.
Record t : Type := mk
  { MetaDataName : string;
    OwnerReferenceName : string;
    OwnerReferenceKind : string;
    OwnerReferenceAPIVersion : string;
    Status : string }.

(** The zero value [MetaDataAndOwnerReferences{}]. *)
Definition zero : t := mk "" "" "" "" "".
End MetaData.

(** [CompositionTreeNode]: the instances of one child kind found at one
    level of a build. *)
Module TreeNode.
Record t : Type := mk
  { Level : Z;
    ChildKind : string;
    Children : list MetaData.t }.
End TreeNode.

(** [Provenance]: the flat tree of one top-level instance.  The field
    [CompositionTree] is a pointer to a slice that [BuildCompositionTree]
    allocates for this record alone and never touches after storing it, so
    it is carried by value. *)
Module Provenance.
Record t : Type := mk
  { Kind : string;
    Name : string;
    Status : string;
    CompositionTree : list TreeNode.t }.
End Provenance.

(** [ClusterProvenance]: the mutex ([mux = true] when some goroutine holds
    it) and the collection it guards. *)
Record ClusterProvenance : Type := mkCP
  { mux : bool;
    clusterProvenance : list Provenance.t }.

(** [cp.mux.Lock()]: when the mutex is held the caller blocks until the
    holder releases it. *)
Definition Lock (cp : ClusterProvenance) : Outcome ClusterProvenance :=
  if mux cp then Blocked else Done (mkCP true (clusterProvenance cp)).

Definition Unlock (cp : ClusterProvenance) : ClusterProvenance :=
  mkCP false (clusterProvenance cp).

(** ** The provenance store *)

(** The loop of [storeProvenance]: every record with the identity of
    [provenance] gets its tree and status replaced at its index. *)
Fixpoint storeLoop (provenance : Provenance.t) (l : list Provenance.t) (present : bool)
  : list Provenance.t * bool :=
  match l with
  | [] => ([], present)
  | prov :: rest =>
      if String.eqb (Provenance.Kind prov) (Provenance.Kind provenance)
         && String.eqb (Provenance.Name prov) (Provenance.Name provenance)
      then
        let p := Provenance.mk (Provenance.Kind prov) (Provenance.Name prov)
                   (Provenance.Status provenance)
                   (Provenance.CompositionTree provenance) in
        let (rest', present') := storeLoop provenance rest true in
        (p :: rest', present')
      else
        let (rest', present') := storeLoop provenance rest present in
        (prov :: rest', present')
  end.

(** The body of [storeProvenance] between [Lock] and the deferred [Unlock]. *)
Definition storeRecords (topLevelObject : MetaData.t) (resourceKind resourceName : string)
    (compositionTree : list TreeNode.t) (records : list Provenance.t)
  : list Provenance.t :=
  let provenance :=
    Provenance.mk resourceKind resourceName (MetaData.Status topLevelObject)
      compositionTree in
  let (records', present) := storeLoop provenance records false in
  if negb present then records' ++ [provenance] else records'.

Definition storeProvenance (topLevelObject : MetaData.t) (resourceKind resourceName : string)
    (compositionTree : list TreeNode.t) (cp : ClusterProvenance)
  : Outcome ClusterProvenance :=
  cp1 <- Lock cp ;;
  Done (Unlock (mkCP (mux cp1)
                  (storeRecords topLevelObject resourceKind resourceName
                     compositionTree (clusterProvenance cp1)))).

(** The two loops of [purgeCompositionOfDeletedItems]. *)
Definition purgeRecords (topLevelMetaDataOwnerRefList : list MetaData.t)
    (records : list Provenance.t) : list Provenance.t :=
  fold_left
    (fun presentList prov =>
       fold_left
         (fun presentList topLevelObject =>
            let resourceName := MetaData.MetaDataName topLevelObject in
            if String.eqb resourceName (Provenance.Name prov)
            then presentList ++ [prov] else presentList)
         topLevelMetaDataOwnerRefList presentList)
    records [].

(** [purgeCompositionOfDeletedItems] reads and assigns the collection
    without touching [cp.mux]. *)
Definition purgeCompositionOfDeletedItems (topLevelMetaDataOwnerRefList : list MetaData.t)
    (cp : ClusterProvenance) : Outcome ClusterProvenance :=
  Done (mkCP (mux cp) (purgeRecords topLevelMetaDataOwnerRefList (clusterProvenance cp))).

(** [checkIfProvenanceNeeded]. *)
Definition checkIfProvenanceNeeded (resourceKind resourceName : string)
    (cp : ClusterProvenance) : Outcome (bool * ClusterProvenance) :=
  cp1 <- Lock cp ;;
  Done (negb (existsb
                (fun provenanceItem =>
                   String.eqb resourceKind (Provenance.Kind provenanceItem)
                   && String.eqb resourceName (Provenance.Name provenanceItem))
                (clusterProvenance cp1)),
        Unlock cp1).

(** ** Listing documents

    What [json.Unmarshal] stores into an [interface{}]: objects become
    [map[string]interface{}], arrays [[]interface{}], numbers [float64]. *)
Inductive json : Type :=
| JNull
| JBool (b : bool)
| JNumber (f : float)
| JString (s : string)
| JArray (l : list json)
| JObject (m : gomap json).

(** The body of a listing response as [json.Unmarshal] leaves it in
    [var result map[string]interface{}]: what [result] holds after the
    call, whether or not the call reports an error (the error is discarded,
    and a call that reports one can have stored entries before it).
    [None] is a [result] left nil. *)
Definition Content : Type := option (gomap json).

(** Type assertions [v.(T)] without the [ok] result panic on a mismatch. *)
Definition asString (v : json) : Outcome string :=
  match v with JString s => Done s | _ => Panicked end.

Definition asFloat (v : json) : Outcome float :=
  match v with JNumber f => Done f | _ => Panicked end.

Definition asSlice (v : json) : Outcome (list json) :=
  match v with JArray l => Done l | _ => Panicked end.

Definition asMap (v : json) : Outcome (gomap json) :=
  match v with JObject m => Done m | _ => Panicked end.

Definition setMetaDataName (r : MetaData.t) (s : string) : MetaData.t :=
  MetaData.mk s (MetaData.OwnerReferenceName r) (MetaData.OwnerReferenceKind r)
    (MetaData.OwnerReferenceAPIVersion r) (MetaData.Status r).

Definition setOwnerReferenceName (r : MetaData.t) (s : string) : MetaData.t :=
  MetaData.mk (MetaData.MetaDataName r) s (MetaData.OwnerReferenceKind r)
    (MetaData.OwnerReferenceAPIVersion r) (MetaData.Status r).

Definition setOwnerReferenceKind (r : MetaData.t) (s : string) : MetaData.t :=
  MetaData.mk (MetaData.MetaDataName r) (MetaData.OwnerReferenceName r) s
    (MetaData.OwnerReferenceAPIVersion r) (MetaData.Status r).

Definition setOwnerReferenceAPIVersion (r : MetaData.t) (s : string) : MetaData.t :=
  MetaData.mk (MetaData.MetaDataName r) (MetaData.OwnerReferenceName r)
    (MetaData.OwnerReferenceKind r) s (MetaData.Status r).

Definition setStatus (r : MetaData.t) (s : string) : MetaData.t :=
  MetaData.mk (MetaData.MetaDataName r) (MetaData.OwnerReferenceName r)
    (MetaData.OwnerReferenceKind r) (MetaData.OwnerReferenceAPIVersion r) s.

(** [parseMetaData], lines 712-726: one element of [ownerReferences]. *)
Definition parseOwnerReference (metaDataRef : MetaData.t) (ownerReference : json)
  : Outcome MetaData.t :=
  ownerReferenceMap <- asMap ownerReference ;;
  forRange ownerReferenceMap
    (fun metaDataRef '(okey, ovalue) =>
       metaDataRef <- (if String.eqb okey "name"
                       then s <- asString ovalue ;; Done (setOwnerReferenceName metaDataRef s)
                       else Done metaDataRef) ;;
       metaDataRef <- (if String.eqb okey "kind"
                       then s <- asString ovalue ;; Done (setOwnerReferenceKind metaDataRef s)
                       else Done metaDataRef) ;;
       if String.eqb okey "apiVersion"
       then s <- asString ovalue ;; Done (setOwnerReferenceAPIVersion metaDataRef s)
       else Done metaDataRef)
    metaDataRef.

(** [parseMetaData], lines 707-731: the value under the key [metadata]. *)
Definition parseMetadataMap (metaDataRef : MetaData.t) (value : json)
  : Outcome MetaData.t :=
  metadataMap <- asMap value ;;
  forRange metadataMap
    (fun metaDataRef '(mkey, mvalue) =>
       metaDataRef <- (if String.eqb mkey "ownerReferences"
                       then ownerReferencesList <- asSlice mvalue ;;
                            forRange ownerReferencesList parseOwnerReference metaDataRef
                       else Done metaDataRef) ;;
       if String.eqb mkey "name"
       then s <- asString mvalue ;; Done (setMetaDataName metaDataRef s)
       else Done metaDataRef)
    metaDataRef.

(** The test of lines 753-757 on the three replica counts. *)
Definition replicasReady (replicas readyReplicas availableReplicas : float) : bool :=
  if PrimFloat.ltb 0%float replicas
  then PrimFloat.eqb replicas availableReplicas && PrimFloat.eqb replicas readyReplicas
  else false.

(** [parseMetaData], lines 737-751: one iteration of the loop over the keys
    of the [status] object; the variables are the snapshot and the three
    replica counts. *)
Definition parseStatusKey (vars : MetaData.t * float * float * float)
    (kv : string * json) : Outcome (MetaData.t * float * float * float) :=
  let '(metaDataRef, replicas, readyReplicas, availableReplicas) := vars in
  let '(skey, svalue) := kv in
  metaDataRef <- (if String.eqb skey "phase"
                  then s <- asString svalue ;; Done (setStatus metaDataRef s)
                  else Done metaDataRef) ;;
  replicas <- (if String.eqb skey "replicas"
               then asFloat svalue else Done replicas) ;;
  readyReplicas <- (if String.eqb skey "readyReplicas"
                    then asFloat svalue else Done readyReplicas) ;;
  availableReplicas <- (if String.eqb skey "availableReplicas"
                        then asFloat svalue else Done availableReplicas) ;;
  Done (metaDataRef, replicas, readyReplicas, availableReplicas).

(** [parseMetaData], lines 735-757: the value under the key [status]. *)
Definition parseStatusMap (metaDataRef : MetaData.t) (value : json)
  : Outcome MetaData.t :=
  statusMap <- asMap value ;;
  '(metaDataRef, replicas, readyReplicas, availableReplicas) <-
    forRange statusMap parseStatusKey (metaDataRef, 0%float, 0%float, 0%float) ;;
  Done (if replicasReady replicas readyReplicas availableReplicas
        then setStatus metaDataRef "Ready" else metaDataRef).

(** The variables of the loop over one item's keys. *)
Record ItemState : Type := mkItemState
  { metaDataRef : MetaData.t;
    metadataProcessed : bool;
    statusProcessed : bool;
    metaDataSlice : list MetaData.t }.

(** [parseMetaData], lines 703-767: one iteration of the loop over the keys
    of an item. *)
Definition parseItemKey (statusKeyExists : bool) (st : ItemState) (kv : string * json)
  : Outcome ItemState :=
  let '(key, value) := kv in
  '(ref, mp) <- (if String.eqb key "metadata"
                 then ref <- parseMetadataMap (metaDataRef st) value ;; Done (ref, true)
                 else Done (metaDataRef st, metadataProcessed st)) ;;
  '(ref, sp) <- (if String.eqb key "status"
                 then ref <- parseStatusMap ref value ;; Done (ref, true)
                 else Done (ref, statusProcessed st)) ;;
  Done (mkItemState ref mp sp
          (if statusKeyExists
           then (if mp && sp then metaDataSlice st ++ [ref] else metaDataSlice st)
           else (if mp then metaDataSlice st ++ [ref] else metaDataSlice st))).

(** [parseMetaData], lines 692-768: one item of the listing. *)
Definition parseItem (slice : list MetaData.t) (item : json) : Outcome (list MetaData.t) :=
  itemConverted <- asMap item ;;
  let statusKeyExists := existsb (fun kv => String.eqb (fst kv) "status") itemConverted in
  st <- forRange itemConverted (parseItemKey statusKeyExists)
          (mkItemState MetaData.zero false false slice) ;;
  Done (metaDataSlice st).

Definition parseMetaData (content : Content) : Outcome (list MetaData.t) :=
  match content with
  | None => Done []
  | Some result =>
      match mapLookup "items" result with
      | Some (JArray items) => forRange items parseItem []
      | _ => Done []
      end
  end.

(** [filterChildren]. *)
Definition filterChildren (metaDataSlice : list MetaData.t) (parentResourceName : string)
  : list MetaData.t :=
  fold_left
    (fun metaDataSliceToReturn metaDataRef =>
       if String.eqb (MetaData.OwnerReferenceName metaDataRef) parentResourceName
       then
         let present :=
           existsb (fun node => String.eqb (MetaData.MetaDataName node)
                                  (MetaData.MetaDataName metaDataRef))
             metaDataSliceToReturn in
         if negb present then metaDataSliceToReturn ++ [metaDataRef]
         else metaDataSliceToReturn
       else metaDataSliceToReturn)
    metaDataSlice [].

(** ** The cluster API

    The collaborators [getResourceListContent] calls, over a state [W] of
    the world outside the process. *)
Record Cluster (W : Type) : Type := mkCluster
  { (** [ioutil.ReadFile]: [None] when it returns an error. *)
    ReadFile : W -> string -> option string;
    (** [url.Parse] followed by [u.String()]: [None] on a parse error. *)
    url_Parse : string -> option string;
    (** [http.NewRequest method url nil]: [false] when it returns an error
        (and a nil request). *)
    http_NewRequest : string -> string -> bool;
    (** [client.Do] with the bearer token and the certificate pool, then
        [ioutil.ReadAll] and the decoding of the body: [None] when [Do]
        returns an error and a nil response. *)
    client_Do : W -> string -> string -> string -> option Content * W }.

Arguments ReadFile {W} _ _ _.
Arguments url_Parse {W} _ _.
Arguments http_NewRequest {W} _ _ _.
Arguments client_Do {W} _ _ _ _ _.

(** The package-level variables. *)
Record Globals : Type := mkGlobals
  { serviceHost : string;
    servicePort : string;
    Namespace : string;
    httpMethod : string;
    KindPluralMap : gomap string;
    kindVersionMap : gomap string;
    compositionMap : gomap (list string) }.

Definition getToken {W} (cl : Cluster W) (w : W) : Outcome string :=
  match ReadFile cl w "/var/run/secrets/kubernetes.io/serviceaccount/token" with
  | Some caToken => Done caToken
  | None => Panicked
  end.

Definition getCACert {W} (cl : Cluster W) (w : W) : Outcome string :=
  match ReadFile cl w "/var/run/secrets/kubernetes.io/serviceaccount/ca.crt" with
  | Some caCert => Done caCert
  | None => Panicked
  end.

(** [getResourceListContent].  After a failed [client.Do] the error is
    logged and execution goes on to [defer resp.Body.Close()] with a nil
    [resp]: a nil-pointer panic.  The same happens to [req.Header.Set] after
    a failed [http.NewRequest]. *)
Definition getResourceListContent {W} (cl : Cluster W) (g : Globals)
    (resourceApiVersion resourcePlural : string) (w : W) : Outcome (Content * W) :=
  let url1 :=
    if negb (Contains resourceApiVersion resourcePlural)
    then ("https://" ++ serviceHost g ++ ":" ++ servicePort g ++ "/" ++ resourceApiVersion
          ++ "/namespaces/" ++ Namespace g ++ "/" ++ resourcePlural)%string
    else ("https://" ++ serviceHost g ++ ":" ++ servicePort g ++ "/"
          ++ resourceApiVersion)%string in
  caToken <- getToken cl w ;;
  caCertPool <- getCACert cl w ;;
  match url_Parse cl url1 with
  | None => Panicked
  | Some u =>
      if http_NewRequest cl (httpMethod g) u then
        match client_Do cl w u caToken caCertPool with
        | (Some resp_body, w') => Done (resp_body, w')
        | (None, _) => Panicked
        end
      else Panicked
  end.

Definition getResourceNames {W} (cl : Cluster W) (g : Globals) (resourceKind : string)
    (w : W) : Outcome (list MetaData.t * W) :=
  let resourceApiVersion := mapGet resourceKind (kindVersionMap g) in
  let resourceKindPlural := mapGet resourceKind (KindPluralMap g) in
  '(content, w) <- getResourceListContent cl g resourceApiVersion resourceKindPlural w ;;
  metaDataAndOwnerReferenceList <- parseMetaData content ;;
  Done (metaDataAndOwnerReferenceList, w).

Definition getResourceKinds (g : Globals) : list string := keys (compositionMap g).

(** ** The tree builder

    [buildProvenance] with a bound [depth] on the number of nested
    activations: an activation that would be the [depth+1]-th is
    [Exhausted].  [compositionTree] is the slice behind the pointer the
    Go function appends to. *)
Fixpoint buildProvenance {W} (cl : Cluster W) (g : Globals) (depth : nat)
    (parentResourceKind parentResourceName : string) (level : Z)
    (compositionTree : list TreeNode.t) (w : W) : Outcome (list TreeNode.t * W) :=
  match depth with
  | O => Exhausted
  | S depth' =>
      match mapLookup parentResourceKind (compositionMap g) with
      | Some childResourceKindList =>
          let level := int_add level 1 in
          forRange childResourceKindList
            (fun '(compositionTree, w) childResourceKind =>
               let childKindPlural := mapGet childResourceKind (KindPluralMap g) in
               let childResourceApiVersion := mapGet childResourceKind (kindVersionMap g) in
               '(content, w) <-
                 getResourceListContent cl g childResourceApiVersion childKindPlural w ;;
               metaDataAndOwnerReferenceList <- parseMetaData content ;;
               let childrenList :=
                 filterChildren metaDataAndOwnerReferenceList parentResourceName in
               let compTreeNode := TreeNode.mk level childResourceKind childrenList in
               let compositionTree := compositionTree ++ [compTreeNode] in
               forRange childrenList
                 (fun '(compositionTree, w) metaDataRef =>
                    let resourceName := MetaData.MetaDataName metaDataRef in
                    let resourceKind := childResourceKind in
                    buildProvenance cl g depth' resourceKind resourceName level
                      compositionTree w)
                 (compositionTree, w))
            (compositionTree, w)
      | None => Done (compositionTree, w)
      end
  end.

(** ** The query engine *)

(** Modelled from the spec: the declaration of [Composition] (the order of
    its fields and their names in the serialised text), which is not in
    this file.  The spec gives the shape Level, Kind, Name, Status,
    Children; the fields themselves are the ones [getComposition] assigns. *)
Module Composition.
Inductive t : Type := mk
  { Level : Z;
    Kind : string;
    Name : string;
    Status : string;
    Children : list t }.
End Composition.

(** [processed]. *)
Definition processed (processedList : list TreeNode.t) (nodeToCheck : TreeNode.t) : bool :=
  fold_left
    (fun result compositionTreeNode1 =>
       if Z.eqb (TreeNode.Level compositionTreeNode1) (TreeNode.Level nodeToCheck)
          && String.eqb (TreeNode.ChildKind compositionTreeNode1)
               (TreeNode.ChildKind nodeToCheck)
       then true else result)
    processedList false.

(** The variables the loops of [getComposition] assign: the children
    collected so far, the slice the local pointer [compositionTree] points
    to at the moment, and the slice behind the shared [processedList]. *)
Record QueryState : Type := mkQueryState
  { children : list Composition.t;
    currentTree : list TreeNode.t;
    processedNodes : list TreeNode.t }.

(** [getComposition] with a bound [depth] on the number of nested
    activations.  The outer [range] walks the slice the pointer held on
    entry; the inner loop reads the pointer again for every child and
    resets it to an empty slice after the first recursive call. *)
Fixpoint getCompositionWithin (depth : nat) (kind name status : string) (level : Z)
    (compositionTree processedList : list TreeNode.t)
  : Outcome (Composition.t * list TreeNode.t) :=
  match depth with
  | O => Exhausted
  | S depth' =>
      st <- forRange compositionTree
              (fun st compositionTreeNode =>
                 if processed (processedNodes st) compositionTreeNode then Done st
                 else
                   let level := TreeNode.Level compositionTreeNode in
                   let childKind := TreeNode.ChildKind compositionTreeNode in
                   forRange (TreeNode.Children compositionTreeNode)
                     (fun st metaDataNode =>
                        let childName := MetaData.MetaDataName metaDataNode in
                        let childStatus := MetaData.Status metaDataNode in
                        let trimmedTree :=
                          filter (fun compositionTreeNode1 =>
                                    negb (Z.eqb (TreeNode.Level compositionTreeNode1) level)
                                    && negb (String.eqb
                                               (TreeNode.ChildKind compositionTreeNode1)
                                               childKind))
                            (currentTree st) in
                        let processedList := processedNodes st ++ [compositionTreeNode] in
                        '(child, processedList) <-
                          getCompositionWithin depth' childKind childName childStatus level
                            trimmedTree processedList ;;
                        Done (mkQueryState (children st ++ [child]) [] processedList))
                     st)
              (mkQueryState [] compositionTree processedList) ;;
      Done (Composition.mk level kind name status (children st), processedNodes st)
  end.

(** Every nested activation works on a strictly shorter slice, so one more
    than the length of the slice bounds the nesting. *)
Definition getComposition (kind name status : string) (level : Z)
    (compositionTree processedList : list TreeNode.t)
  : Outcome (Composition.t * list TreeNode.t) :=
  getCompositionWithin (S (List.length compositionTree)) kind name status level
    compositionTree processedList.

(** The reverse lookup of [GetProvenance], lines 468-474, over the entries
    of [KindPluralMap] in the order this execution of the [range] visits
    them: the first key whose plural is the wanted one, lower-cased; the
    empty string when there is none. *)
Fixpoint resolveKind {T : Toolchain} (kindPluralMap : gomap string)
    (resourceKindPlural : string) : string :=
  match kindPluralMap with
  | [] => EmptyString
  | (key, value) :: rest =>
      if String.eqb (ToLower value) (ToLower resourceKindPlural) then ToLower key
      else resolveKind rest resourceKindPlural
  end.

(** The body of the loop of [GetProvenance] over the stored records;
    [resourceKindPlural] is the plural looked up before the loop, and
    [kindPluralMap] holds the entries of [KindPluralMap] in the order the
    inner [range] visits them in this iteration. *)
Definition queryRecord {T : Toolchain} (kindPluralMap : gomap string)
    (resourceKindPlural resourceName : string)
    (compositions : list Composition.t) (provenanceItem : Provenance.t)
  : Outcome (list Composition.t) :=
  let kind := ToLower (Provenance.Kind provenanceItem) in
  let name := ToLower (Provenance.Name provenanceItem) in
  let status := Provenance.Status provenanceItem in
  let compositionTree := Provenance.CompositionTree provenanceItem in
  let resourceKindPlural := ToLower resourceKindPlural in
  let resourceKind := resolveKind kindPluralMap resourceKindPlural in
  let resourceName := ToLower resourceName in
  if String.eqb resourceName "*" then
    if String.eqb resourceKind kind then
      '(composition, _) <- getComposition kind name status 1 compositionTree [] ;;
      Done (compositions ++ [composition])
    else Done compositions
  else if String.eqb resourceKind kind && String.eqb resourceName name then
    '(composition, _) <- getComposition kind name status 1 compositionTree [] ;;
    Done (compositions ++ [composition])
  else Done compositions.

(** The loop of [GetProvenance], from the [i]-th stored record on: the
    inner [range] over [KindPluralMap] is executed once for every record,
    each time in an order of the runtime's choice. *)
Definition queryFrom {T : Toolchain} (g : Globals) (resourceKindPlural resourceName : string)
    (i : nat) (records : list Provenance.t) (compositions : list Composition.t)
  : Outcome (nat * list Composition.t) :=
  forRange records
    (fun '(i, compositions) provenanceItem =>
       compositions <- queryRecord (rangeOrder i (KindPluralMap g)) resourceKindPlural
                         resourceName compositions provenanceItem ;;
       Done (S i, compositions))
    (i, compositions).

(** The loop of [GetProvenance]: the query kind indexes [KindPluralMap] as
    it is written. *)
Definition queryRecords {T : Toolchain} (g : Globals) (resourceKind resourceName : string)
    (records : list Provenance.t) : Outcome (list Composition.t) :=
  let resourceKindPlural := mapGet resourceKind (KindPluralMap g) in
  '(_, compositions) <- queryFrom g resourceKindPlural resourceName 0 records [] ;;
  Done compositions.

(** *** Serialisation

    [json.Marshal] on [[]Composition]: compact text, the fields of a node
    in declaration order, strings with HTML escaping and with every byte
    that is not part of well-formed UTF-8 replaced by U+FFFD. *)

Definition quote : string := String "034"%char EmptyString.

Definition hexDigit (n : nat) : ascii :=
  match String.get n "0123456789abcdef" with
  | Some c => c
  | None => "0"%char
  end.

(** One byte below 128 of a string as [json.Marshal] writes it (HTML
    escaping on). *)
Definition marshalByte {T : Toolchain} (c : ascii) : string :=
  let n := nat_of_ascii c in
  if (n =? 34)%nat then String "\"%char quote
  else if (n =? 92)%nat then "\\"
  else if (n =? 10)%nat then "\n"
  else if (n =? 13)%nat then "\r"
  else if (n =? 9)%nat then "\t"
  else if (n =? 8)%nat then (if shortEscapes then "\b" else "\u0008")
  else if (n =? 12)%nat then (if shortEscapes then "\f" else "\u000c")
  else if (n <? 32)%nat || (n =? 60)%nat || (n =? 62)%nat || (n =? 38)%nat
       then ("\u00" ++ String (hexDigit (n / 16)) (String (hexDigit (n mod 16)) EmptyString))%string
  else String c EmptyString.

(** [utf8.DecodeRuneInString]: the number of bytes of the well-formed
    UTF-8 encoding the text starts with, 0 when it starts with none (the
    rune is then U+FFFD, of width 1). *)
Definition isContinuation (n : nat) : bool := (128 <=? n)%nat && (n <=? 191)%nat.

Definition startsThree (a b : nat) : bool :=
  ((a =? 224)%nat && (160 <=? b)%nat && (b <=? 191)%nat)
  || ((225 <=? a)%nat && (a <=? 236)%nat && isContinuation b)
  || ((a =? 237)%nat && (128 <=? b)%nat && (b <=? 159)%nat)
  || ((238 <=? a)%nat && (a <=? 239)%nat && isContinuation b).

Definition startsFour (a b : nat) : bool :=
  ((a =? 240)%nat && (144 <=? b)%nat && (b <=? 191)%nat)
  || ((241 <=? a)%nat && (a <=? 243)%nat && isContinuation b)
  || ((a =? 244)%nat && (128 <=? b)%nat && (b <=? 143)%nat).

Definition runeSize (s : string) : nat :=
  match s with
  | EmptyString => 0
  | String a s1 =>
      let a := nat_of_ascii a in
      if (a <? 128)%nat then 1
      else
        match s1 with
        | EmptyString => 0
        | String b s2 =>
            let b := nat_of_ascii b in
            if (194 <=? a)%nat && (a <=? 223)%nat
            then (if isContinuation b then 2 else 0)
            else
              match s2 with
              | EmptyString => 0
              | String c s3 =>
                  let c := nat_of_ascii c in
                  if startsThree a b
                  then (if isContinuation c then 3 else 0)
                  else
                    match s3 with
                    | EmptyString => 0
                    | String d _ =>
                        if startsFour a b && isContinuation c
                           && isContinuation (nat_of_ascii d)
                        then 4 else 0
                    end
              end
        end
  end.

(** The text starts with U+2028 or U+2029 (the bytes 226, 128 and 168 or
    169): the last hexadecimal digit of the rune. *)
Definition lineSeparator (s : string) : option ascii :=
  match s with
  | String a (String b (String c _)) =>
      if (nat_of_ascii a =? 226)%nat && (nat_of_ascii b =? 128)%nat
      then (if (nat_of_ascii c =? 168)%nat then Some "8"%char
            else if (nat_of_ascii c =? 169)%nat then Some "9"%char
            else None)
      else None
  | _ => None
  end.

(** The bytes of a string as [json.Marshal] writes them: a byte below 128
    by [marshalByte]; a well-formed encoding of a rune as it is, except
    U+2028 and U+2029, which are escaped; a byte that starts no
    well-formed encoding as [\ufffd].  [copy] and [drop] count the bytes
    of the rune at hand that are still to be copied or passed over. *)
Fixpoint marshalBytes {T : Toolchain} (copy drop : nat) (s : string) : string :=
  match s with
  | EmptyString => EmptyString
  | String c s' =>
      match drop with
      | S drop' => marshalBytes copy drop' s'
      | O =>
          match copy with
          | S copy' => String c (marshalBytes copy' 0 s')
          | O =>
              match runeSize s with
              | 0 => ("\ufffd" ++ marshalBytes 0 0 s')%string
              | 1 => (marshalByte c ++ marshalBytes 0 0 s')%string
              | S (S more) =>
                  match lineSeparator s with
                  | Some digit =>
                      ("\u202" ++ String digit (marshalBytes 0 2 s'))%string
                  | None => String c (marshalBytes (S more) 0 s')
                  end
              end
          end
      end
  end.

Definition marshalString {T : Toolchain} (s : string) : string :=
  (quote ++ marshalBytes 0 0 s ++ quote)%string.

(** [strconv.Itoa] on a Go [int]. *)
Definition Itoa (z : Z) : string := NilZero.string_of_int (Z.to_int z).

Definition marshalKey (k : string) : string := (quote ++ k ++ quote ++ ":")%string.

Fixpoint marshalComposition {T : Toolchain} (c : Composition.t) : string :=
  match c with
  | Composition.mk level kind name status children =>
      let fix elements (l : list Composition.t) : string :=
        match l with
        | [] => EmptyString
        | [x] => marshalComposition x
        | x :: l' => (marshalComposition x ++ "," ++ elements l')%string
        end in
      ("{" ++ marshalKey "Level" ++ Itoa level
       ++ "," ++ marshalKey "Kind" ++ marshalString kind
       ++ "," ++ marshalKey "Name" ++ marshalString name
       ++ "," ++ marshalKey "Status" ++ marshalString status
       ++ "," ++ marshalKey "Children" ++ "[" ++ elements children ++ "]" ++ "}")%string
  end.

Fixpoint marshalElements {T : Toolchain} (l : list Composition.t) : string :=
  match l with
  | [] => EmptyString
  | [x] => marshalComposition x
  | x :: l' => (marshalComposition x ++ "," ++ marshalElements l')%string
  end.

(** [json.Marshal(compositions)] for the non-nil slice [compositions]; it
    has no error case on this type. *)
Definition Marshal {T : Toolchain} (compositions : list Composition.t) : string :=
  ("[" ++ marshalElements compositions ++ "]")%string.

(** [GetProvenance]. *)
Definition GetProvenance {T : Toolchain} (g : Globals) (resourceKind resourceName : string)
    (cp : ClusterProvenance) : Outcome (string * ClusterProvenance) :=
  cp1 <- Lock cp ;;
  compositions <- queryRecords g resourceKind resourceName (clusterProvenance cp1) ;;
  let provenanceString := Marshal compositions in
  Done (provenanceString, Unlock cp1).

(** [PrintProvenance]: the text written to standard output. *)
Definition newline : string := String "010"%char EmptyString.

Definition printRecord (provenanceItem : Provenance.t) : string :=
  let kind := Provenance.Kind provenanceItem in
  let name := Provenance.Name provenanceItem in
  let compositionTree := Provenance.CompositionTree provenanceItem in
  ("Kind: " ++ kind ++ " Name: " ++ name ++ " Composition:" ++ newline
   ++ String.concat EmptyString
        (flat_map
           (fun compositionTreeNode =>
              let level := TreeNode.Level compositionTreeNode in
              let childKind := TreeNode.ChildKind compositionTreeNode in
              map (fun metaDataNode =>
                     let childName := MetaData.MetaDataName metaDataNode in
                     let childStatus := MetaData.Status metaDataNode in
                     "  " ++ Itoa level ++ " " ++ childKind ++ " " ++ childName ++ " "
                     ++ childStatus ++ newline)
                (TreeNode.Children compositionTreeNode))
           compositionTree)
   ++ "============================================" ++ newline)%string.

Definition PrintProvenance (cp : ClusterProvenance) : Outcome (string * ClusterProvenance) :=
  cp1 <- Lock cp ;;
  Done (("Provenance of different Kinds in this Cluster" ++ newline
         ++ String.concat EmptyString (map printRecord (clusterProvenance cp1)))%string,
        Unlock cp1).

(** ** The refresh loop *)

(** [BuildCompositionTree], lines 130-140: the instances of one kind are
    added to the list of resources seen in this pass, unless one of the
    same name is there already. *)
Definition collectSeen (resourceInCluster topLevelMetaDataOwnerRefList : list MetaData.t)
  : list MetaData.t :=
  fold_left
    (fun resourceInCluster resource =>
       let present :=
         existsb (fun res => String.eqb (MetaData.MetaDataName res)
                               (MetaData.MetaDataName resource))
           resourceInCluster in
       if negb present then resourceInCluster ++ [resource] else resourceInCluster)
    topLevelMetaDataOwnerRefList resourceInCluster.

(** One pass of the loop of [BuildCompositionTree], from
    [getResourceKinds] to the purge (the schema reload before it and the
    sleep after it are not part of it).  [depth] bounds the nesting of
    [buildProvenance]. *)
Definition refreshCycle {W} (cl : Cluster W) (g : Globals) (depth : nat)
    (cp : ClusterProvenance) (w : W) : Outcome (ClusterProvenance * W) :=
  let resourceKindList := getResourceKinds g in
  '(resourceInCluster, cp, w) <-
    forRange resourceKindList
      (fun '(resourceInCluster, cp, w) resourceKind =>
         '(topLevelMetaDataOwnerRefList, w) <- getResourceNames cl g resourceKind w ;;
         '(cp, w) <-
           forRange topLevelMetaDataOwnerRefList
             (fun '(cp, w) topLevelObject =>
                let resourceName := MetaData.MetaDataName topLevelObject in
                let level := 1%Z in
                '(compositionTree, w) <-
                  buildProvenance cl g depth resourceKind resourceName level [] w ;;
                cp <- storeProvenance topLevelObject resourceKind resourceName
                        compositionTree cp ;;
                Done (cp, w))
             (cp, w) ;;
         Done (collectSeen resourceInCluster topLevelMetaDataOwnerRefList, cp, w))
      ([], cp, w) ;;
  cp <- purgeCompositionOfDeletedItems resourceInCluster cp ;;
  Done (cp, w).


(** ** Vocabulary of the statements *)

(** *** The store *)

(** A record has the identity [(resourceKind, resourceName)]. *)
Definition sameIdentity (resourceKind resourceName : string) (prov : Provenance.t) : bool :=
  String.eqb (Provenance.Kind prov) resourceKind
  && String.eqb (Provenance.Name prov) resourceName.

(** The record with its status and tree replaced when it has that identity. *)
Definition overwrite (topLevelObject : MetaData.t) (resourceKind resourceName : string)
    (compositionTree : list TreeNode.t) (prov : Provenance.t) : Provenance.t :=
  if sameIdentity resourceKind resourceName prov
  then Provenance.mk (Provenance.Kind prov) (Provenance.Name prov)
         (MetaData.Status topLevelObject) compositionTree
  else prov.

(** The record [storeProvenance] builds from its arguments. *)
Definition storedRecord (topLevelObject : MetaData.t) (resourceKind resourceName : string)
    (compositionTree : list TreeNode.t) : Provenance.t :=
  Provenance.mk resourceKind resourceName (MetaData.Status topLevelObject) compositionTree.

(** *** Parsing *)

(** The [status] object holds these fields ([None] for an absent one) with
    the JSON types a listing gives them; its keys are distinct, as in every
    Go map. *)
Definition statusFields (phase : option string)
    (replicas readyReplicas availableReplicas : option float)
    (statusMap : gomap json) : Prop :=
  NoDup (keys statusMap)
  /\ mapLookup "phase" statusMap = option_map JString phase
  /\ mapLookup "replicas" statusMap = option_map JNumber replicas
  /\ mapLookup "readyReplicas" statusMap = option_map JNumber readyReplicas
  /\ mapLookup "availableReplicas" statusMap = option_map JNumber availableReplicas.

(** The status [parseMetaData] leaves on a snapshot, from the fields of
    the item's [status] object ([None] for an absent field) and the status
    the snapshot had before. *)
Definition floatOrZero (o : option float) : float :=
  match o with
  | Some f => f
  | None => 0%float
  end.

Definition derivedStatus (previous : string) (phase : option string)
    (replicas readyReplicas availableReplicas : option float) : string :=
  if replicasReady (floatOrZero replicas) (floatOrZero readyReplicas)
       (floatOrZero availableReplicas)
  then "Ready"
  else match phase with
       | Some p => p
       | None => previous
       end.

(** The three replica counts are present, [replicas] is positive, and all
    three are equal. *)
Definition replicasAllReady (replicas readyReplicas availableReplicas : option float)
  : bool :=
  match replicas, readyReplicas, availableReplicas with
  | Some r, Some rr, Some a =>
      PrimFloat.ltb 0%float r && PrimFloat.eqb r a && PrimFloat.eqb r rr
  | _, _, _ => false
  end.

(** The snapshot of an item while its keys are being visited: the metadata
    [m] once the [metadata] key has been seen, the status [status] once
    the [status] key has been seen. *)
Definition snapshotSoFar (m : MetaData.t) (status : string) (mp sp : bool) : MetaData.t :=
  setStatus (if mp then m else MetaData.zero) (if sp then status else EmptyString).

(** The number of times the loop over the keys [l] of an item that has a
    [status] key reaches the [append], when it starts with the two flags
    [metadataProcessed = mp] and [statusProcessed = sp]. *)
Fixpoint appendCount (l : gomap json) (mp sp : bool) : nat :=
  match l with
  | [] => 0
  | (key, _) :: l' =>
      let mp' := mp || String.eqb key "metadata" in
      let sp' := sp || String.eqb key "status" in
      (if mp' && sp' then 1 else 0) + appendCount l' mp' sp'
  end.

(** The key [key] is among the entries [l]. *)
Definition seenKey (key : string) (l : gomap json) : bool :=
  existsb (fun kv => String.eqb (fst kv) key) l.

(** What the [status] object of an item reports: the phase and the three
    replica counts, [None] for an absent field. *)
Record StatusReport : Type := mkStatusReport
  { reportPhase : option string;
    reportReplicas : option float;
    reportReadyReplicas : option float;
    reportAvailableReplicas : option float }.

(** An item of a listing, described by the snapshot its [metadata] parses
    to and by what its status reports: an object with distinct keys, whose
    [metadata] parses to that snapshot, and which either has no [status]
    key (the report is [None]) or has a [status] object with the fields of
    the report. *)
Definition listedItem (described : MetaData.t * option StatusReport) (item : json)
  : Prop :=
  exists (itemConverted : gomap json) (metadata : json),
    item = JObject itemConverted
    /\ NoDup (keys itemConverted)
    /\ mapLookup "metadata" itemConverted = Some metadata
    /\ parseMetadataMap MetaData.zero metadata = Done (fst described)
    /\ match snd described with
       | None => ~ In "status" (keys itemConverted)
       | Some report =>
           exists statusMap : gomap json,
             mapLookup "status" itemConverted = Some (JObject statusMap)
             /\ statusFields (reportPhase report) (reportReplicas report)
                  (reportReadyReplicas report) (reportAvailableReplicas report)
                  statusMap
       end.

(** The status of the snapshot of such an item: [Ready] when the three
    replica counts are present, [replicas] is positive and all three are
    equal; otherwise the phase when there is one; otherwise empty. *)
Definition statusOf (report : option StatusReport) : string :=
  match report with
  | None => EmptyString
  | Some report =>
      if replicasAllReady (reportReplicas report) (reportReadyReplicas report)
           (reportAvailableReplicas report)
      then "Ready"
      else match reportPhase report with
           | Some p => p
           | None => EmptyString
           end
  end.

(** The snapshots of one item: one or more, all the same, with the
    metadata of the item and the status derived from its report. *)
Definition snapshotsOf (described : MetaData.t * option StatusReport)
    (snapshots : list MetaData.t) : Prop :=
  exists n : nat,
    snapshots = repeat (setStatus (fst described) (statusOf (snd described))) (S n).

(** *** The schema as a graph *)

(** The child kinds a kind declares; none when the kind is absent. *)
Definition childKinds (g : Globals) (kind : string) : list string :=
  match mapLookup kind (compositionMap g) with
  | Some l => l
  | None => []
  end.

(** A child-chain: every kind but the first is a declared child of the one
    before it.  Its length is the number of kinds on it. *)
Inductive chain (g : Globals) : list string -> Prop :=
| chain_one (kind : string) : chain g [kind]
| chain_cons (kind child : string) (l : list string) :
    In child (childKinds g kind) -> chain g (child :: l) -> chain g (kind :: child :: l).

(** The schema has no cycle: no chain leads from a kind back to it. *)
Definition acyclic (g : Globals) : Prop :=
  forall (kind : string) (l : list string), ~ chain g (kind :: l ++ [kind]).

(** Every chain from [kind] has at most [n] kinds. *)
Fixpoint boundedFrom (g : Globals) (n : nat) (kind : string) : bool :=
  match n with
  | O => false
  | S n' => forallb (boundedFrom g n') (childKinds g kind)
  end.

(** A check that implies [acyclic]. *)
Definition acyclicb (g : Globals) : bool :=
  forallb (boundedFrom g (S (List.length (compositionMap g)))) (keys (compositionMap g)).

(** The call returned or panicked. *)
Definition terminates {A : Type} (o : Outcome A) : Prop :=
  match o with
  | Done _ => True
  | Panicked => True
  | Exhausted => False
  | Blocked => False
  end.

(** The call returned or needs more nesting: it neither panicked nor
    blocked. *)
Definition runs {A : Type} (o : Outcome A) : Prop :=
  match o with
  | Done _ => True
  | Exhausted => True
  | Panicked => False
  | Blocked => False
  end.

(** [d] is the recursion depth of a call of [buildProvenance]: the least
    bound on the nesting of activations under which it terminates. *)
Definition recursionDepth {W} (cl : Cluster W) (g : Globals)
    (kind name : string) (level : Z) (tree : list TreeNode.t) (w : W) (d : nat) : Prop :=
  terminates (buildProvenance cl g d kind name level tree w)
  /\ forall d', (d' < d)%nat ->
                ~ terminates (buildProvenance cl g d' kind name level tree w).

(** [n] is the length of the longest child-chain of the schema. *)
Definition longestChain (g : Globals) (n : nat) : Prop :=
  (exists l, chain g l /\ List.length l = n)
  /\ forall l, chain g l -> (List.length l <= n)%nat.

(** The number of kinds on the longest chain that starts at [kind], among
    the chains of at most [bound] kinds. *)
Fixpoint chainFrom (g : Globals) (bound : nat) (kind : string) : nat :=
  match bound with
  | O => O
  | S bound' => S (list_max (map (chainFrom g bound') (childKinds g kind)))
  end.

(** A cluster in which every listing shows one instance, named [x] and
    owned by an instance named [x]: below an instance named [x] every
    declared child kind has an instance to descend into. *)
Definition xItem : json :=
  JObject
    [("metadata",
      JObject
        [("name", JString "x");
         ("ownerReferences", JArray [JObject [("name", JString "x")]])])].

Definition uniformCluster : Cluster unit :=
  mkCluster unit
    (fun _ _ => Some "secret")
    (fun url => Some url)
    (fun _ _ => true)
    (fun w _ _ _ => (Some (Some [("items", JArray [xItem])]), w)).

(** *** Queries *)

(** The stored record [r] passes the test of [GetProvenance] for the plural
    [resourceKindPlural] and the name [resourceName], when the [range] over
    the plural-name table visits its entries in the order [kindPluralMap]. *)
Definition answers {T : Toolchain} (kindPluralMap : gomap string)
    (resourceKindPlural resourceName : string) (r : Provenance.t) : Prop :=
  resolveKind kindPluralMap (ToLower resourceKindPlural)
  = ToLower (Provenance.Kind r)
  /\ (ToLower resourceName = "*"
      \/ ToLower resourceName = ToLower (Provenance.Name r)).

(** A query returns the stored record [r]: the array it serialises holds
    the tree reconstructed from [r]. *)
Definition returnsRecord {T : Toolchain} (g : Globals) (resourceKind resourceName : string)
    (cp : ClusterProvenance) (r : Provenance.t) : Prop :=
  exists composition processedList compositions cp',
    getComposition (ToLower (Provenance.Kind r)) (ToLower (Provenance.Name r))
      (Provenance.Status r) 1 (Provenance.CompositionTree r) []
    = Done (composition, processedList)
    /\ In composition compositions
    /\ GetProvenance g resourceKind resourceName cp = Done (Marshal compositions, cp').

(** JSON text is written below with an apostrophe wherever the text has a
    double quote. *)
Fixpoint fromApostrophes (s : string) : string :=
  match s with
  | EmptyString => EmptyString
  | String c s' =>
      String (if Ascii.eqb c "'"%char then "034"%char else c) (fromApostrophes s')
  end.

(** ** Sample data *)

(** *** Stores *)

(** A store with two deployments and a pod that shares a name with one of
    them. *)
Definition sampleTree : list TreeNode.t :=
  [TreeNode.mk 2 "ReplicaSet" [MetaData.mk "web-1" "web" "Deployment" "apps/v1" "Ready"]].

Definition sampleStore : ClusterProvenance :=
  mkCP false
    [Provenance.mk "Deployment" "web" "" [];
     Provenance.mk "Pod" "web" "Running" [];
     Provenance.mk "Deployment" "db" "Ready" []].

(** The store of the case-insensitivity example. *)
Definition myappStore : ClusterProvenance :=
  mkCP false [Provenance.mk "Deployment" "myapp" "Ready" []].

(** The same with a name outside ASCII, in upper and in lower case: the
    five bytes of the UTF-8 text for E-acute, t, e-acute. *)
Definition upperEte : string :=
  String "195"%char (String "137"%char (String "t"%char
    (String "195"%char (String "169"%char EmptyString)))).

Definition lowerEte : string :=
  String "195"%char (String "169"%char (String "t"%char
    (String "195"%char (String "169"%char EmptyString)))).

Definition eteStore : ClusterProvenance :=
  mkCP false [Provenance.mk "Deployment" upperEte "Ready" []].

(** A schema in which two kinds share a plural, and a store with one
    record of each. *)
Definition petsGlobals : Globals :=
  mkGlobals "10.0.0.1" "443" "default" "GET"
    [("Cat", "pets"); ("Dog", "pets")]
    [("Cat", "apis/example.org/v1"); ("Dog", "apis/example.org/v1")]
    [("Cat", []); ("Dog", [])].

Definition petsRecords : list Provenance.t :=
  [Provenance.mk "Cat" "tom" "" []; Provenance.mk "Dog" "rex" "" []].

(** *** A toolchain for the examples

    Its tables know the letters of ASCII and the capital letters of the
    Latin-1 supplement (U+00C0 to U+00DE without U+00D7; in UTF-8 the byte
    195 followed by one of 128 to 158 without 151, the small letter 32
    further on), and it visits a map forwards at the even executions of a
    [range] and backwards at the odd ones. *)
Definition lowerLatin1Byte (d : ascii) : ascii :=
  let n := nat_of_ascii d in
  if (128 <=? n)%nat && (n <=? 158)%nat && negb (n =? 151)%nat
  then ascii_of_nat (n + 32) else d.

Fixpoint lowerLatin1 (s : string) : string :=
  match s with
  | EmptyString => EmptyString
  | String c s1 =>
      if (nat_of_ascii c =? 195)%nat then
        match s1 with
        | EmptyString => s
        | String d s2 => String c (String (lowerLatin1Byte d) (lowerLatin1 s2))
        end
      else String (lower_ascii c) (lowerLatin1 s1)
  end.

Definition alternatingOrder (i : nat) (m : gomap string) : gomap string :=
  if Nat.even i then m else rev m.

Definition sampleToolchain : Toolchain.
Proof.
  assert (Hbyte : forall c : ascii, lower_ascii (lower_ascii c) = lower_ascii c)
    by (intros [[] [] [] [] [] [] [] []]; reflexivity).
  assert (Hlead : forall c : ascii,
             (nat_of_ascii (lower_ascii c) =? 195)%nat = (nat_of_ascii c =? 195)%nat)
    by (intros [[] [] [] [] [] [] [] []]; reflexivity).
  assert (Hsecond : forall d : ascii,
             lowerLatin1Byte (lowerLatin1Byte d) = lowerLatin1Byte d)
    by (intros [[] [] [] [] [] [] [] []]; reflexivity).
  refine (mkToolchain lowerLatin1 alternatingOrder true _ _ _ _).
  - induction s as [|c s IH]; cbn [isASCII lowerLatin1 lowerASCII]; [reflexivity|].
    intros H. apply andb_prop in H. destruct H as [Hc Hs].
    destruct (Nat.eqb_spec (nat_of_ascii c) 195) as [E|_].
    + rewrite E in Hc. discriminate.
    + now rewrite IH.
  - intros s.
    enough (H : forall n s, (String.length s <= n)%nat ->
                            lowerLatin1 (lowerLatin1 s) = lowerLatin1 s)
      by exact (H (String.length s) s (Nat.le_refl _)).
    clear s. induction n as [|n IH]; intros s Hlen.
    + destruct s; [reflexivity|cbn in Hlen; lia].
    + destruct s as [|c s1]; [reflexivity|]. cbn [lowerLatin1].
      destruct (nat_of_ascii c =? 195)%nat eqn:Ec.
      * destruct s1 as [|d s2]; cbn [lowerLatin1]; rewrite Ec; [reflexivity|].
        rewrite Hsecond, IH; [reflexivity|].
        cbn [String.length] in Hlen. lia.
      * cbn [lowerLatin1]. rewrite Hlead, Ec, Hbyte, IH; [reflexivity|].
        cbn [String.length] in Hlen. lia.
  - intros [|c s1]; [reflexivity|]. cbn [lowerLatin1].
    destruct (nat_of_ascii c =? 195)%nat; [destruct s1|]; discriminate.
  - intros i m. unfold alternatingOrder. destruct (Nat.even i); [reflexivity|].
    symmetry. apply Permutation_rev.
Defined.

(** *** Listings *)

(** A deployment as a listing shows it, with all replicas ready, with one
    replica not ready, and with a [spec] visited after [metadata] and
    [status]. *)
Definition sampleMetadata : json :=
  JObject [("name", JString "web"); ("namespace", JString "default")].

Definition statusAllReady : gomap json :=
  [("replicas", JNumber 3%float); ("availableReplicas", JNumber 3%float);
   ("readyReplicas", JNumber 3%float)].

Definition statusNotReady : gomap json :=
  [("replicas", JNumber 3%float); ("phase", JString "Progressing");
   ("readyReplicas", JNumber 2%float)].

Definition itemAllReady : gomap json :=
  [("status", JObject statusAllReady); ("metadata", sampleMetadata)].

Definition itemNotReady : gomap json :=
  [("metadata", sampleMetadata); ("status", JObject statusNotReady)].

Definition itemWithSpec : gomap json :=
  [("metadata", sampleMetadata); ("status", JObject statusAllReady);
   ("spec", JObject [("replicas", JNumber 3%float)])].

(** *** Clusters *)

(** The tables [init] fills in for the built-in kinds. *)
Definition builtinGlobals : Globals :=
  mkGlobals "10.0.0.1" "443" "default" "GET"
    [("Deployment", "deployments"); ("ReplicaSet", "replicasets"); ("Pod", "pods");
     ("Service", "services"); ("Secret", "secrets");
     ("PersistentVolumeClaim", "persistentvolumeclaims");
     ("PersistentVolume", "persistentvolumes")]
    [("Deployment", "apis/apps/v1"); ("ReplicaSet", "apis/extensions/v1beta1");
     ("Pod", "api/v1"); ("Service", "api/v1"); ("Secret", "api/v1");
     ("PersistentVolumeClaim", "api/v1");
     ("PersistentVolume", "api/v1/persistentvolumes")]
    [("Deployment", ["ReplicaSet"]); ("ReplicaSet", ["Pod"]); ("Pod", []);
     ("Service", []); ("Secret", []); ("PersistentVolumeClaim", []);
     ("PersistentVolume", [])].

Definition deploymentsListing : Content :=
  Some [("items", JArray [JObject itemAllReady])].

Definition emptyListing : Content := Some [("items", JArray [])].

(** A cluster that serves the deployments and answers every other listing
    with [respond]. *)
Definition sampleCluster (respond : option Content) : Cluster unit :=
  mkCluster unit
    (fun _ _ => Some "secret")
    (fun url => Some url)
    (fun _ _ => true)
    (fun w url _ _ =>
       if String.eqb url "https://10.0.0.1:443/apis/apps/v1/namespaces/default/deployments"
       then (Some deploymentsListing, w)
       else (respond, w)).

(** Every listing but the deployments fails: [client.Do] returns an error. *)
Definition flakyCluster : Cluster unit := sampleCluster None.

(** Every listing but the deployments is empty. *)
Definition quietCluster : Cluster unit := sampleCluster (Some emptyListing).

(** *** The round-trip example

    The schema with [A] composed of [B] and [B] a leaf, one [A] named [a1]
    and one [B] named [b1] that [a1] owns. *)
Definition abGlobals : Globals :=
  mkGlobals "10.0.0.1" "443" "default" "GET"
    [("A", "as"); ("B", "bs")]
    [("A", "apis/example.org/v1"); ("B", "apis/example.org/v1")]
    [("A", ["B"]); ("B", [])].

Definition a1Item : json :=
  JObject [("metadata", JObject [("name", JString "a1")])].

Definition b1Item : json :=
  JObject
    [("metadata",
      JObject
        [("name", JString "b1");
         ("ownerReferences",
          JArray [JObject [("apiVersion", JString "example.org/v1");
                           ("kind", JString "A"); ("name", JString "a1")]])])].

Definition abCluster : Cluster unit :=
  mkCluster unit
    (fun _ _ => Some "secret")
    (fun url => Some url)
    (fun _ _ => true)
    (fun w url _ _ =>
       if String.eqb url "https://10.0.0.1:443/apis/example.org/v1/namespaces/default/as"
       then (Some (Some [("items", JArray [a1Item])]), w)
       else if String.eqb url
                 "https://10.0.0.1:443/apis/example.org/v1/namespaces/default/bs"
       then (Some (Some [("items", JArray [b1Item])]), w)
       else (None, w)).

(** Build the tree of [(A, a1)] and store it in an empty store. *)
Definition roundTripStore : Outcome ClusterProvenance :=
  '(topLevel, w) <- getResourceNames abCluster abGlobals "A" tt ;;
  match topLevel with
  | [topLevelObject] =>
      '(compositionTree, w) <-
        buildProvenance abCluster abGlobals 2 "A"
          (MetaData.MetaDataName topLevelObject) 1 [] w ;;
      storeProvenance topLevelObject "A" (MetaData.MetaDataName topLevelObject)
        compositionTree (mkCP false [])
  | _ => Panicked
  end.

(** Then query [(A, a1)]: the text returned, and the trees it serialises. *)
Definition roundTrip {T : Toolchain} : Outcome string :=
  cp <- roundTripStore ;;
  '(provenanceString, _) <- GetProvenance abGlobals "A" "a1" cp ;;
  Done provenanceString.

Definition roundTripTrees {T : Toolchain} : Outcome (list Composition.t) :=
  cp <- roundTripStore ;;
  queryRecords abGlobals "A" "a1" (clusterProvenance cp).

(** *** More vocabulary: identities *)

(** The identity of a stored record. *)
Definition identity (r : Provenance.t) : string * string :=
  (Provenance.Kind r, Provenance.Name r).

(** No two records of the collection have the same kind and name. *)
Definition uniqueIdentities (records : list Provenance.t) : Prop :=
  NoDup (map identity records).

(** *** More vocabulary: the cluster during a pass *)

(** The cluster answers in the state [w] without leaving it: what it lists
    does not change while it is being listed. *)
Definition steady {W} (cl : Cluster W) (w : W) : Prop :=
  forall url token pool, snd (client_Do cl w url token pool) = w.

(** *** More vocabulary: queries *)

(** The test [answers] as [GetProvenance] computes it. *)
Definition answersb {T : Toolchain} (kindPluralMap : gomap string)
    (resourceKindPlural resourceName : string) (r : Provenance.t) : bool :=
  String.eqb (resolveKind kindPluralMap (ToLower resourceKindPlural))
    (ToLower (Provenance.Kind r))
  && (String.eqb (ToLower resourceName) "*"
      || String.eqb (ToLower resourceName) (ToLower (Provenance.Name r))).

(** [composition] is the tree [GetProvenance] reconstructs from the record
    [r]. *)
Definition reconstructs {T : Toolchain} (r : Provenance.t) (composition : Composition.t)
  : Prop :=
  exists processedList,
    getComposition (ToLower (Provenance.Kind r)) (ToLower (Provenance.Name r))
      (Provenance.Status r) 1 (Provenance.CompositionTree r) []
    = Done (composition, processedList).

(** The stored records that pass the test of [GetProvenance], each with
    the order in which its own [range] over the plural-name table runs:
    the record at position [i] of the store with the [i]-th order. *)
Fixpoint selected {T : Toolchain} (g : Globals) (resourceKindPlural resourceName : string)
    (i : nat) (records : list Provenance.t) : list Provenance.t :=
  match records with
  | [] => []
  | r :: records' =>
      (if answersb (rangeOrder i (KindPluralMap g)) resourceKindPlural resourceName r
       then [r] else [])
      ++ selected g resourceKindPlural resourceName (S i) records'
  end.

(** No two kinds of the table have the same plural, letter case aside. *)
Definition distinctPlurals {T : Toolchain} (g : Globals) : Prop :=
  NoDup (map (fun kv => ToLower (snd kv)) (KindPluralMap g)).

(** Every child but the first is a leaf. *)
Definition onlyFirstChildNested (composition : Composition.t) : Prop :=
  match Composition.Children composition with
  | [] => True
  | _ :: rest => Forall (fun child => Composition.Children child = []) rest
  end.

(** A node of the reconstructed tree shows a member of a slice of the flat
    tree, at the level and with the kind of the slice. *)
Definition showsMemberOf (compositionTree : list TreeNode.t) (child : Composition.t)
  : Prop :=
  exists node member,
    In node compositionTree
    /\ In member (TreeNode.Children node)
    /\ Composition.Level child = TreeNode.Level node
    /\ Composition.Kind child = TreeNode.ChildKind node
    /\ Composition.Name child = MetaData.MetaDataName member
    /\ Composition.Status child = MetaData.Status member.

(** All but the first of a list of nodes are leaves. *)
Definition restAreLeaves (nodes : list Composition.t) : Prop :=
  match nodes with
  | [] => True
  | _ :: rest => Forall (fun child => Composition.Children child = []) rest
  end.

(** *** More vocabulary: built trees *)

(** A slice as [buildProvenance] emits it: the members have distinct names
    and one and the same owner, and the kind is a child kind the schema
    declares for some kind. *)
Definition wellFormedSlice (g : Globals) (node : TreeNode.t) : Prop :=
  NoDup (map MetaData.MetaDataName (TreeNode.Children node))
  /\ (exists parent,
        forall member, In member (TreeNode.Children node) ->
                       MetaData.OwnerReferenceName member = parent)
  /\ exists kind, In (TreeNode.ChildKind node) (childKinds g kind).

(** *** More vocabulary: owner references *)

(** An owner reference with its three fields, all strings, under distinct
    keys. *)
Definition ownerFields (name kind apiVersion : string) (ownerReferenceMap : gomap json)
  : Prop :=
  NoDup (keys ownerReferenceMap)
  /\ mapLookup "name" ownerReferenceMap = Some (JString name)
  /\ mapLookup "kind" ownerReferenceMap = Some (JString kind)
  /\ mapLookup "apiVersion" ownerReferenceMap = Some (JString apiVersion).

(** * The schema registry

    [readKindCompositionFile], [getCRDNames], [getCRDDetails] and [init]:
    how the three tables of [Globals] are filled. *)

(** The assignment [m[k] = v] on a Go map: the entry of [k] gets the new
    value, or a new entry is added (where a [range] would visit it is not
    specified; here it comes last). *)
Fixpoint mapSet {V : Type} (k : string) (v : V) (m : gomap V) : gomap V :=
  match m with
  | [] => [(k, v)]
  | (k', v') :: m' =>
      if String.eqb k' k then (k, v) :: m' else (k', v') :: mapSet k v m'
  end.

(** [strings.Split s ","]: the pieces between the commas, one more than
    there are commas (so the empty string gives one empty piece). *)
Fixpoint splitComma (s : string) : list string :=
  match s with
  | EmptyString => [EmptyString]
  | String c s' =>
      if Ascii.eqb c ","%char then EmptyString :: splitComma s'
      else match splitComma s' with
           | piece :: pieces => String c piece :: pieces
           | [] => [String c EmptyString]
           end
  end.

(** White space as [strings.TrimSpace] sees it, [unicode.IsSpace], in the
    UTF-8 encoding of the text: tab, line feed, vertical tab, form feed,
    carriage return and space in one byte; U+0085 and U+00A0 in two;
    U+1680, U+2000 to U+200A, U+2028, U+2029, U+202F, U+205F and U+3000 in
    three. *)
Definition isSpace1 (c : ascii) : bool :=
  let n := nat_of_ascii c in
  ((9 <=? n)%nat && (n <=? 13)%nat) || (n =? 32)%nat.

Definition isSpace2 (c d : ascii) : bool :=
  (nat_of_ascii c =? 194)%nat
  && ((nat_of_ascii d =? 133)%nat || (nat_of_ascii d =? 160)%nat).

Definition isSpace3 (c d e : ascii) : bool :=
  let c := nat_of_ascii c in
  let d := nat_of_ascii d in
  let e := nat_of_ascii e in
  ((c =? 225)%nat && (d =? 154)%nat && (e =? 128)%nat)
  || ((c =? 226)%nat && (d =? 128)%nat
      && (((128 <=? e)%nat && (e <=? 138)%nat)
          || (e =? 168)%nat || (e =? 169)%nat || (e =? 175)%nat))
  || ((c =? 226)%nat && (d =? 129)%nat && (e =? 159)%nat)
  || ((c =? 227)%nat && (d =? 128)%nat && (e =? 128)%nat).

(** The text is the encoding of one white space rune. *)
Definition whiteSpaceRune (s : string) : bool :=
  match s with
  | String c EmptyString => isSpace1 c
  | String c (String d EmptyString) => isSpace2 c d
  | String c (String d (String e EmptyString)) => isSpace3 c d e
  | _ => false
  end.

(** [strings.TrimLeftFunc s unicode.IsSpace]: the rune decoded at the start
    is white space exactly when the text starts with one of the encodings
    (a byte that starts no well-formed encoding decodes to U+FFFD, which
    is not white space). *)
Fixpoint trimLeft (s : string) : string :=
  match s with
  | EmptyString => EmptyString
  | String c s1 =>
      if isSpace1 c then trimLeft s1
      else match s1 with
           | EmptyString => s
           | String d s2 =>
               if isSpace2 c d then trimLeft s2
               else match s2 with
                    | EmptyString => s
                    | String e s3 => if isSpace3 c d e then trimLeft s3 else s
                    end
           end
  end.

(** [strings.TrimRightFunc s unicode.IsSpace]: the rune decoded at the end
    is white space exactly when the text ends with one of the encodings.
    With the white space at the end of the tail removed, a white space
    rune ends the text only when it is all that is left. *)
Fixpoint trimRight (s : string) : string :=
  match s with
  | EmptyString => EmptyString
  | String c s' =>
      let rest := String c (trimRight s') in
      if whiteSpaceRune rest then EmptyString else rest
  end.

(** [strings.TrimSpace]. *)
Definition TrimSpace (s : string) : string := trimRight (trimLeft s).

(** [getCRDNames], after [json.Unmarshal] has filled [operatorMapList] (a
    [[]map[string]map[string]interface{}]; an absent inner map reads as an
    empty one).  The type assertions on [CustomResources] and on each of
    its elements panic on a mismatch, an absent key included. *)
Definition getCRDNames (operatorMapList : list (gomap (gomap json)))
  : Outcome (list string) :=
  forRange operatorMapList
    (fun crdNameList operator =>
       let operatorDataMap :=
         match mapLookup "Operator" operator with
         | Some m => m
         | None => []
         end in
       match mapLookup "CustomResources" operatorDataMap with
       | Some customResources =>
           customResources <- asSlice customResources ;;
           forRange customResources
             (fun crdNameList cr => s <- asString cr ;; Done (crdNameList ++ [s]))
             crdNameList
       | None => Panicked
       end)
    [].

(** The type assertion [m[key].(string)] of [getCRDDetails]. *)
Definition stringField (key : string) (m : gomap json) : Outcome string :=
  match mapLookup key m with
  | Some v => asString v
  | None => Panicked
  end.

(** [getCRDDetails], after [json.Unmarshal] has run on [crdDetailsMap]
    (what the map holds then, whether or not an error was printed): kind,
    plural, endpoint, composition. *)
Definition getCRDDetails (crdDetailsMap : gomap json)
  : Outcome (string * string * string * list string) :=
  kind <- stringField "kind" crdDetailsMap ;;
  endpoint <- stringField "endpoint" crdDetailsMap ;;
  plural <- stringField "plural" crdDetailsMap ;;
  compositionString <- stringField "composition" crdDetailsMap ;;
  let composition1 := splitComma compositionString in
  let composition :=
    fold_left (fun composition elem => composition ++ [TrimSpace elem]) composition1 [] in
  Done (kind, plural, endpoint, composition).

(** One entry of the composition file (the struct [composition], declared
    in another file of the package, with the fields this file reads). *)
Record compositionEntry : Type := mkCompositionEntry
  { entryKind : string;
    entryEndpoint : string;
    entryComposition : list string;
    entryPlural : string }.

(** What the registry reads from, over the state [W] of the world. *)
Record Registry (W : Type) : Type := mkRegistry
  { (** [os.LookupEnv]. *)
    LookupEnv : W -> string -> option string;
    (** [ioutil.ReadFile] on the composition file: [None] on an error. *)
    registry_ReadFile : W -> string -> option string;
    (** [yaml.Unmarshal] into a [[]composition]. *)
    yaml_Unmarshal : string -> list compositionEntry;
    (** [queryETCD]: the value under the key, or the text of the error
        ([client.New], called with a fixed endpoint, is taken to succeed). *)
    queryETCD : W -> string -> string * W;
    (** [json.Unmarshal] as [getCRDNames] and [getCRDDetails] call it: what
        it leaves in the variable, whether or not it reports an error. *)
    json_operators : string -> list (gomap (gomap json));
    json_object : string -> gomap json }.

Arguments LookupEnv {W} _ _ _.
Arguments registry_ReadFile {W} _ _ _.
Arguments yaml_Unmarshal {W} _ _.
Arguments queryETCD {W} _ _ _.
Arguments json_operators {W} _ _.
Arguments json_object {W} _ _.

(** The three assignments [KindPluralMap[kind] = plural],
    [kindVersionMap[kind] = endpoint], [compositionMap[kind] = composition]. *)
Definition setKind (g : Globals) (kind plural endpoint : string)
    (composition : list string) : Globals :=
  mkGlobals (serviceHost g) (servicePort g) (Namespace g) (httpMethod g)
    (mapSet kind plural (KindPluralMap g))
    (mapSet kind endpoint (kindVersionMap g))
    (mapSet kind composition (compositionMap g)).

(** [readKindCompositionFile].  A file that cannot be read is reported and
    then unmarshalled as no bytes, which leaves the list of entries empty. *)
Definition readKindCompositionFile {W} (reg : Registry W) (g : Globals) (w : W)
  : Outcome (Globals * W) :=
  match LookupEnv reg w "KIND_COMPOSITION_FILE" with
  | Some filePath =>
      let compositionsList :=
        match registry_ReadFile reg w filePath with
        | Some yamlFile => yaml_Unmarshal reg yamlFile
        | None => []
        end in
      Done (fold_left
              (fun g compositionObj =>
                 setKind g (entryKind compositionObj) (entryPlural compositionObj)
                   (entryEndpoint compositionObj) (entryComposition compositionObj))
              compositionsList g,
            w)
  | None =>
      let '(crdListString, w) := queryETCD reg w "/operators" in
      if negb (String.eqb crdListString EmptyString) then
        crdNameList <- getCRDNames (json_operators reg crdListString) ;;
        forRange crdNameList
          (fun '(g, w) crdName =>
             let '(crdDetailsString, w) := queryETCD reg w ("/" ++ crdName)%string in
             '(kind, plural, endpoint, composition) <-
               getCRDDetails (json_object reg crdDetailsString) ;;
             Done (setKind g kind plural endpoint composition, w))
          (g, w)
      else Done (g, w)
  end.

(** [os.Getenv]. *)
Definition Getenv {W} (reg : Registry W) (w : W) (key : string) : string :=
  match LookupEnv reg w key with
  | Some v => v
  | None => EmptyString
  end.

(** [init], from the environment on: empty tables, the composition file or
    the registry, then the built-in kinds. *)
Definition init {W} (reg : Registry W) (w : W) : Outcome (Globals * W) :=
  let g :=
    mkGlobals (Getenv reg w "KUBERNETES_SERVICE_HOST")
      (Getenv reg w "KUBERNETES_SERVICE_PORT") "default" "GET" [] [] [] in
  '(g, w) <- readKindCompositionFile reg g w ;;
  let g := setKind g "Deployment" "deployments" "apis/apps/v1" ["ReplicaSet"] in
  let g := setKind g "ReplicaSet" "replicasets" "apis/extensions/v1beta1" ["Pod"] in
  let g := setKind g "Pod" "pods" "api/v1" [] in
  let g := setKind g "Service" "services" "api/v1" [] in
  let g := setKind g "Secret" "secrets" "api/v1" [] in
  let g := setKind g "PersistentVolumeClaim" "persistentvolumeclaims" "api/v1" [] in
  let g := setKind g "PersistentVolume" "persistentvolumes" "api/v1/persistentvolumes" [] in
  Done (g, w).

(** *** Sample registry *)

(** A composition file that redefines a built-in kind and declares a kind
    of its own, twice. *)
Definition sampleEntries : list compositionEntry :=
  [mkCompositionEntry "Deployment" "apis/apps/v1beta1" ["Pod"] "deploys";
   mkCompositionEntry "Postgres" "apis/postgres/v0" [] "pg";
   mkCompositionEntry "Postgres" "apis/postgrescontroller.kubeplus/v1"
     ["Deployment"; "Service"] "postgreses"].

Definition fileRegistry : Registry unit :=
  mkRegistry unit
    (fun _ key =>
       if String.eqb key "KIND_COMPOSITION_FILE" then Some "/etc/kinds.yaml"
       else if String.eqb key "KUBERNETES_SERVICE_HOST" then Some "10.0.0.1"
       else if String.eqb key "KUBERNETES_SERVICE_PORT" then Some "443"
       else None)
    (fun _ _ => Some "kinds")
    (fun _ => sampleEntries)
    (fun w _ => (EmptyString, w))
    (fun _ => [])
    (fun _ => []).

(** A registry service that lists one operator with one custom resource
    and has no details for it: the lookup returns the text of the error,
    which is not JSON text and leaves the details empty. *)
Definition brokenRegistry : Registry unit :=
  mkRegistry unit
    (fun _ _ => None)
    (fun _ _ => None)
    (fun _ => [])
    (fun w key =>
       (if String.eqb key "/operators" then "operators" else "100: Key not found", w))
    (fun _ => [[("Operator", [("CustomResources", JArray [JString "Postgres"])])]])
    (fun _ => []).

(** *** More vocabulary: composition texts *)

(** The number of commas in a text. *)
Fixpoint countCommas (s : string) : nat :=
  match s with
  | EmptyString => 0
  | String c s' => (if Ascii.eqb c ","%char then 1 else 0) + countCommas s'
  end.

(** The text has no comma. *)
Definition noComma (s : string) : Prop := ~ In ","%char (list_ascii_of_string s).

(** A run of white space runes. *)
Inductive whiteSpace : string -> Prop :=
| whiteSpace_nil : whiteSpace EmptyString
| whiteSpace_cons (rune rest : string) :
    whiteSpaceRune rune = true -> whiteSpace rest -> whiteSpace (rune ++ rest).

(** No white space rune starts the text and none ends it. *)
Definition trimmed (s : string) : Prop :=
  forall rune rest : string,
    whiteSpaceRune rune = true -> s <> (rune ++ rest)%string /\ s <> (rest ++ rune)%string.

(** [child] is [piece] without the white space at its two ends. *)
Definition trimmedFrom (piece child : string) : Prop :=
  exists l r : string,
    piece = (l ++ child ++ r)%string /\ whiteSpace l /\ whiteSpace r /\ trimmed child.

(** *** More vocabulary: operators and chains *)

(** The custom resources an operator record of the registry lists. *)
Definition operatorData (operator : gomap (gomap json)) : gomap json :=
  match mapLookup "Operator" operator with
  | Some m => m
  | None => []
  end.

Definition listsResources (operator : gomap (gomap json)) (names : list string) : Prop :=
  mapLookup "CustomResources" (operatorData operator) = Some (JArray (map JString names)).

(** The nested tree of a flat tree that is a chain: one member in every
    slice. *)
Fixpoint nestChain (compositionTree : list TreeNode.t) : list Composition.t :=
  match compositionTree with
  | [] => []
  | node :: rest =>
      match TreeNode.Children node with
      | [member] =>
          [Composition.mk (TreeNode.Level node) (TreeNode.ChildKind node)
             (MetaData.MetaDataName member) (MetaData.Status member) (nestChain rest)]
      | _ => []
      end
  end.

(** A flat tree is a chain: every slice has one member, and no two slices
    share a level or a kind. *)
Definition isChain (compositionTree : list TreeNode.t) : Prop :=
  Forall (fun node => exists member, TreeNode.Children node = [member]) compositionTree
  /\ NoDup (map TreeNode.Level compositionTree)
  /\ NoDup (map TreeNode.ChildKind compositionTree).

(** * Properties *)

(** ** The provenance store *)

Section Store.

Variables (topLevelObject : MetaData.t) (resourceKind resourceName : string).
Variable compositionTree : list TreeNode.t.

Lemma storeLoop_map (l : list Provenance.t) (present : bool) :
  storeLoop (storedRecord topLevelObject resourceKind resourceName compositionTree)
    l present
  = (map (overwrite topLevelObject resourceKind resourceName compositionTree) l,
     present || existsb (sameIdentity resourceKind resourceName) l).
Proof.
  revert present.
  induction l as [|prov rest IH]; intros present; simpl.
  - now rewrite orb_false_r.
  - unfold overwrite at 1, sameIdentity at 1 2. simpl.
    destruct (String.eqb (Provenance.Kind prov) resourceKind
              && String.eqb (Provenance.Name prov) resourceName);
      rewrite IH; simpl.
    + now rewrite orb_true_r.
    + reflexivity.
Qed.

Lemma overwrite_absent (l : list Provenance.t) :
  existsb (sameIdentity resourceKind resourceName) l = false ->
  map (overwrite topLevelObject resourceKind resourceName compositionTree) l = l.
Proof.
  induction l as [|prov rest IH]; simpl; intros E; [reflexivity|].
  apply orb_false_iff in E. destruct E as [E1 E2].
  unfold overwrite at 1. rewrite E1. now rewrite IH.
Qed.

Lemma storeRecords_cases (records : list Provenance.t) :
  storeRecords topLevelObject resourceKind resourceName compositionTree records
  = if existsb (sameIdentity resourceKind resourceName) records
    then map (overwrite topLevelObject resourceKind resourceName compositionTree) records
    else records
         ++ [storedRecord topLevelObject resourceKind resourceName compositionTree].
Proof.
  unfold storeRecords.
  change (Provenance.mk resourceKind resourceName (MetaData.Status topLevelObject)
            compositionTree)
    with (storedRecord topLevelObject resourceKind resourceName compositionTree).
  rewrite storeLoop_map. simpl.
  destruct (existsb (sameIdentity resourceKind resourceName) records) eqn:E; simpl.
  - reflexivity.
  - now rewrite overwrite_absent.
Qed.

Lemma sameIdentity_overwrite (prov : Provenance.t) :
  sameIdentity resourceKind resourceName
    (overwrite topLevelObject resourceKind resourceName compositionTree prov)
  = sameIdentity resourceKind resourceName prov.
Proof.
  unfold overwrite.
  destruct (sameIdentity resourceKind resourceName prov) eqn:E; exact E.
Qed.

Lemma overwrite_idempotent (prov : Provenance.t) :
  overwrite topLevelObject resourceKind resourceName compositionTree
    (overwrite topLevelObject resourceKind resourceName compositionTree prov)
  = overwrite topLevelObject resourceKind resourceName compositionTree prov.
Proof.
  unfold overwrite at 1. rewrite sameIdentity_overwrite.
  unfold overwrite.
  destruct (sameIdentity resourceKind resourceName prov); reflexivity.
Qed.

Lemma sameIdentity_stored :
  sameIdentity resourceKind resourceName
    (storedRecord topLevelObject resourceKind resourceName compositionTree) = true.
Proof. unfold sameIdentity, storedRecord. simpl. now rewrite !String.eqb_refl. Qed.

Lemma overwrite_stored :
  overwrite topLevelObject resourceKind resourceName compositionTree
    (storedRecord topLevelObject resourceKind resourceName compositionTree)
  = storedRecord topLevelObject resourceKind resourceName compositionTree.
Proof. unfold overwrite. now rewrite sameIdentity_stored. Qed.

Lemma existsb_map_overwrite (l : list Provenance.t) :
  existsb (sameIdentity resourceKind resourceName)
    (map (overwrite topLevelObject resourceKind resourceName compositionTree) l)
  = existsb (sameIdentity resourceKind resourceName) l.
Proof.
  induction l as [|prov rest IH]; simpl; [reflexivity|].
  now rewrite sameIdentity_overwrite, IH.
Qed.

Lemma storeRecords_idempotent (records : list Provenance.t) :
  storeRecords topLevelObject resourceKind resourceName compositionTree
    (storeRecords topLevelObject resourceKind resourceName compositionTree records)
  = storeRecords topLevelObject resourceKind resourceName compositionTree records.
Proof.
  rewrite (storeRecords_cases records).
  destruct (existsb (sameIdentity resourceKind resourceName) records) eqn:E.
  - rewrite storeRecords_cases, existsb_map_overwrite, E.
    rewrite map_map. apply map_ext. intros; apply overwrite_idempotent.
  - rewrite storeRecords_cases, existsb_app. simpl.
    rewrite sameIdentity_stored, orb_true_r.
    rewrite map_app. simpl. now rewrite overwrite_stored, overwrite_absent.
Qed.

(** C5.  Storing the same top-level object, kind, name and tree a second
    time leaves the store (the collection and the released mutex) exactly
    as the first call left it. *)
Theorem storeProvenance_idempotent (cp : ClusterProvenance) :
  mux cp = false ->
  exists cp1,
    storeProvenance topLevelObject resourceKind resourceName compositionTree cp = Done cp1
    /\ storeProvenance topLevelObject resourceKind resourceName compositionTree cp1
       = Done cp1.
Proof.
  intros Hfree. unfold storeProvenance, Lock. rewrite Hfree. simpl.
  eexists. split; [reflexivity|].
  unfold Unlock. simpl. now rewrite storeRecords_idempotent.
Qed.

(** C6.  On a free mutex [storeProvenance] returns with the mutex
    released, and the collection is either the old one with the status and
    tree overwritten at every index that holds the stored identity, all
    other indices untouched and the length unchanged (when the identity
    was present), or the old one with the new record appended at the end
    (when it was not). *)
Theorem storeProvenance_frame (cp : ClusterProvenance) :
  mux cp = false ->
  exists cp1,
    storeProvenance topLevelObject resourceKind resourceName compositionTree cp = Done cp1
    /\ mux cp1 = false
    /\ (if existsb (sameIdentity resourceKind resourceName) (clusterProvenance cp)
        then List.length (clusterProvenance cp1) = List.length (clusterProvenance cp)
             /\ forall i prov,
                  nth_error (clusterProvenance cp) i = Some prov ->
                  nth_error (clusterProvenance cp1) i
                  = Some (if sameIdentity resourceKind resourceName prov
                          then Provenance.mk (Provenance.Kind prov) (Provenance.Name prov)
                                 (MetaData.Status topLevelObject) compositionTree
                          else prov)
        else clusterProvenance cp1
             = clusterProvenance cp
               ++ [Provenance.mk resourceKind resourceName
                     (MetaData.Status topLevelObject) compositionTree]).
Proof.
  intros Hfree. unfold storeProvenance, Lock. rewrite Hfree. simpl.
  eexists. split; [reflexivity|]. split; [reflexivity|].
  simpl. rewrite storeRecords_cases.
  destruct (existsb (sameIdentity resourceKind resourceName) (clusterProvenance cp)).
  - split; [apply length_map|].
    intros i prov Hi. rewrite nth_error_map, Hi. reflexivity.
  - reflexivity.
Qed.

End Store.

Lemma storeProvenance_idempotent_witness :
  mux sampleStore = false
  /\ exists cp1,
       storeProvenance (MetaData.mk "web" "" "" "" "Ready") "Deployment" "web"
         sampleTree sampleStore = Done cp1
       /\ storeProvenance (MetaData.mk "web" "" "" "" "Ready") "Deployment" "web"
            sampleTree cp1 = Done cp1.
Proof.
  split; [reflexivity|].
  apply (storeProvenance_idempotent (MetaData.mk "web" "" "" "" "Ready") "Deployment"
           "web" sampleTree sampleStore).
  reflexivity.
Defined.

Lemma storeProvenance_frame_witness :
  exists cp1,
    storeProvenance (MetaData.mk "web" "" "" "" "Ready") "Deployment" "web"
      sampleTree sampleStore = Done cp1
    /\ mux cp1 = false
    /\ List.length (clusterProvenance cp1) = 3%nat
    /\ nth_error (clusterProvenance cp1) 0
       = Some (Provenance.mk "Deployment" "web" "Ready" sampleTree)
    /\ nth_error (clusterProvenance cp1) 1 = Some (Provenance.mk "Pod" "web" "Running" []).
Proof.
  destruct (storeProvenance_frame (MetaData.mk "web" "" "" "" "Ready") "Deployment"
              "web" sampleTree sampleStore eq_refl) as (cp1 & Hrun & Hmux & Hrecords).
  exists cp1. split; [exact Hrun|]. split; [exact Hmux|].
  simpl in Hrecords. destruct Hrecords as [Hlen Hnth].
  split; [exact Hlen|].
  split; [exact (Hnth 0%nat _ eq_refl) | exact (Hnth 1%nat _ eq_refl)].
Defined.

(** ** The store: purge *)

Lemma purge_inner (prov : Provenance.t) (seen : list MetaData.t)
    (presentList : list Provenance.t) :
  fold_left
    (fun presentList topLevelObject =>
       if String.eqb (MetaData.MetaDataName topLevelObject) (Provenance.Name prov)
       then presentList ++ [prov] else presentList)
    seen presentList
  = presentList
    ++ flat_map (fun topLevelObject =>
                   if String.eqb (MetaData.MetaDataName topLevelObject)
                        (Provenance.Name prov)
                   then [prov] else [])
         seen.
Proof.
  revert presentList.
  induction seen as [|t seen IH]; intros presentList; simpl.
  - now rewrite app_nil_r.
  - rewrite IH.
    destruct (String.eqb (MetaData.MetaDataName t) (Provenance.Name prov)); simpl.
    + now rewrite <- app_assoc.
    + reflexivity.
Qed.

Lemma purgeRecords_flat_map (seen : list MetaData.t) (records : list Provenance.t) :
  purgeRecords seen records
  = flat_map
      (fun prov =>
         flat_map (fun topLevelObject =>
                     if String.eqb (MetaData.MetaDataName topLevelObject)
                          (Provenance.Name prov)
                     then [prov] else [])
           seen)
      records.
Proof.
  unfold purgeRecords.
  enough (H : forall acc,
             fold_left
               (fun presentList prov =>
                  fold_left
                    (fun presentList topLevelObject =>
                       if String.eqb (MetaData.MetaDataName topLevelObject)
                            (Provenance.Name prov)
                       then presentList ++ [prov] else presentList)
                    seen presentList)
               records acc
             = acc
               ++ flat_map
                    (fun prov =>
                       flat_map (fun topLevelObject =>
                                   if String.eqb (MetaData.MetaDataName topLevelObject)
                                        (Provenance.Name prov)
                                   then [prov] else [])
                         seen)
                    records)
    by apply (H []).
  induction records as [|prov records IH]; intros acc; simpl.
  - now rewrite app_nil_r.
  - rewrite IH, purge_inner. now rewrite <- app_assoc.
Qed.

Lemma occurrences_in (prov r : Provenance.t) (seen : list MetaData.t) :
  In r (flat_map (fun topLevelObject =>
                    if String.eqb (MetaData.MetaDataName topLevelObject)
                         (Provenance.Name prov)
                    then [prov] else [])
          seen)
  <-> r = prov /\ In (Provenance.Name prov) (map MetaData.MetaDataName seen).
Proof.
  rewrite in_flat_map. split.
  - intros (t & Ht & Hr).
    destruct (String.eqb_spec (MetaData.MetaDataName t) (Provenance.Name prov))
      as [E|E]; simpl in Hr; [|contradiction].
    destruct Hr as [Hr|[]]. split; [now symmetry|].
    rewrite <- E. now apply in_map.
  - intros (-> & Hin). apply in_map_iff in Hin. destruct Hin as (t & E & Ht).
    exists t. split; [exact Ht|]. rewrite E, String.eqb_refl. now left.
Qed.

Lemma occurrences_once (prov : Provenance.t) (seen : list MetaData.t) :
  NoDup (map MetaData.MetaDataName seen) ->
  flat_map (fun topLevelObject =>
              if String.eqb (MetaData.MetaDataName topLevelObject) (Provenance.Name prov)
              then [prov] else [])
    seen
  = if existsb (String.eqb (Provenance.Name prov)) (map MetaData.MetaDataName seen)
    then [prov] else [].
Proof.
  induction seen as [|t seen IH]; simpl; intros Hnd; [reflexivity|].
  inversion Hnd as [|? ? Hnotin Hnd']; subst.
  rewrite (String.eqb_sym (Provenance.Name prov)).
  destruct (String.eqb_spec (MetaData.MetaDataName t) (Provenance.Name prov)) as [E|E];
    simpl.
  - rewrite IH by assumption.
    destruct (existsb (String.eqb (Provenance.Name prov))
                (map MetaData.MetaDataName seen)) eqn:Ex; [|reflexivity].
    exfalso. apply existsb_exists in Ex. destruct Ex as (n & Hn & En).
    apply String.eqb_eq in En. subst n. now rewrite <- E in Hn.
  - now apply IH.
Qed.

(** The list of resources the refresh loop hands to the purge never holds a
    name twice. *)
Lemma collectSeen_NoDup (topLevelMetaDataOwnerRefList : list MetaData.t) :
  forall resourceInCluster,
    NoDup (map MetaData.MetaDataName resourceInCluster) ->
    NoDup (map MetaData.MetaDataName
             (collectSeen resourceInCluster topLevelMetaDataOwnerRefList)).
Proof.
  unfold collectSeen.
  induction topLevelMetaDataOwnerRefList as [|resource rest IH];
    intros resourceInCluster Hnd; cbn [fold_left]; [exact Hnd|].
  apply IH.
  destruct (existsb _ resourceInCluster) eqn:Epresent; cbn [negb]; [exact Hnd|].
  rewrite map_app. cbn [map]. apply NoDup_app; [exact Hnd|apply NoDup_cons;
    [intros []|apply NoDup_nil]|].
  intros name Hin [<-|[]].
  apply in_map_iff in Hin. destruct Hin as (res & Hname & Hres).
  assert (Hfound : existsb
                     (fun res0 => String.eqb (MetaData.MetaDataName res0)
                                    (MetaData.MetaDataName resource))
                     resourceInCluster = true).
  { apply existsb_exists. exists res. split; [exact Hres|]. now apply String.eqb_eq. }
  congruence.
Qed.

(** C4.  [purgeCompositionOfDeletedItems] returns, and a record is in the
    collection afterwards exactly when it was there before and its name is
    the name of one of the objects passed in; the kind plays no part.  When
    the names passed in are pairwise distinct (the refresh loop passes such
    a list) the new collection is the old one filtered by that test, in the
    old order. *)
Theorem purge_keeps_exactly_seen_names (seen : list MetaData.t) (cp : ClusterProvenance) :
  exists cp1,
    purgeCompositionOfDeletedItems seen cp = Done cp1
    /\ (forall r,
          In r (clusterProvenance cp1)
          <-> In r (clusterProvenance cp)
              /\ In (Provenance.Name r) (map MetaData.MetaDataName seen))
    /\ (NoDup (map MetaData.MetaDataName seen) ->
        clusterProvenance cp1
        = filter (fun r => existsb (String.eqb (Provenance.Name r))
                             (map MetaData.MetaDataName seen))
            (clusterProvenance cp)).
Proof.
  eexists. split; [reflexivity|]. simpl. rewrite purgeRecords_flat_map. split.
  - intros r. rewrite in_flat_map. split.
    + intros (prov & Hprov & Hr). apply occurrences_in in Hr.
      destruct Hr as [-> Hname]. now split.
    + intros [Hr Hname]. exists r. split; [exact Hr|].
      apply occurrences_in. now split.
  - intros Hnd. induction (clusterProvenance cp) as [|prov records IH]; simpl.
    + reflexivity.
    + rewrite IH, occurrences_once by assumption.
      now destruct (existsb (String.eqb (Provenance.Name prov))
                      (map MetaData.MetaDataName seen)).
Qed.

(** C9.  With the mutex held by another goroutine every other operation
    on the collection blocks, but [purgeCompositionOfDeletedItems] goes
    ahead and replaces the collection. *)
Theorem purge_takes_no_lock {T : Toolchain} (g : Globals) (seen : list MetaData.t)
    (records : list Provenance.t) (topLevelObject : MetaData.t)
    (kind name : string) (tree : list TreeNode.t) :
  storeProvenance topLevelObject kind name tree (mkCP true records) = Blocked
  /\ GetProvenance g kind name (mkCP true records) = Blocked
  /\ PrintProvenance (mkCP true records) = Blocked
  /\ checkIfProvenanceNeeded kind name (mkCP true records) = Blocked
  /\ purgeCompositionOfDeletedItems seen (mkCP true records)
     = Done (mkCP true (purgeRecords seen records)).
Proof. repeat split. Qed.

(** ** Parsing a listing *)

Lemma forRange_app {A S : Type} (l1 l2 : list A) (body : S -> A -> Outcome S) (s : S) :
  forRange (l1 ++ l2) body s = (s' <- forRange l1 body s ;; forRange l2 body s').
Proof.
  revert s. induction l1 as [|x l1 IH]; intros s; simpl; [reflexivity|].
  destruct (body s x); simpl; auto.
Qed.

(** A loop whose body commutes with a change [h] of its variables commutes
    with it as a whole. *)
Lemma forRange_commute {A S : Type} (h : S -> S) (body : S -> A -> Outcome S)
    (l : list A) :
  (forall s x, body (h s) x = (s' <- body s x ;; Done (h s'))) ->
  forall s, forRange l body (h s) = (s' <- forRange l body s ;; Done (h s')).
Proof.
  intros Hbody. induction l as [|x l IH]; intros s; simpl; [reflexivity|].
  rewrite Hbody. destruct (body s x); simpl; auto.
Qed.

Lemma mapLookup_absent {V : Type} (k : string) (m : gomap V) :
  ~ In k (keys m) -> mapLookup k m = None.
Proof.
  induction m as [|[k' v] m IH]; simpl; intros Hnotin; [reflexivity|].
  destruct (String.eqb_spec k' k) as [E|E].
  - exfalso. apply Hnotin. now left.
  - apply IH. intros Hin. apply Hnotin. now right.
Qed.

Lemma mapLookup_present {V : Type} (k : string) (v : V) (m : gomap V) :
  mapLookup k m = Some v -> In k (keys m).
Proof.
  induction m as [|[k' v'] m IH]; simpl; [discriminate|].
  destruct (String.eqb_spec k' k) as [E|E]; intros H.
  - now left.
  - right. now apply IH.
Qed.

(** Reading the metadata never touches the status of the snapshot. *)
Lemma parseOwnerReference_setStatus (s : string) (ref : MetaData.t) (ownerReference : json) :
  parseOwnerReference (setStatus ref s) ownerReference
  = (ref' <- parseOwnerReference ref ownerReference ;; Done (setStatus ref' s)).
Proof.
  unfold parseOwnerReference.
  destruct ownerReference as [| | | | |m]; simpl; try reflexivity.
  apply (forRange_commute (fun r => setStatus r s)). clear ref. intros ref [okey ovalue].
  destruct (String.eqb okey "name"), (String.eqb okey "kind"),
    (String.eqb okey "apiVersion"), ovalue; reflexivity.
Qed.

Lemma parseMetadataMap_setStatus (s : string) (ref : MetaData.t) (value : json) :
  parseMetadataMap (setStatus ref s) value
  = (ref' <- parseMetadataMap ref value ;; Done (setStatus ref' s)).
Proof.
  unfold parseMetadataMap.
  destruct value as [| | | | |m]; simpl; try reflexivity.
  apply (forRange_commute (fun r => setStatus r s)). clear ref. intros ref [mkey mvalue].
  destruct (String.eqb mkey "ownerReferences").
  - destruct mvalue as [| | | |l|]; simpl;
      try (destruct (String.eqb mkey "name"); reflexivity).
    rewrite (forRange_commute (fun r => setStatus r s) parseOwnerReference l
               (parseOwnerReference_setStatus s)).
    destruct (forRange l parseOwnerReference ref) as [ref'| | |]; simpl;
      try reflexivity.
    destruct (String.eqb mkey "name"); reflexivity.
  - simpl. destruct (String.eqb mkey "name"), mvalue; reflexivity.
Qed.

Lemma setStatus_same (ref : MetaData.t) : setStatus ref (MetaData.Status ref) = ref.
Proof. now destruct ref. Qed.

Lemma parseMetadataMap_zero_status (value : json) (m : MetaData.t) :
  parseMetadataMap MetaData.zero value = Done m -> MetaData.Status m = EmptyString.
Proof.
  intros H.
  pose proof (parseMetadataMap_setStatus EmptyString MetaData.zero value) as C.
  change (setStatus MetaData.zero EmptyString) with MetaData.zero in C.
  rewrite H in C. simpl in C. injection C as C. rewrite C. reflexivity.
Qed.

Lemma parseStatusKeys_fields (statusMap : gomap json) :
  forall (ref : MetaData.t) (r rr a : float) (phase : option string)
         (replicas readyReplicas availableReplicas : option float),
    statusFields phase replicas readyReplicas availableReplicas statusMap ->
    forRange statusMap parseStatusKey (ref, r, rr, a)
    = Done (match phase with Some p => setStatus ref p | None => ref end,
            match replicas with Some x => x | None => r end,
            match readyReplicas with Some x => x | None => rr end,
            match availableReplicas with Some x => x | None => a end).
Proof.
  induction statusMap as [|[k v] l IH];
    intros ref r rr a phase rep rdy avl (Hnd & Hp & Hr & Hrr & Ha).
  - simpl in *. destruct phase, rep, rdy, avl; try discriminate; reflexivity.
  - inversion Hnd as [|? ? Hnotin Hnd']; subst.
    cbn [mapLookup] in Hp, Hr, Hrr, Ha. cbn [forRange parseStatusKey].
    destruct (String.eqb_spec k "phase") as [->|Np].
    + cbn in Hr, Hrr, Ha |- *.
      destruct phase as [p|]; [|discriminate]. injection Hp as ->. cbn.
      rewrite (IH (setStatus ref p) r rr a None rep rdy avl); [reflexivity|].
      repeat split; try assumption. now apply mapLookup_absent.
    + destruct (String.eqb_spec k "replicas") as [->|Nr].
      * cbn in Hrr, Ha |- *.
        destruct rep as [x|]; [|discriminate]. injection Hr as ->. cbn.
        rewrite (IH ref x rr a phase None rdy avl); [reflexivity|].
        repeat split; try assumption. now apply mapLookup_absent.
      * destruct (String.eqb_spec k "readyReplicas") as [->|Nrr].
        -- cbn in Ha |- *.
           destruct rdy as [x|]; [|discriminate]. injection Hrr as ->. cbn.
           rewrite (IH ref r x a phase rep None avl); [reflexivity|].
           repeat split; try assumption. now apply mapLookup_absent.
        -- destruct (String.eqb_spec k "availableReplicas") as [->|Na].
           ++ destruct avl as [x|]; [|discriminate]. injection Ha as ->. cbn.
              rewrite (IH ref r rr x phase rep rdy None); [reflexivity|].
              repeat split; try assumption. now apply mapLookup_absent.
           ++ cbn. apply IH. repeat split; assumption.
Qed.

(** A positive count is not zero, so a count that is absent (and reads as
    zero) never passes the test on the replica counts. *)
Lemma positive_not_zero (x : float) :
  PrimFloat.ltb 0%float x = true -> PrimFloat.eqb x 0%float = false.
Proof.
  rewrite FloatAxioms.ltb_spec, FloatAxioms.eqb_spec.
  change (Prim2SF 0%float) with (S754_zero false).
  destruct (Prim2SF x) as [[]|[]| |[] m e]; cbn; try discriminate; reflexivity.
Qed.

Lemma replicasReady_present (replicas readyReplicas availableReplicas : option float) :
  replicasReady (floatOrZero replicas) (floatOrZero readyReplicas)
    (floatOrZero availableReplicas)
  = replicasAllReady replicas readyReplicas availableReplicas.
Proof.
  unfold replicasReady, replicasAllReady.
  destruct replicas as [r|]; [|reflexivity]. cbn [floatOrZero].
  destruct (PrimFloat.ltb 0%float r) eqn:Hpos;
    [|now destruct readyReplicas, availableReplicas].
  destruct readyReplicas as [rr|], availableReplicas as [a|]; cbn [floatOrZero andb];
    try reflexivity; rewrite (positive_not_zero r Hpos);
    try reflexivity; apply andb_false_r.
Qed.

(** The status object of an item: whatever the order of its keys, the
    snapshot gets the derived status. *)
Lemma parseStatusMap_derived (statusMap : gomap json) (ref : MetaData.t)
    (phase : option string) (replicas readyReplicas availableReplicas : option float) :
  statusFields phase replicas readyReplicas availableReplicas statusMap ->
  parseStatusMap ref (JObject statusMap)
  = Done (setStatus ref
            (derivedStatus (MetaData.Status ref) phase replicas readyReplicas
               availableReplicas)).
Proof.
  intros Hf. unfold parseStatusMap. cbn [asMap bind].
  rewrite (parseStatusKeys_fields statusMap ref _ _ _ _ _ _ _ Hf). cbn [bind].
  unfold derivedStatus, floatOrZero.
  destruct (replicasReady _ _ _).
  - destruct phase; reflexivity.
  - destruct phase; [reflexivity|]. now rewrite setStatus_same.
Qed.

Lemma statusKeyExists_present (v : json) (l : gomap json) :
  mapLookup "status" l = Some v ->
  existsb (fun kv => String.eqb (fst kv) "status") l = true.
Proof.
  induction l as [|[k v'] l IH]; simpl; [discriminate|].
  destruct (String.eqb k "status"); [reflexivity|exact IH].
Qed.

Section Item.

Variables (metadata : json) (m : MetaData.t) (statusMap : gomap json).
Variables (phase : option string) (replicas readyReplicas availableReplicas : option float).

Hypothesis metadata_parses : parseMetadataMap MetaData.zero metadata = Done m.
Hypothesis status_fields :
  statusFields phase replicas readyReplicas availableReplicas statusMap.

(** The loop over the keys of an item that has both a [metadata] and a
    [status] key, started anywhere in the iteration: it ends with both
    processed and has appended the finished snapshot [appendCount] times. *)
Lemma parseItemKeys_suffix (l : gomap json) :
  forall (mp sp : bool) (slice : list MetaData.t),
    NoDup (keys l) ->
    (if mp then ~ In "metadata" (keys l) else mapLookup "metadata" l = Some metadata) ->
    (if sp then ~ In "status" (keys l)
     else mapLookup "status" l = Some (JObject statusMap)) ->
    forRange l (parseItemKey true)
      (mkItemState
         (snapshotSoFar m
            (derivedStatus EmptyString phase replicas readyReplicas availableReplicas)
            mp sp)
         mp sp slice)
    = Done (mkItemState
              (snapshotSoFar m
                 (derivedStatus EmptyString phase replicas readyReplicas
                    availableReplicas)
                 true true)
              true true
              (slice
               ++ repeat
                    (snapshotSoFar m
                       (derivedStatus EmptyString phase replicas readyReplicas
                          availableReplicas)
                       true true)
                    (appendCount l mp sp))).
Proof.
  induction l as [|[k v] l IH]; intros mp sp slice Hnd Hm Hs.
  - destruct mp; [|discriminate]. destruct sp; [|discriminate].
    simpl. now rewrite app_nil_r.
  - inversion Hnd as [|? ? Hnotin Hnd']; subst.
    cbn [forRange parseItemKey metaDataRef metadataProcessed statusProcessed
           metaDataSlice appendCount].
    cbn [mapLookup keys map fst] in Hm, Hs.
    destruct (String.eqb_spec k "metadata") as [->|Nm].
    + destruct mp; [exfalso; apply Hm; now left|].
      injection Hm as ->.
      unfold snapshotSoFar at 1. rewrite parseMetadataMap_setStatus, metadata_parses.
      cbn -[derivedStatus] in Hs |- *.
      destruct sp.
      * rewrite (IH true true); try assumption; cbn -[derivedStatus].
        -- now rewrite <- app_assoc.
        -- intros Hin. apply Hs. now right.
      * rewrite (IH true false); try assumption. reflexivity.
    + destruct (String.eqb_spec k "status") as [->|Ns].
      * destruct sp; [exfalso; apply Hs; now left|].
        injection Hs as ->. cbn [bind].
        rewrite (parseStatusMap_derived statusMap _ _ _ _ _ status_fields).
        cbn -[derivedStatus] in Hm |- *.
        destruct mp.
        -- rewrite (IH true true); try assumption; cbn -[derivedStatus].
           ++ now rewrite <- app_assoc.
           ++ intros Hin. apply Hm. now right.
        -- rewrite (IH false true); try assumption. reflexivity.
      * cbn [bind orb]. rewrite !orb_false_r.
        assert (Hm' : if mp then ~ In "metadata" (keys l)
                      else mapLookup "metadata" l = Some metadata).
        { destruct mp; [|exact Hm]. intros Hin. apply Hm. now right. }
        assert (Hs' : if sp then ~ In "status" (keys l)
                      else mapLookup "status" l = Some (JObject statusMap)).
        { destruct sp; [|exact Hs]. intros Hin. apply Hs. now right. }
        destruct mp, sp; cbn -[derivedStatus];
          rewrite IH by assumption; try reflexivity.
        now rewrite <- app_assoc.
Qed.

(** The [append] is reached at least once. *)
Lemma appendCount_positive (l : gomap json) :
  forall mp sp : bool,
    (mp = false -> In "metadata" (keys l)) ->
    (sp = false -> In "status" (keys l)) ->
    mp && sp = false ->
    (0 < appendCount l mp sp)%nat.
Proof.
  induction l as [|[k v] l IH]; intros mp sp Hm Hs Hflags.
  - exfalso.
    destruct mp; [destruct sp; [discriminate|exact (Hs eq_refl)]|exact (Hm eq_refl)].
  - cbn [appendCount].
    destruct (mp || String.eqb k "metadata") eqn:Em, (sp || String.eqb k "status") eqn:Es;
      cbn [andb]; try lia; cbn [Nat.add]; apply IH; try reflexivity;
      intros E; try discriminate.
    + destruct sp; [discriminate|]. cbn in Es.
      destruct (Hs eq_refl) as [F|Hin]; [|exact Hin].
      cbn in F. subst k. discriminate.
    + destruct mp; [discriminate|]. cbn in Em.
      destruct (Hm eq_refl) as [F|Hin]; [|exact Hin].
      cbn in F. subst k. discriminate.
    + destruct mp; [discriminate|]. cbn in Em.
      destruct (Hm eq_refl) as [F|Hin]; [|exact Hin].
      cbn in F. subst k. discriminate.
    + destruct sp; [discriminate|]. cbn in Es.
      destruct (Hs eq_refl) as [F|Hin]; [|exact Hin].
      cbn in F. subst k. discriminate.
Qed.

Lemma parseItem_snapshots (itemConverted : gomap json) (slice : list MetaData.t) :
  NoDup (keys itemConverted) ->
  mapLookup "metadata" itemConverted = Some metadata ->
  mapLookup "status" itemConverted = Some (JObject statusMap) ->
  parseItem slice (JObject itemConverted)
  = Done (slice
          ++ repeat
               (setStatus m
                  (derivedStatus EmptyString phase replicas readyReplicas
                     availableReplicas))
               (appendCount itemConverted false false)).
Proof.
  intros Hnd Hm Hs. unfold parseItem. cbn [asMap bind].
  rewrite (statusKeyExists_present _ _ Hs).
  change (mkItemState MetaData.zero false false slice)
    with (mkItemState
            (snapshotSoFar m
               (derivedStatus EmptyString phase replicas readyReplicas availableReplicas)
               false false)
            false false slice).
  rewrite (parseItemKeys_suffix itemConverted false false slice Hnd Hm Hs).
  reflexivity.
Qed.

(** An item without a [status] key: once the [metadata] key has been
    visited every key appends the snapshot. *)
Lemma parseItemKeys_after_metadata (l : gomap json) :
  forall slice : list MetaData.t,
    ~ In "metadata" (keys l) -> ~ In "status" (keys l) ->
    forRange l (parseItemKey false) (mkItemState m true false slice)
    = Done (mkItemState m true false (slice ++ repeat m (List.length l))).
Proof.
  induction l as [|[k v] l IH]; intros slice Hm Hs.
  - cbn. now rewrite app_nil_r.
  - cbn [forRange parseItemKey metaDataRef metadataProcessed statusProcessed
           metaDataSlice].
    cbn [keys map fst] in Hm, Hs.
    destruct (String.eqb_spec k "metadata") as [->|_]; [exfalso; apply Hm; now left|].
    destruct (String.eqb_spec k "status") as [->|_]; [exfalso; apply Hs; now left|].
    cbn [bind]. rewrite IH.
    + cbn [List.length repeat]. now rewrite <- app_assoc.
    + intros Hin. apply Hm. now right.
    + intros Hin. apply Hs. now right.
Qed.

Lemma parseItemKeys_without_status (l : gomap json) :
  forall slice : list MetaData.t,
    NoDup (keys l) ->
    mapLookup "metadata" l = Some metadata ->
    ~ In "status" (keys l) ->
    exists n,
      forRange l (parseItemKey false) (mkItemState MetaData.zero false false slice)
      = Done (mkItemState m true false (slice ++ repeat m (S n))).
Proof.
  induction l as [|[k v] l IH]; intros slice Hnd Hm Hs; [discriminate|].
  inversion Hnd as [|? ? Hnotin Hnd']; subst.
  cbn [forRange parseItemKey metaDataRef metadataProcessed statusProcessed metaDataSlice].
  cbn [mapLookup] in Hm. cbn [keys map fst] in Hs.
  destruct (String.eqb_spec k "status") as [->|_]; [exfalso; apply Hs; now left|].
  destruct (String.eqb_spec k "metadata") as [->|_].
  - injection Hm as ->. rewrite metadata_parses. cbn [bind].
    exists (List.length l). rewrite parseItemKeys_after_metadata.
    + cbn [repeat]. now rewrite <- app_assoc.
    + exact Hnotin.
    + intros Hin. apply Hs. now right.
  - cbn [bind]. apply IH; [exact Hnd'|exact Hm|].
    intros Hin. apply Hs. now right.
Qed.

Lemma parseItem_without_status (itemConverted : gomap json) (slice : list MetaData.t) :
  NoDup (keys itemConverted) ->
  mapLookup "metadata" itemConverted = Some metadata ->
  ~ In "status" (keys itemConverted) ->
  exists n, parseItem slice (JObject itemConverted) = Done (slice ++ repeat m (S n)).
Proof.
  intros Hnd Hm Hs. unfold parseItem. cbn [asMap bind].
  assert (Habsent : existsb (fun kv => String.eqb (fst kv) "status") itemConverted
                    = false).
  { clear Hnd Hm. induction itemConverted as [|[k v] l IH]; [reflexivity|].
    cbn [existsb fst]. cbn [keys map fst] in Hs.
    destruct (String.eqb_spec k "status") as [->|_]; [exfalso; apply Hs; now left|].
    apply IH. intros Hin. apply Hs. now right. }
  rewrite Habsent.
  destruct (parseItemKeys_without_status itemConverted slice Hnd Hm Hs) as (n & ->).
  now exists n.
Qed.

Lemma appendCount_complete (l : gomap json) :
  appendCount l true true = List.length l.
Proof. induction l as [|[k v] l IH]; cbn; [reflexivity|now rewrite IH]. Qed.

(** Up to the key that completes an item nothing is appended; from that key
    on, every iteration appends. *)
Lemma appendCount_completing (k : string) (v : json) (post : gomap json)
    (pre : gomap json) :
  forall mp sp : bool,
    (mp || seenKey "metadata" pre) && (sp || seenKey "status" pre) = false ->
    (mp || seenKey "metadata" (pre ++ [(k, v)]))
    && (sp || seenKey "status" (pre ++ [(k, v)])) = true ->
    appendCount (pre ++ (k, v) :: post) mp sp = S (List.length post).
Proof.
  induction pre as [|[k' v'] pre IH]; intros mp sp Hbefore Hafter.
  - cbn in Hafter |- *. rewrite !orb_false_r in Hafter. rewrite Hafter.
    apply andb_prop in Hafter. destruct Hafter as [-> ->].
    now rewrite appendCount_complete.
  - cbn [app appendCount]. cbn [seenKey existsb fst app] in Hbefore, Hafter.
    fold (seenKey "metadata" pre) in Hbefore.
    fold (seenKey "status" pre) in Hbefore.
    fold (seenKey "metadata" (pre ++ [(k, v)])) in Hafter.
    fold (seenKey "status" (pre ++ [(k, v)])) in Hafter.
    rewrite !orb_assoc in Hbefore, Hafter.
    rewrite (IH _ _ Hbefore Hafter).
    destruct (mp || String.eqb k' "metadata"), (sp || String.eqb k' "status");
      cbn in Hbefore |- *; try reflexivity; discriminate.
Qed.

Lemma seenKey_present (key : string) (v : json) (l : gomap json) :
  mapLookup key l = Some v -> seenKey key l = true.
Proof.
  induction l as [|[k v'] l IH]; cbn; [discriminate|].
  destruct (String.eqb k key); [reflexivity|exact IH].
Qed.

Lemma seenKey_absent (key : string) (l : gomap json) :
  ~ In key (keys l) -> seenKey key l = false.
Proof.
  induction l as [|[k v'] l IH]; cbn; intros Hnotin; [reflexivity|].
  destruct (String.eqb_spec k key) as [E|E].
  - exfalso. apply Hnotin. now left.
  - apply IH. intros Hin. apply Hnotin. now right.
Qed.

Lemma mapLookup_app_left {V : Type} (key : string) (v : V) (l1 l2 : gomap V) :
  mapLookup key l1 = Some v -> mapLookup key (l1 ++ l2) = Some v.
Proof.
  induction l1 as [|[k v'] l1 IH]; cbn; [discriminate|].
  destruct (String.eqb k key); [trivial|exact IH].
Qed.

(** C10.  An item whose keys are visited in the order [pre], then the key
    [k] that completes it (the later of [metadata] and [status]), then
    [post]: the one-item listing yields the same snapshot once for [k] and
    once more for every key of [post], so more snapshots than items as soon
    as [post] is not empty. *)
Theorem parseMetaData_duplicates (pre post : gomap json) (k : string) (v : json) :
  NoDup (keys (pre ++ (k, v) :: post)) ->
  mapLookup "metadata" (pre ++ [(k, v)]) = Some metadata ->
  mapLookup "status" (pre ++ [(k, v)]) = Some (JObject statusMap) ->
  k = "metadata" \/ k = "status" ->
  parseMetaData (Some [("items", JArray [JObject (pre ++ (k, v) :: post)])])
  = Done (repeat
            (setStatus m
               (derivedStatus EmptyString phase replicas readyReplicas
                  availableReplicas))
            (S (List.length post))).
Proof.
  intros Hnd Hm Hs Hk.
  cbn [parseMetaData mapLookup String.eqb Ascii.eqb Bool.eqb forRange].
  replace (pre ++ (k, v) :: post) with ((pre ++ [(k, v)]) ++ post) in *
    by now rewrite <- app_assoc.
  rewrite (parseItem_snapshots _ [] Hnd
             (mapLookup_app_left _ _ _ post Hm) (mapLookup_app_left _ _ _ post Hs)).
  cbn [bind app]. rewrite <- app_assoc. cbn [app].
  rewrite appendCount_completing; [reflexivity| |].
  - assert (Hk' : ~ In k (keys pre)).
    { unfold keys in Hnd. rewrite <- app_assoc, map_app in Hnd. cbn in Hnd.
      apply NoDup_remove_2 in Hnd. intros Hin. apply Hnd.
      apply in_or_app. now left. }
    cbn [orb]. destruct Hk as [-> | ->].
    + now rewrite (seenKey_absent _ _ Hk').
    + rewrite (seenKey_absent _ _ Hk'). apply andb_false_r.
  - cbn [orb]. now rewrite (seenKey_present _ _ _ Hm), (seenKey_present _ _ _ Hs).
Qed.

End Item.

(** Distinctness of a concrete list of keys. *)
Ltac distinct_keys :=
  repeat (apply NoDup_cons; [cbn; intuition discriminate|]); apply NoDup_nil.

(** The snapshots of a listing, item by item. *)
Lemma parseItems_described (described : list (MetaData.t * option StatusReport))
    (items : list json) :
  Forall2 listedItem described items ->
  forall slice : list MetaData.t,
  exists groups,
    forRange items parseItem slice = Done (slice ++ List.concat groups)
    /\ Forall2 snapshotsOf described groups.
Proof.
  induction 1 as [|[m report] item described items Hitem _ IH]; intros slice.
  - exists []. split; [cbn; now rewrite app_nil_r|apply Forall2_nil].
  - destruct Hitem as (itemConverted & metadata & -> & Hnd & Hm & Hparses & Hreport).
    cbn [fst snd] in Hparses, Hreport. cbn [forRange].
    assert (Hone : exists n,
               parseItem slice (JObject itemConverted)
               = Done (slice ++ repeat (setStatus m (statusOf report)) (S n))).
    { destruct report as [report|].
      - destruct Hreport as (statusMap & Hs & Hfields).
        exists (pred (appendCount itemConverted false false)).
        rewrite (parseItem_snapshots metadata m statusMap _ _ _ _ Hparses Hfields
                   itemConverted slice Hnd Hm Hs).
        assert (Hpos : (0 < appendCount itemConverted false false)%nat).
        { apply appendCount_positive; try reflexivity; intros _.
          - exact (mapLookup_present _ _ _ Hm).
          - exact (mapLookup_present _ _ _ Hs). }
        replace (S (pred (appendCount itemConverted false false)))
          with (appendCount itemConverted false false) by lia.
        unfold derivedStatus, statusOf. now rewrite replicasReady_present.
      - destruct (parseItem_without_status metadata m Hparses itemConverted slice
                    Hnd Hm Hreport) as (n & ->).
        exists n. cbn [statusOf].
        rewrite <- (parseMetadataMap_zero_status metadata m Hparses).
        now rewrite setStatus_same. }
    destruct Hone as (n & ->). cbn [bind].
    destruct (IH (slice ++ repeat (setStatus m (statusOf report)) (S n)))
      as (groups & -> & Hgroups).
    exists (repeat (setStatus m (statusOf report)) (S n) :: groups).
    split; [cbn [List.concat]; now rewrite app_assoc|].
    apply Forall2_cons; [now exists n|exact Hgroups].
Qed.

(** C7.  The status of the snapshots [parseMetaData] returns.  For a
    listing whose items have a [metadata] object and, each, either a
    [status] object or no [status] key, the keys in any order: the
    snapshots come item by item, one or more for every item, and carry the
    status [Ready] when the three replica counts are present, [replicas]
    is positive and equal to both others; otherwise the value of [phase];
    and the empty string when [phase] is absent or the item has no status
    at all. *)
Theorem status_derivation (result : gomap json) (items : list json)
    (described : list (MetaData.t * option StatusReport)) :
  mapLookup "items" result = Some (JArray items) ->
  Forall2 listedItem described items ->
  exists groups,
    parseMetaData (Some result) = Done (List.concat groups)
    /\ Forall2 snapshotsOf described groups.
Proof.
  intros Hitems Hdescribed. unfold parseMetaData. rewrite Hitems.
  exact (parseItems_described described items Hdescribed []).
Qed.

Lemma status_derivation_witness :
  exists groups,
    parseMetaData
      (Some [("items", JArray [JObject itemAllReady; JObject itemNotReady; a1Item])])
    = Done (List.concat groups)
    /\ Forall2 snapshotsOf
         [(MetaData.mk "web" "" "" "" "",
           Some (mkStatusReport None (Some 3%float) (Some 3%float) (Some 3%float)));
          (MetaData.mk "web" "" "" "" "",
           Some (mkStatusReport (Some "Progressing") (Some 3%float) (Some 2%float) None));
          (MetaData.mk "a1" "" "" "" "", None)]
         groups.
Proof.
  apply (status_derivation
           [("items", JArray [JObject itemAllReady; JObject itemNotReady; a1Item])]
           [JObject itemAllReady; JObject itemNotReady; a1Item]).
  - reflexivity.
  - apply Forall2_cons; [|apply Forall2_cons; [|apply Forall2_cons; [|apply Forall2_nil]]].
    + exists itemAllReady, sampleMetadata.
      split; [reflexivity|]. split; [distinct_keys|].
      split; [reflexivity|]. split; [reflexivity|].
      exists statusAllReady. split; [reflexivity|].
      repeat split; [distinct_keys].
    + exists itemNotReady, sampleMetadata.
      split; [reflexivity|]. split; [distinct_keys|].
      split; [reflexivity|]. split; [reflexivity|].
      exists statusNotReady. split; [reflexivity|].
      repeat split; [distinct_keys].
    + exists [("metadata", JObject [("name", JString "a1")])],
        (JObject [("name", JString "a1")]).
      split; [reflexivity|]. split; [distinct_keys|].
      split; [reflexivity|]. split; [reflexivity|].
      cbn. intuition discriminate.
Defined.

Lemma parseMetaData_duplicates_witness :
  parseMetaData (Some [("items", JArray [JObject itemWithSpec])])
  = Done [MetaData.mk "web" "" "" "" "Ready"; MetaData.mk "web" "" "" "" "Ready"]
  /\ (List.length [JObject itemWithSpec]
      < List.length [MetaData.mk "web" "" "" "" "Ready";
                     MetaData.mk "web" "" "" "" "Ready"])%nat.
Proof.
  split; [|cbn; lia].
  refine (parseMetaData_duplicates sampleMetadata (MetaData.mk "web" "" "" "" "")
            statusAllReady None (Some 3%float) (Some 3%float) (Some 3%float) _ _
            [("metadata", sampleMetadata)]
            [("spec", JObject [("replicas", JNumber 3%float)])]
            "status" (JObject statusAllReady) _ _ _ _).
  - reflexivity.
  - repeat split; [distinct_keys].
  - distinct_keys.
  - reflexivity.
  - reflexivity.
  - now right.
Defined.

(** ** The tree builder: a failed listing *)

Lemma getResourceListContent_failed_Do {W} (cl : Cluster W) (g : Globals)
    (resourceApiVersion resourcePlural : string) (w : W) :
  (forall url token pool, fst (client_Do cl w url token pool) = None) ->
  getResourceListContent cl g resourceApiVersion resourcePlural w = Panicked.
Proof.
  intros Hfail. unfold getResourceListContent, getToken, getCACert.
  destruct (ReadFile cl w _); [|reflexivity]. cbn [bind].
  destruct (ReadFile cl w _); [|reflexivity]. cbn [bind].
  destruct (url_Parse cl _) as [u|]; [|reflexivity].
  destruct (http_NewRequest cl _ u); [|reflexivity].
  specialize (Hfail u s s0).
  destruct (client_Do cl w u s s0) as [[body|] w']; [discriminate|reflexivity].
Qed.

(** C2.  In a cluster where the listing of replica sets fails,
    [buildProvenance] for a deployment panics instead of recording an empty
    list of replica sets, and the panic ends the refresh pass as well; with
    an empty listing in place of the failure both return. *)
Theorem failed_listing_panics :
  buildProvenance flakyCluster builtinGlobals 3 "Deployment" "web" 1 [] tt = Panicked
  /\ refreshCycle flakyCluster builtinGlobals 3 (mkCP false []) tt = Panicked
  /\ buildProvenance quietCluster builtinGlobals 3 "Deployment" "web" 1 [] tt
     = Done ([TreeNode.mk 2 "ReplicaSet" []], tt)
  /\ refreshCycle quietCluster builtinGlobals 3 (mkCP false []) tt
     = Done (mkCP false
               [Provenance.mk "Deployment" "web" "Ready" [TreeNode.mk 2 "ReplicaSet" []]],
             tt).
Proof. repeat split; vm_compute; reflexivity. Qed.

Lemma buildProvenance_failed_listing {W} (cl : Cluster W) (g : Globals) (depth : nat)
    (kind name : string) (level : Z) (tree : list TreeNode.t) (w : W)
    (child : string) (rest : list string) :
  mapLookup kind (compositionMap g) = Some (child :: rest) ->
  (forall w url token pool, fst (client_Do cl w url token pool) = None) ->
  buildProvenance cl g (S depth) kind name level tree w = Panicked.
Proof.
  intros Hkind Hfail. cbn [buildProvenance]. rewrite Hkind. cbn [forRange].
  now rewrite getResourceListContent_failed_Do.
Qed.

(** ** The tree builder: termination *)

Lemma terminates_bind {A B : Type} (m : Outcome A) (k : A -> Outcome B) :
  terminates m -> (forall a, terminates (k a)) -> terminates (bind m k).
Proof. destruct m; cbn; auto. Qed.

Lemma terminates_forRange {A S : Type} (l : list A) (body : S -> A -> Outcome S) :
  (forall s x, In x l -> terminates (body s x)) ->
  forall s, terminates (forRange l body s).
Proof.
  induction l as [|x l IH]; intros Hbody s; cbn [forRange]; [exact I|].
  apply terminates_bind.
  - apply Hbody. now left.
  - intros s'. apply IH. intros s'' y Hy. apply Hbody. now right.
Qed.

Lemma terminates_asString (v : json) : terminates (asString v).
Proof. now destruct v. Qed.

Lemma terminates_asFloat (v : json) : terminates (asFloat v).
Proof. now destruct v. Qed.

Lemma terminates_asSlice (v : json) : terminates (asSlice v).
Proof. now destruct v. Qed.

Lemma terminates_asMap (v : json) : terminates (asMap v).
Proof. now destruct v. Qed.

(** Breaks a goal [terminates _] down along binds, loops and conditionals. *)
Ltac settle :=
  repeat first
    [ exact I
    | apply terminates_asString | apply terminates_asFloat
    | apply terminates_asSlice | apply terminates_asMap
    | apply terminates_bind; [|intros ?]
    | apply terminates_forRange; intros ? ? _
    | match goal with
      | |- terminates (if ?b then _ else _) => destruct b
      | |- terminates (match ?x with (_, _) => _ end) => destruct x
      end ].

Lemma terminates_parseOwnerReference (ref : MetaData.t) (v : json) :
  terminates (parseOwnerReference ref v).
Proof. unfold parseOwnerReference. settle. Qed.

Lemma terminates_parseMetadataMap (ref : MetaData.t) (v : json) :
  terminates (parseMetadataMap ref v).
Proof.
  unfold parseMetadataMap. settle.
Qed.

Lemma terminates_parseStatusKey (vars : MetaData.t * float * float * float)
    (kv : string * json) :
  terminates (parseStatusKey vars kv).
Proof.
  unfold parseStatusKey. destruct vars as [[[ref r] rr] a], kv as [skey svalue]. settle.
Qed.

Lemma terminates_parseStatusMap (ref : MetaData.t) (v : json) :
  terminates (parseStatusMap ref v).
Proof. unfold parseStatusMap. settle. apply terminates_parseStatusKey. Qed.

Lemma terminates_parseItemKey (ske : bool) (st : ItemState) (kv : string * json) :
  terminates (parseItemKey ske st kv).
Proof.
  unfold parseItemKey. destruct kv as [key value].
  settle; apply terminates_parseStatusKey.
Qed.

Lemma terminates_parseItem (slice : list MetaData.t) (item : json) :
  terminates (parseItem slice item).
Proof.
  unfold parseItem. settle. apply terminates_parseItemKey.
Qed.

Lemma terminates_parseMetaData (content : Content) : terminates (parseMetaData content).
Proof.
  unfold parseMetaData. destruct content as [result|]; [|exact I].
  destruct (mapLookup "items" result) as [[| | | |items|]|]; try exact I.
  apply terminates_forRange. intros; apply terminates_parseItem.
Qed.

Lemma terminates_getResourceListContent {W} (cl : Cluster W) (g : Globals)
    (resourceApiVersion resourcePlural : string) (w : W) :
  terminates (getResourceListContent cl g resourceApiVersion resourcePlural w).
Proof.
  unfold getResourceListContent, getToken, getCACert.
  destruct (ReadFile cl w _); [|exact I]. cbn [bind].
  destruct (ReadFile cl w _); [|exact I]. cbn [bind].
  destruct (url_Parse cl _) as [u|]; [|exact I].
  destruct (http_NewRequest cl _ u); [|exact I].
  now destruct (client_Do cl w u s s0) as [[body|] w'].
Qed.

Section Schema.

Context {W : Type} (cl : Cluster W) (g : Globals).

(** The nesting of activations never exceeds the longest chain that starts
    at the kind being built. *)
Lemma buildProvenance_within (n : nat) :
  forall kind,
    (forall l, chain g (kind :: l) -> (List.length (kind :: l) <= n)%nat) ->
    forall name level tree w,
      terminates (buildProvenance cl g n kind name level tree w).
Proof.
  induction n as [|n IH]; intros kind Hbound name level tree w.
  - specialize (Hbound [] (chain_one g kind)). cbn in Hbound. lia.
  - cbn [buildProvenance].
    destruct (mapLookup kind (compositionMap g)) as [children|] eqn:E; [|exact I].
    apply terminates_forRange. intros [tree' w'] child Hchild.
    apply terminates_bind; [apply terminates_getResourceListContent|].
    intros [content w''].
    apply terminates_bind; [apply terminates_parseMetaData|].
    intros found.
    apply terminates_forRange. intros [tree'' w'''] ref _.
    apply IH. intros l Hchain.
    assert (Hlong : chain g (kind :: child :: l)).
    { apply chain_cons; [|exact Hchain]. unfold childKinds. now rewrite E. }
    specialize (Hbound _ Hlong). cbn [List.length] in *. lia.
Qed.

Lemma chain_tail (kind child : string) (l : list string) :
  chain g (kind :: child :: l) -> chain g (child :: l).
Proof. intros H. now inversion H. Qed.

Lemma chain_prefix (l1 : list string) :
  forall l2, l1 <> [] -> chain g (l1 ++ l2) -> chain g l1.
Proof.
  induction l1 as [|k l1 IH]; intros l2 Hne Hchain; [contradiction|].
  destruct l1 as [|c l1]; [apply chain_one|].
  cbn [app] in Hchain. inversion Hchain as [|? ? ? Hchild Hrest]; subst.
  apply chain_cons; [exact Hchild|].
  apply (IH l2); [discriminate|exact Hrest].
Qed.

Lemma chain_suffix (l1 : list string) :
  forall l2, l2 <> [] -> chain g (l1 ++ l2) -> chain g l2.
Proof.
  induction l1 as [|k l1 IH]; intros l2 Hne Hchain; [exact Hchain|].
  apply IH; [exact Hne|].
  destruct (l1 ++ l2) as [|c rest] eqn:E.
  - destruct l1; [cbn in E; now subst|discriminate].
  - cbn [app] in Hchain. rewrite E in Hchain. now apply chain_tail in Hchain.
Qed.

Lemma acyclic_chain_NoDup (l : list string) :
  acyclic g -> chain g l -> NoDup l.
Proof.
  intros Hacyclic. induction l as [|k l IH]; intros Hchain; [apply NoDup_nil|].
  apply NoDup_cons.
  - intros Hin. apply in_split in Hin. destruct Hin as (l1 & l2 & ->).
    apply (Hacyclic k l1).
    apply (chain_prefix (k :: l1 ++ [k]) l2); [discriminate|].
    cbn [app]. now rewrite <- app_assoc.
  - destruct l as [|c l]; [apply NoDup_nil|].
    apply IH. now apply chain_tail in Hchain.
Qed.

(** Every kind of a chain but the last declares a child, so it is a key of
    the schema. *)
Lemma chain_keys (l : list string) :
  forall last, chain g (l ++ [last]) -> incl l (keys (compositionMap g)).
Proof.
  induction l as [|k l IH]; intros last Hchain; [intros x []|].
  intros x [<-|Hx].
  - cbn [app] in Hchain.
    destruct (l ++ [last]) as [|c rest] eqn:E; [now destruct l|].
    inversion Hchain as [|? ? ? Hchild _]; subst.
    unfold childKinds in Hchild.
    destruct (mapLookup k (compositionMap g)) as [children|] eqn:Ek; [|contradiction].
    exact (mapLookup_present _ _ _ Ek).
  - apply (IH last); [|exact Hx].
    apply (chain_suffix [k]); [now destruct l|exact Hchain].
Qed.

(** In a schema without cycles no chain is longer than the number of kinds
    the schema declares, plus one. *)
Lemma acyclic_chain_length (l : list string) :
  acyclic g -> chain g l -> (List.length l <= S (List.length (compositionMap g)))%nat.
Proof.
  intros Hacyclic Hchain.
  destruct (exists_last (l := l)) as (front & last & ->).
  { intros ->. inversion Hchain. }
  pose proof (acyclic_chain_NoDup _ Hacyclic Hchain) as Hnd.
  apply NoDup_app_remove_r in Hnd.
  pose proof (NoDup_incl_length Hnd (chain_keys _ _ Hchain)) as Hlen.
  unfold keys in Hlen. rewrite length_map in Hlen.
  rewrite length_app. cbn. lia.
Qed.

Lemma boundedFrom_chain (n : nat) :
  forall kind l,
    boundedFrom g n kind = true -> chain g (kind :: l) ->
    (List.length (kind :: l) <= n)%nat.
Proof.
  induction n as [|n IH]; intros kind l Hb Hchain; [discriminate|].
  cbn [boundedFrom] in Hb. rewrite forallb_forall in Hb.
  inversion Hchain as [|? child rest Hchild Hrest]; subst; cbn [List.length]; [lia|].
  specialize (IH child rest (Hb child Hchild) Hrest). cbn [List.length] in IH. lia.
Qed.

Lemma boundedFrom_along (l : list string) :
  forall kind n last,
    chain g (kind :: l ++ [last]) -> boundedFrom g n kind = true ->
    exists n', (n' < n)%nat /\ boundedFrom g n' last = true.
Proof.
  induction l as [|c l IH]; intros kind n last Hchain Hb;
    (destruct n as [|n]; [discriminate|]);
    cbn [boundedFrom] in Hb; rewrite forallb_forall in Hb;
    cbn [app] in Hchain; inversion Hchain as [|? ? ? Hchild Hrest]; subst.
  - exists n. split; [lia|]. now apply Hb.
  - destruct (IH c n last Hrest (Hb c Hchild)) as (n' & Hlt & Hb').
    exists n'. split; [lia|exact Hb'].
Qed.

Lemma boundedFrom_no_cycle (n : nat) :
  forall kind l, boundedFrom g n kind = true -> ~ chain g (kind :: l ++ [kind]).
Proof.
  induction n as [n IH] using lt_wf_ind. intros kind l Hb Hchain.
  destruct (boundedFrom_along l kind n kind Hchain Hb) as (n' & Hlt & Hb').
  exact (IH n' Hlt kind l Hb' Hchain).
Qed.

Lemma acyclicb_sound : acyclicb g = true -> acyclic g.
Proof.
  unfold acyclicb. rewrite forallb_forall. intros Hall kind l Hchain.
  apply (boundedFrom_no_cycle (S (List.length (compositionMap g))) kind l);
    [|exact Hchain].
  apply Hall.
  apply (chain_keys (kind :: l) kind); [exact Hchain|now left].
Qed.

End Schema.

Lemma chains_bounded (g : Globals) (n : nat) :
  (1 <= n)%nat ->
  forallb (boundedFrom g n) (keys (compositionMap g)) = true ->
  forall l, chain g l -> (List.length l <= n)%nat.
Proof.
  intros Hn Hall l Hchain. rewrite forallb_forall in Hall.
  destruct l as [|kind l]; [inversion Hchain|].
  destruct (in_dec string_dec kind (keys (compositionMap g))) as [Hin|Hnotin].
  - exact (boundedFrom_chain g n kind l (Hall kind Hin) Hchain).
  - inversion Hchain as [|? child rest Hchild _]; subst; cbn [List.length]; [lia|].
    unfold childKinds in Hchild.
    rewrite (mapLookup_absent _ _ Hnotin) in Hchild. contradiction.
Qed.

Lemma terminates_bind_inv {A B : Type} (m : Outcome A) (k : A -> Outcome B) :
  terminates (bind m k) ->
  terminates m /\ forall a, m = Done a -> terminates (k a).
Proof.
  destruct m; cbn; intros H; try contradiction; split; try exact I.
  - intros a' E. now injection E as <-.
  - discriminate.
Qed.

(** Two loop bodies that agree wherever the first terminates give the same
    loop, when the loop over the first terminates. *)
Lemma forRange_agree {A S : Type} (l : list A) (body1 body2 : S -> A -> Outcome S) :
  (forall s x, terminates (body1 s x) -> body2 s x = body1 s x) ->
  forall s, terminates (forRange l body1 s) ->
            forRange l body2 s = forRange l body1 s.
Proof.
  intros Hagree. induction l as [|x l IH]; intros s Hterm; cbn [forRange] in *.
  - reflexivity.
  - apply terminates_bind_inv in Hterm. destruct Hterm as [Hx Hrest].
    rewrite (Hagree s x Hx).
    destruct (body1 s x) as [s'| | |]; cbn [bind]; try reflexivity.
    apply IH. now apply Hrest.
Qed.

(** A build that terminates under a bound gives the same outcome under any
    larger bound, so its recursion depth is well defined. *)
Lemma buildProvenance_monotone {W} (cl : Cluster W) (g : Globals) (n : nat) :
  forall kind name level tree w,
    terminates (buildProvenance cl g n kind name level tree w) ->
    buildProvenance cl g (S n) kind name level tree w
    = buildProvenance cl g n kind name level tree w.
Proof.
  induction n as [|n IH]; intros kind name level tree w Hterm; [contradiction|].
  cbn [buildProvenance] in Hterm.
  change (buildProvenance cl g (S (S n)) kind name level tree w)
    with (match mapLookup kind (compositionMap g) with
          | Some childResourceKindList =>
              forRange childResourceKindList
                (fun '(compositionTree, w) childResourceKind =>
                   '(content, w) <-
                     getResourceListContent cl g
                       (mapGet childResourceKind (kindVersionMap g))
                       (mapGet childResourceKind (KindPluralMap g)) w ;;
                   metaDataAndOwnerReferenceList <- parseMetaData content ;;
                   forRange (filterChildren metaDataAndOwnerReferenceList name)
                     (fun '(compositionTree, w) metaDataRef =>
                        buildProvenance cl g (S n) childResourceKind
                          (MetaData.MetaDataName metaDataRef) (int_add level 1)
                          compositionTree w)
                     (compositionTree
                      ++ [TreeNode.mk (int_add level 1) childResourceKind
                            (filterChildren metaDataAndOwnerReferenceList name)],
                      w))
                (tree, w)
          | None => Done (tree, w)
          end).
  cbn [buildProvenance].
  destruct (mapLookup kind (compositionMap g)) as [children|]; [|reflexivity].
  apply forRange_agree; [|exact Hterm].
  intros [tree' w'] child Hbody.
  destruct (getResourceListContent cl g _ _ w') as [[content w'']| | |];
    cbn [bind] in *; try reflexivity.
  destruct (parseMetaData content) as [found| | |]; cbn [bind] in *; try reflexivity.
  apply forRange_agree; [|exact Hbody].
  intros [tree'' w'''] ref Hinner. now apply IH.
Qed.

(** *** The longest chain of a schema *)

Lemma list_max_ge (l : list nat) (x : nat) : In x l -> (x <= list_max l)%nat.
Proof.
  intros Hin. pose proof (proj1 (list_max_le l (list_max l)) (Nat.le_refl _)) as Hall.
  rewrite Forall_forall in Hall. now apply Hall.
Qed.

Lemma list_max_attained (l : list nat) : list_max l = 0%nat \/ In (list_max l) l.
Proof.
  induction l as [|x l IH]; [now left|].
  change (list_max (x :: l)) with (Nat.max x (list_max l)).
  destruct (Nat.max_spec x (list_max l)) as [[_ ->]|[_ ->]].
  - destruct IH as [->|IH]; [now left|right; now right].
  - right. now left.
Qed.

Section Longest.

Variable g : Globals.

(** No chain from [kind] of at most [bound] kinds is longer than
    [chainFrom] says, and one is as long. *)
Lemma chainFrom_bounds (bound : nat) :
  forall kind l,
    chain g (kind :: l) -> (List.length (kind :: l) <= bound)%nat ->
    (List.length (kind :: l) <= chainFrom g bound kind)%nat.
Proof.
  induction bound as [|bound IH]; intros kind l Hchain Hlen;
    [cbn [List.length] in Hlen; lia|].
  cbn [chainFrom].
  inversion Hchain as [|? child rest Hchild Hrest]; subst; cbn [List.length]; [lia|].
  cbn [List.length] in Hlen.
  assert (Hle : (List.length (child :: rest) <= chainFrom g bound child)%nat)
    by (apply IH; [exact Hrest|cbn [List.length]; lia]).
  assert (Hmax : (chainFrom g bound child
                  <= list_max (map (chainFrom g bound) (childKinds g kind)))%nat)
    by (apply list_max_ge; now apply in_map).
  cbn [List.length] in Hle. lia.
Qed.

Lemma chainFrom_attained (bound : nat) :
  forall kind,
  exists l, chain g (kind :: l) /\ List.length (kind :: l) = chainFrom g (S bound) kind.
Proof.
  induction bound as [|bound IH]; intros kind.
  - exists []. split; [apply chain_one|].
    change (chainFrom g 1 kind)
      with (S (list_max (map (fun _ : string => 0%nat) (childKinds g kind)))).
    assert (Hzero : list_max (map (fun _ : string => 0%nat) (childKinds g kind)) = 0%nat).
    { induction (childKinds g kind) as [|c l IHl]; [reflexivity|exact IHl]. }
    now rewrite Hzero.
  - change (chainFrom g (S (S bound)) kind)
      with (S (list_max (map (chainFrom g (S bound)) (childKinds g kind)))).
    destruct (list_max_attained (map (chainFrom g (S bound)) (childKinds g kind)))
      as [Hzero|Hin].
    + exists []. split; [apply chain_one|]. now rewrite Hzero.
    + apply in_map_iff in Hin. destruct Hin as (child & Hchild & Hin).
      destruct (IH child) as (l & Hchain & Hlen).
      exists (child :: l). split; [now apply chain_cons|].
      cbn [List.length] in *. now rewrite <- Hchild, <- Hlen.
Qed.

(** A schema without cycles has a longest chain. *)
Lemma longestChain_exists : acyclic g -> exists n, longestChain g n.
Proof.
  intros Hacyclic.
  set (bound := List.length (compositionMap g)).
  set (lengths := 1%nat :: map (chainFrom g (S bound)) (keys (compositionMap g))).
  exists (list_max lengths). split.
  - destruct (list_max_attained lengths) as [Hzero|[Hone|Hin]].
    + exfalso. assert (H : (1 <= list_max lengths)%nat)
        by (apply list_max_ge; now left).
      lia.
    + exists [EmptyString]. split; [apply chain_one|]. now rewrite <- Hone.
    + apply in_map_iff in Hin. destruct Hin as (kind & Hkind & _).
      destruct (chainFrom_attained bound kind) as (l & Hchain & Hlen).
      exists (kind :: l). split; [exact Hchain|]. now rewrite Hlen.
  - intros l Hchain.
    destruct l as [|kind l]; [inversion Hchain|].
    destruct l as [|child l].
    + apply (list_max_ge lengths 1%nat). now left.
    + assert (Hkey : In kind (keys (compositionMap g))).
      { inversion Hchain as [|? ? ? Hchild _]; subst. unfold childKinds in Hchild.
        destruct (mapLookup kind (compositionMap g)) as [children|] eqn:Ek;
          [|contradiction].
        exact (mapLookup_present _ _ _ Ek). }
      assert (Hle : (List.length (kind :: child :: l)
                     <= chainFrom g (S bound) kind)%nat).
      { apply chainFrom_bounds; [exact Hchain|].
        now apply acyclic_chain_length. }
      assert (Hmax : (chainFrom g (S bound) kind <= list_max lengths)%nat).
      { apply list_max_ge. right. now apply in_map. }
      lia.
Qed.

(** *** A cluster with an instance of every kind *)

Lemma forRange_runs {A S : Type} (l : list A) (body : S -> A -> Outcome S) :
  (forall s x, In x l -> runs (body s x)) -> forall s, runs (forRange l body s).
Proof.
  induction l as [|x l IH]; intros Hbody s; cbn [forRange]; [exact I|].
  pose proof (Hbody s x (or_introl eq_refl)) as Hx.
  destruct (body s x) as [s'| | |]; cbn [bind]; try exact Hx.
  apply IH. intros s'' y Hy. apply Hbody. now right.
Qed.

(** A loop in which some iteration needs more nesting whatever the state,
    and no iteration panics or blocks, needs more nesting. *)
Lemma forRange_exhausts {A S : Type} (l : list A) (body : S -> A -> Outcome S) (x : A) :
  In x l ->
  (forall s y, In y l -> runs (body s y)) ->
  (forall s, body s x = Exhausted) ->
  forall s, forRange l body s = Exhausted.
Proof.
  induction l as [|y l IH]; intros Hin Hruns Hx s; [contradiction|].
  cbn [forRange].
  pose proof (Hruns s y (or_introl eq_refl)) as Hy.
  destruct (body s y) as [s'| | |] eqn:E; cbn [bind]; try contradiction;
    [|reflexivity].
  destruct Hin as [->|Hin]; [rewrite Hx in E; discriminate|].
  apply IH; [exact Hin| |exact Hx].
  intros s'' z Hz. apply Hruns. now right.
Qed.

Lemma uniform_listing (resourceApiVersion resourcePlural : string) (w : unit) :
  getResourceListContent uniformCluster g resourceApiVersion resourcePlural w
  = Done (Some [("items", JArray [xItem])], w).
Proof. reflexivity. Qed.

Lemma uniform_parse :
  parseMetaData (Some [("items", JArray [xItem])]) = Done [MetaData.mk "x" "x" "" "" ""].
Proof. reflexivity. Qed.

(** In that cluster a build never panics. *)
Lemma uniform_runs (depth : nat) :
  forall kind name level tree w,
    runs (buildProvenance uniformCluster g depth kind name level tree w).
Proof.
  induction depth as [|depth IH]; intros kind name level tree w; [exact I|].
  cbn [buildProvenance].
  destruct (mapLookup kind (compositionMap g)) as [children|]; [|exact I].
  apply forRange_runs. intros [tree' w'] child _.
  rewrite uniform_listing. cbn [bind]. rewrite uniform_parse. cbn [bind].
  apply forRange_runs. intros [tree'' w''] ref _. apply IH.
Qed.

(** Below an instance named [x] it descends along every chain: with fewer
    nested activations than a chain from the kind has kinds, the build
    needs more. *)
Lemma uniform_exhausts (depth : nat) :
  forall kind l,
    chain g (kind :: l) -> (depth < List.length (kind :: l))%nat ->
    forall level tree w,
      buildProvenance uniformCluster g depth kind "x" level tree w = Exhausted.
Proof.
  induction depth as [|depth IH]; intros kind l Hchain Hlen level tree w;
    [reflexivity|].
  inversion Hchain as [|? child rest Hchild Hrest]; subst;
    cbn [List.length] in Hlen; [lia|].
  unfold childKinds in Hchild. cbn [buildProvenance].
  destruct (mapLookup kind (compositionMap g)) as [children|]; [|contradiction].
  apply (forRange_exhausts children _ child Hchild).
  - intros [tree' w'] y _.
    rewrite uniform_listing. cbn [bind]. rewrite uniform_parse. cbn [bind].
    apply forRange_runs. intros [tree'' w''] ref _. apply uniform_runs.
  - intros [tree' w'].
    rewrite uniform_listing. cbn [bind]. rewrite uniform_parse. cbn [bind].
    change (filterChildren [MetaData.mk "x" "x" "" "" ""] "x")
      with [MetaData.mk "x" "x" "" "" ""].
    cbn [forRange MetaData.MetaDataName].
    rewrite (IH child rest Hrest); [reflexivity|]. cbn [List.length]. lia.
Qed.

End Longest.

(** C8.  For a schema without cycles [buildProvenance] terminates (it
    returns or panics) from every kind and name, and its maximum recursion
    depth, counted in nested activations, is the number of kinds on the
    longest chain of the schema: the schema has a longest chain, of [n]
    kinds; no call, in any cluster, nests deeper than [n]; and a call does
    nest [n] deep, the build from the head of a longest chain in a cluster
    where every kind has an instance to descend into.  A single call nests
    no deeper than the longest chain from its own kind, and for a kind
    that is absent from the schema or declares no children it returns the
    tree unchanged within a single activation, without listing anything. *)
Theorem buildProvenance_terminates (g : Globals) :
  acyclic g ->
  exists n,
    longestChain g n
    /\ (forall (W : Type) (cl : Cluster W) kind name level tree w,
           terminates (buildProvenance cl g n kind name level tree w))
    /\ (exists kind, recursionDepth uniformCluster g kind "x" 1 [] tt n)
    /\ (forall (W : Type) (cl : Cluster W) m kind,
           (forall l, chain g (kind :: l) -> (List.length (kind :: l) <= m)%nat) ->
           forall name level tree w,
             terminates (buildProvenance cl g m kind name level tree w))
    /\ (forall (W : Type) (cl : Cluster W) kind name level tree w,
           mapLookup kind (compositionMap g) = None
           \/ mapLookup kind (compositionMap g) = Some [] ->
           buildProvenance cl g 1 kind name level tree w = Done (tree, w)).
Proof.
  intros Hacyclic.
  destruct (longestChain_exists g Hacyclic) as (n & Hlongest).
  exists n. split; [exact Hlongest|].
  destruct Hlongest as ((l & Hchain & Hlen) & Hbound).
  split; [|split; [|split]].
  - intros W cl kind name level tree w. apply buildProvenance_within.
    intros l' Hchain'. now apply Hbound.
  - destruct l as [|kind l]; [inversion Hchain|].
    exists kind. split.
    + apply buildProvenance_within. intros l' Hchain'. now apply Hbound.
    + intros d' Hlt.
      rewrite (uniform_exhausts g d' kind l Hchain); [intros []|]. lia.
  - intros W cl m kind Hm name level tree w. now apply buildProvenance_within.
  - intros W cl kind name level tree w [E|E]; cbn [buildProvenance]; now rewrite E.
Qed.

Lemma builtin_longestChain : longestChain builtinGlobals 3.
Proof.
  split.
  - exists ["Deployment"; "ReplicaSet"; "Pod"]. split; [|reflexivity].
    apply chain_cons; [now left|]. apply chain_cons; [now left|]. apply chain_one.
  - apply chains_bounded; [lia|reflexivity].
Qed.

Lemma buildProvenance_terminates_witness :
  acyclic builtinGlobals
  /\ exists n,
       longestChain builtinGlobals n
       /\ (forall (W : Type) (cl : Cluster W) kind name level tree w,
              terminates (buildProvenance cl builtinGlobals n kind name level tree w))
       /\ (exists kind, recursionDepth uniformCluster builtinGlobals kind "x" 1 [] tt n)
       /\ (forall (W : Type) (cl : Cluster W) m kind,
              (forall l, chain builtinGlobals (kind :: l) ->
                         (List.length (kind :: l) <= m)%nat) ->
              forall name level tree w,
                terminates (buildProvenance cl builtinGlobals m kind name level tree w))
       /\ (forall (W : Type) (cl : Cluster W) kind name level tree w,
              mapLookup kind (compositionMap builtinGlobals) = None
              \/ mapLookup kind (compositionMap builtinGlobals) = Some [] ->
              buildProvenance cl builtinGlobals 1 kind name level tree w
              = Done (tree, w)).
Proof.
  pose proof (acyclicb_sound builtinGlobals eq_refl) as Hacyclic.
  split; [exact Hacyclic|].
  exact (buildProvenance_terminates builtinGlobals Hacyclic).
Defined.

(** In the built-in schema the longest chain, Deployment, ReplicaSet, Pod,
    has three kinds: in the cluster with an instance of every kind the
    build of a deployment needs three nested activations, the build of a
    pod one. *)
Lemma builtin_recursionDepth :
  recursionDepth uniformCluster builtinGlobals "Deployment" "x" 1 [] tt 3
  /\ recursionDepth uniformCluster builtinGlobals "Pod" "x" 1 [] tt 1.
Proof.
  split; (split; [exact I|]); intros d' Hlt.
  - assert (Hd : d' = 0%nat \/ d' = 1%nat \/ d' = 2%nat) by lia.
    destruct Hd as [->|[->| ->]]; intros [].
  - assert (d' = 0%nat) as -> by lia. intros [].
Qed.

(** ** The query engine *)

(** A loop whose body returns and keeps an invariant returns and ends in a
    state that satisfies it. *)
Lemma forRange_invariant {A S : Type} (P : S -> Prop) (l : list A)
    (body : S -> A -> Outcome S) :
  (forall s x, In x l -> P s -> exists s', body s x = Done s' /\ P s') ->
  forall s, P s -> exists s', forRange l body s = Done s' /\ P s'.
Proof.
  induction l as [|x l IH]; intros Hbody s Hs; cbn [forRange].
  - now exists s.
  - destruct (Hbody s x (or_introl eq_refl) Hs) as (s1 & -> & Hs1). cbn [bind].
    apply IH; [|exact Hs1]. intros s2 y Hy. apply Hbody. now right.
Qed.

Lemma filter_length_lt {A : Type} (f : A -> bool) (l : list A) (x : A) :
  In x l -> f x = false -> (List.length (filter f l) < List.length l)%nat.
Proof.
  induction l as [|y l IH]; intros Hin Hfx; [contradiction|].
  cbn [filter]. destruct Hin as [->|Hin].
  - rewrite Hfx. pose proof (filter_length_le f l). cbn [List.length]. lia.
  - specialize (IH Hin Hfx). destruct (f y); cbn [List.length]; lia.
Qed.

(** [getComposition] returns: the slice handed to a nested activation is
    always shorter than the one being walked. *)
Lemma getCompositionWithin_total (depth : nat) :
  forall (compositionTree : list TreeNode.t),
    (List.length compositionTree < depth)%nat ->
    forall kind name status level processedList,
    exists composition processedList',
      getCompositionWithin depth kind name status level compositionTree processedList
      = Done (composition, processedList').
Proof.
  induction depth as [|depth IH];
    intros compositionTree Hlen kind name status level processedList; [lia|].
  cbn [getCompositionWithin].
  set (P := fun st : QueryState =>
              currentTree st = compositionTree \/ currentTree st = []).
  match goal with
  | |- context [forRange compositionTree ?body ?init] =>
      destruct (forRange_invariant P compositionTree body) with (s := init)
        as (st & -> & _)
  end.
  - intros st node Hnode Hst.
    destruct (processed (processedNodes st) node); [now exists st|].
    apply (forRange_invariant P); [|exact Hst].
    intros st' metaDataNode _ Hst'.
    match goal with
    | |- context [getCompositionWithin depth ?k ?n ?s ?lv ?t ?p] =>
        destruct (IH t) with (kind := k) (name := n) (status := s) (level := lv)
          (processedList := p) as (child & processedList' & ->)
    end.
    + destruct Hst' as [-> | ->].
      * assert (Hlt : (List.length
                         (filter
                            (fun n1 =>
                               negb (Z.eqb (TreeNode.Level n1) (TreeNode.Level node))
                               && negb (String.eqb (TreeNode.ChildKind n1)
                                          (TreeNode.ChildKind node)))
                            compositionTree)
                       < List.length compositionTree)%nat).
        { apply (filter_length_lt _ _ node Hnode). now rewrite Z.eqb_refl. }
        lia.
      * cbn [filter List.length]. destruct compositionTree; [contradiction|].
        cbn [List.length] in Hlen. lia.
    + cbn [bind]. eexists. split; [reflexivity|]. now right.
  - now left.
  - cbn [bind]. now eexists; eexists.
Qed.

Lemma getComposition_total (kind name status : string) (level : Z)
    (compositionTree processedList : list TreeNode.t) :
  exists composition processedList',
    getComposition kind name status level compositionTree processedList
    = Done (composition, processedList').
Proof. unfold getComposition. apply getCompositionWithin_total. lia. Qed.

(** *** Lower-casing *)

Lemma ToLower_lowerUnicode {T : Toolchain} (s : string) : ToLower s = lowerUnicode s.
Proof.
  unfold ToLower. destruct (isASCII s) eqn:E; [|reflexivity].
  symmetry. now apply lowerUnicode_ascii.
Qed.

Lemma ToLower_idempotent {T : Toolchain} (s : string) : ToLower (ToLower s) = ToLower s.
Proof. rewrite !ToLower_lowerUnicode. apply lowerUnicode_lowered. Qed.

Lemma ToLower_empty {T : Toolchain} (s : string) :
  ToLower s = EmptyString -> s = EmptyString.
Proof. rewrite ToLower_lowerUnicode. apply lowerUnicode_nonempty. Qed.

(** *** The reverse lookup *)

Lemma mapLookup_In {V : Type} (k : string) (v : V) (m : gomap V) :
  mapLookup k m = Some v -> In (k, v) m.
Proof.
  induction m as [|[k' v'] m IH]; cbn [mapLookup]; [discriminate|].
  destruct (String.eqb_spec k' k) as [->|E]; intros H.
  - injection H as ->. now left.
  - right. now apply IH.
Qed.

(** When every kind whose plural is the wanted one (letter case aside) has
    the same lower-cased name, the reverse lookup finds that name whatever
    the iteration order. *)
Lemma resolveKind_unique {T : Toolchain} (kindPluralMap : gomap string)
    (plural target : string) :
  (exists key value, In (key, value) kindPluralMap /\ ToLower value = ToLower plural) ->
  (forall key value,
      In (key, value) kindPluralMap -> ToLower value = ToLower plural ->
      ToLower key = target) ->
  resolveKind kindPluralMap plural = target.
Proof.
  induction kindPluralMap as [|[key value] rest IH]; intros (k & v & Hin & Hv) Hall.
  - contradiction.
  - cbn [resolveKind].
    destruct (String.eqb_spec (ToLower value) (ToLower plural)) as [E|E].
    + apply (Hall key value); [now left|exact E].
    + apply IH.
      * destruct Hin as [Heq|Hin]; [|now exists k, v].
        injection Heq as -> ->. contradiction.
      * intros k' v' Hin' Hv'. apply (Hall k' v'); [now right|exact Hv'].
Qed.

Lemma resolveKind_none {T : Toolchain} (kindPluralMap : gomap string) (plural : string) :
  (forall key value, In (key, value) kindPluralMap -> ToLower value <> ToLower plural) ->
  resolveKind kindPluralMap plural = EmptyString.
Proof.
  induction kindPluralMap as [|[key value] rest IH]; intros Hnone; cbn [resolveKind];
    [reflexivity|].
  destruct (String.eqb_spec (ToLower value) (ToLower plural)) as [E|E].
  - exfalso. exact (Hnone key value (or_introl eq_refl) E).
  - apply IH. intros k v Hin. apply (Hnone k v). now right.
Qed.

Lemma resolveKind_cases {T : Toolchain} (kindPluralMap : gomap string) (plural : string) :
  (forall key value, In (key, value) kindPluralMap -> ToLower value <> ToLower plural)
  \/ exists key value,
       In (key, value) kindPluralMap /\ ToLower value = ToLower plural
       /\ resolveKind kindPluralMap plural = ToLower key.
Proof.
  induction kindPluralMap as [|[key value] rest IH]; cbn [resolveKind].
  - left. intros key value [].
  - destruct (String.eqb_spec (ToLower value) (ToLower plural)) as [E|E].
    + right. exists key, value. split; [now left|]. now split.
    + destruct IH as [IH|(k & v & Hin & Hv & Hk)].
      * left. intros k v [Heq|Hin]; [now injection Heq as <- <-|now apply (IH k v)].
      * right. exists k, v. split; [now right|]. now split.
Qed.

Lemma NoDup_map_injective {A B : Type} (f : A -> B) (l : list A) (x y : A) :
  NoDup (map f l) -> In x l -> In y l -> f x = f y -> x = y.
Proof.
  induction l as [|z l IH]; intros Hnd Hx Hy Hf; [contradiction|].
  cbn [map] in Hnd. inversion Hnd as [|? ? Hnotin Hnd']; subst.
  destruct Hx as [->|Hx], Hy as [->|Hy].
  - reflexivity.
  - exfalso. apply Hnotin. rewrite Hf. now apply in_map.
  - exfalso. apply Hnotin. rewrite <- Hf. now apply in_map.
  - now apply IH.
Qed.

(** When no two kinds share a plural, letter case aside, the reverse
    lookup does not depend on the order of the visit. *)
Lemma resolveKind_order {T : Toolchain} (order table : gomap string) (plural : string) :
  Permutation order table ->
  NoDup (map (fun kv => ToLower (snd kv)) table) ->
  resolveKind order plural = resolveKind table plural.
Proof.
  intros Hperm Hnd.
  destruct (resolveKind_cases table plural) as [Hnone|(key & value & Hin & Hv & ->)].
  - rewrite (resolveKind_none table plural Hnone). apply resolveKind_none.
    intros key value Hin. apply (Hnone key value). exact (Permutation_in _ Hperm Hin).
  - apply resolveKind_unique.
    + exists key, value. split; [|exact Hv].
      exact (Permutation_in _ (Permutation_sym Hperm) Hin).
    + intros k v Hkv Hkv'. apply (Permutation_in _ Hperm) in Hkv.
      assert (E : (k, v) = (key, value)).
      { apply (NoDup_map_injective (fun kv => ToLower (snd kv)) table);
          [exact Hnd|exact Hkv|exact Hin|]. cbn [snd]. congruence. }
      now injection E as -> _.
Qed.

(** *** The loop over the stored records *)

Lemma Forall2_In_left {A B : Type} (R : A -> B -> Prop) (l : list A) (l' : list B)
    (x : A) :
  Forall2 R l l' -> In x l -> exists y, In y l' /\ R x y.
Proof.
  induction 1 as [|a b l l' Hab _ IH]; intros Hin; [contradiction|].
  destruct Hin as [->|Hin].
  - exists b. split; [now left|exact Hab].
  - destruct (IH Hin) as (y & Hy & Hxy). exists y. split; [now right|exact Hxy].
Qed.

Section Query.

Context {T : Toolchain}.
Variables (g : Globals) (resourceKindPlural resourceName : string).

Lemma queryRecord_selects (kindPluralMap : gomap string)
    (compositions : list Composition.t) (r : Provenance.t) :
  exists out,
    queryRecord kindPluralMap resourceKindPlural resourceName compositions r
    = Done (compositions ++ out)
    /\ Forall2 reconstructs
         (if answersb kindPluralMap resourceKindPlural resourceName r then [r] else [])
         out.
Proof.
  destruct (getComposition_total (ToLower (Provenance.Kind r))
              (ToLower (Provenance.Name r)) (Provenance.Status r) 1
              (Provenance.CompositionTree r) []) as (c & p & Hc).
  unfold queryRecord, answersb. rewrite Hc. cbn [bind].
  destruct (String.eqb (ToLower resourceName) "*");
    destruct (String.eqb (resolveKind kindPluralMap (ToLower resourceKindPlural))
                (ToLower (Provenance.Kind r)));
    destruct (String.eqb (ToLower resourceName) (ToLower (Provenance.Name r)));
    cbn [andb orb];
    first [ exists [c]; split; [reflexivity|];
            apply Forall2_cons; [now exists p|apply Forall2_nil]
          | exists []; split; [now rewrite app_nil_r|apply Forall2_nil] ].
Qed.

Lemma queryFrom_selects (records : list Provenance.t) :
  forall (i : nat) (compositions : list Composition.t),
  exists out,
    queryFrom g resourceKindPlural resourceName i records compositions
    = Done ((i + List.length records)%nat, compositions ++ out)
    /\ Forall2 reconstructs (selected g resourceKindPlural resourceName i records) out.
Proof.
  unfold queryFrom.
  induction records as [|r records IH]; intros i compositions;
    cbn [forRange selected List.length].
  - exists []. rewrite Nat.add_0_r, app_nil_r. split; [reflexivity|apply Forall2_nil].
  - destruct (queryRecord_selects (rangeOrder i (KindPluralMap g)) compositions r)
      as (out0 & -> & H0).
    cbn [bind]. destruct (IH (S i) (compositions ++ out0)) as (out & -> & H).
    exists (out0 ++ out). rewrite app_assoc, Nat.add_succ_r.
    split; [reflexivity|]. now apply Forall2_app.
Qed.

(** A record that passes the test in every order of the table is among
    the selected ones. *)
Lemma selected_In (records : list Provenance.t) (r : Provenance.t) :
  In r records ->
  (forall i, answersb (rangeOrder i (KindPluralMap g)) resourceKindPlural resourceName r
             = true) ->
  forall i, In r (selected g resourceKindPlural resourceName i records).
Proof.
  intros Hin Hr.
  induction records as [|r0 records IH]; intros i; [contradiction|].
  cbn [selected]. apply in_or_app. destruct Hin as [->|Hin].
  - left. rewrite Hr. now left.
  - right. now apply IH.
Qed.

(** A record that fails the test in every order of the table is not. *)
Lemma selected_none (records : list Provenance.t) :
  (forall r i, In r records ->
               answersb (rangeOrder i (KindPluralMap g)) resourceKindPlural resourceName r
               = false) ->
  forall i, selected g resourceKindPlural resourceName i records = [].
Proof.
  induction records as [|r records IH]; intros Hnone i; [reflexivity|].
  cbn [selected]. rewrite (Hnone r i (or_introl eq_refl)). cbn [app].
  apply IH. intros r' i' Hin. apply Hnone. now right.
Qed.

Hypothesis distinct : distinctPlurals g.

Lemma answersb_order (i : nat) (r : Provenance.t) :
  answersb (rangeOrder i (KindPluralMap g)) resourceKindPlural resourceName r
  = answersb (KindPluralMap g) resourceKindPlural resourceName r.
Proof.
  unfold answersb.
  now rewrite (resolveKind_order _ (KindPluralMap g) _ (rangeOrder_visits i _) distinct).
Qed.

Lemma selected_filter (records : list Provenance.t) :
  forall i,
    selected g resourceKindPlural resourceName i records
    = filter (answersb (KindPluralMap g) resourceKindPlural resourceName) records.
Proof.
  induction records as [|r records IH]; intros i; cbn [selected filter]; [reflexivity|].
  rewrite answersb_order, IH.
  now destruct (answersb (KindPluralMap g) resourceKindPlural resourceName r).
Qed.

(** With distinct plurals the loop is the one that visits the table in
    its own order every time. *)
Lemma queryFrom_order (records : list Provenance.t) :
  forall (i : nat) (compositions : list Composition.t),
    queryFrom g resourceKindPlural resourceName i records compositions
    = (compositions <-
         forRange records (queryRecord (KindPluralMap g) resourceKindPlural resourceName)
           compositions ;;
       Done ((i + List.length records)%nat, compositions)).
Proof.
  unfold queryFrom.
  induction records as [|r records IH]; intros i compositions;
    cbn [forRange List.length bind].
  - now rewrite Nat.add_0_r.
  - assert (E : queryRecord (rangeOrder i (KindPluralMap g)) resourceKindPlural
                  resourceName compositions r
                = queryRecord (KindPluralMap g) resourceKindPlural resourceName
                    compositions r).
    { unfold queryRecord.
      now rewrite (resolveKind_order _ (KindPluralMap g) _ (rangeOrder_visits i _)
                     distinct). }
    rewrite E.
    destruct (queryRecord (KindPluralMap g) resourceKindPlural resourceName
                compositions r) as [compositions'| | |]; cbn [bind]; try reflexivity.
    now rewrite IH, Nat.add_succ_r.
Qed.

End Query.

Lemma answersb_answers {T : Toolchain} (kindPluralMap : gomap string)
    (plural name : string) (r : Provenance.t) :
  answersb kindPluralMap plural name r = true <-> answers kindPluralMap plural name r.
Proof.
  unfold answersb, answers.
  rewrite andb_true_iff, orb_true_iff, !String.eqb_eq. tauto.
Qed.

(** With the mutex free [GetProvenance] is the loop and the serialisation,
    and it leaves the store as it was. *)
Lemma GetProvenance_free {T : Toolchain} (g : Globals) (resourceKind resourceName : string)
    (cp : ClusterProvenance) :
  mux cp = false ->
  GetProvenance g resourceKind resourceName cp
  = (compositions <- queryRecords g resourceKind resourceName (clusterProvenance cp) ;;
     Done (Marshal compositions, cp)).
Proof.
  intros Hfree. unfold GetProvenance, Lock. rewrite Hfree.
  cbn [bind clusterProvenance]. unfold Unlock. cbn [clusterProvenance].
  destruct cp as [m records]. cbn in Hfree. now subst.
Qed.

(** With distinct plurals a query is the loop that visits the table in its
    own order. *)
Lemma queryRecords_order {T : Toolchain} (g : Globals) (resourceKind resourceName : string)
    (records : list Provenance.t) :
  distinctPlurals g ->
  queryRecords g resourceKind resourceName records
  = forRange records
      (queryRecord (KindPluralMap g) (mapGet resourceKind (KindPluralMap g)) resourceName)
      [].
Proof.
  intros Hdistinct. unfold queryRecords.
  rewrite (queryFrom_order g _ resourceName Hdistinct).
  now destruct (forRange records _ []).
Qed.

Lemma Unlock_Lock_free (cp cp1 : ClusterProvenance) :
  mux cp = false -> Lock cp = Done cp1 -> Unlock cp1 = cp.
Proof.
  unfold Lock, Unlock. intros Hfree. rewrite Hfree. intros H. injection H as <-.
  destruct cp as [m records]. cbn in *. now subst.
Qed.

(** The plurals of the two sample schemas are distinct. *)
Lemma builtin_distinctPlurals {T : Toolchain} : distinctPlurals builtinGlobals.
Proof. unfold distinctPlurals. cbn. distinct_keys. Qed.

Lemma ab_distinctPlurals {T : Toolchain} : distinctPlurals abGlobals.
Proof. unfold distinctPlurals. cbn. distinct_keys. Qed.

(** C1 (amended).  The query kind indexes the plural-name table as it is
    written, so it must be a key of the table; the plural it gives then
    leads back to a kind, and that kind and the name are compared with the
    stored ones without regard to letter case, in ASCII and outside it.
    When the plural of the query kind belongs (letter case aside) to that
    kind only, the query returns every stored record whose kind and name
    differ from the query's in letter case at most, whatever the Unicode
    tables of the toolchain and in whatever order the table is visited. *)
Theorem query_ignores_case_of_name {T : Toolchain} (g : Globals) (cp : ClusterProvenance)
    (r : Provenance.t) (resourceKind resourceName plural : string) :
  mux cp = false ->
  In r (clusterProvenance cp) ->
  mapLookup resourceKind (KindPluralMap g) = Some plural ->
  (forall key value,
      In (key, value) (KindPluralMap g) -> ToLower value = ToLower plural ->
      ToLower key = ToLower resourceKind) ->
  ToLower (Provenance.Kind r) = ToLower resourceKind ->
  ToLower (Provenance.Name r) = ToLower resourceName ->
  returnsRecord g resourceKind resourceName cp r.
Proof.
  intros Hfree Hin Hplural Hunique Hkind Hname.
  assert (Hanswers : forall i,
             answersb (rangeOrder i (KindPluralMap g)) plural resourceName r = true).
  { intros i. apply answersb_answers. split; [|now right].
    rewrite Hkind. apply resolveKind_unique.
    - exists resourceKind, plural. split; [|now rewrite ToLower_idempotent].
      apply (Permutation_in _ (Permutation_sym (rangeOrder_visits i _))).
      now apply mapLookup_In.
    - intros key value Hkv Hv. rewrite ToLower_idempotent in Hv.
      apply (Hunique key value); [|exact Hv].
      exact (Permutation_in _ (rangeOrder_visits i _) Hkv). }
  destruct (queryFrom_selects g plural resourceName (clusterProvenance cp) 0 [])
    as (out & Hloop & Hout).
  pose proof (selected_In g plural resourceName (clusterProvenance cp) r Hin Hanswers 0)
    as Hselected.
  destruct (Forall2_In_left _ _ _ _ Hout Hselected) as (c & Hcin & p & Hc).
  exists c, p, out, cp. split; [exact Hc|]. split; [exact Hcin|].
  rewrite (GetProvenance_free g resourceKind resourceName cp Hfree).
  unfold queryRecords, mapGet. rewrite Hplural, Hloop. reflexivity.
Qed.

Lemma query_ignores_case_of_name_witness :
  returnsRecord (T := sampleToolchain) builtinGlobals "Deployment" "MyApp" myappStore
    (Provenance.mk "Deployment" "myapp" "Ready" [])
  /\ returnsRecord (T := sampleToolchain) builtinGlobals "Deployment" lowerEte eteStore
       (Provenance.mk "Deployment" upperEte "Ready" []).
Proof.
  split.
  - apply (query_ignores_case_of_name (T := sampleToolchain) builtinGlobals myappStore
             (Provenance.mk "Deployment" "myapp" "Ready" []) "Deployment" "MyApp"
             "deployments").
    + reflexivity.
    + now left.
    + reflexivity.
    + intros key value Hin Hv. cbn in Hin.
      repeat (destruct Hin as [Hin|Hin];
              [injection Hin as <- <-; first [reflexivity|discriminate]|]).
      contradiction.
    + reflexivity.
    + reflexivity.
  - apply (query_ignores_case_of_name (T := sampleToolchain) builtinGlobals eteStore
             (Provenance.mk "Deployment" upperEte "Ready" []) "Deployment" lowerEte
             "deployments").
    + reflexivity.
    + now left.
    + reflexivity.
    + intros key value Hin Hv. cbn in Hin.
      repeat (destruct Hin as [Hin|Hin];
              [injection Hin as <- <-; first [reflexivity|discriminate]|]).
      contradiction.
    + reflexivity.
    + reflexivity.
Defined.

Lemma Marshal_empty {T : Toolchain} (compositions : list Composition.t) :
  Marshal compositions = "[]" -> compositions = [].
Proof.
  destruct compositions as [|[level kind name status children] rest];
    [reflexivity|].
  destruct rest; cbn; discriminate.
Qed.

(** C1, as stated, fails, under every toolchain: with the built-in table
    the query for kind [deployment] and name [MyApp] does not return the
    stored record of kind [Deployment] and name [myapp]; the lower-case
    kind is not a key of the table, its plural reads as the empty string,
    and the answer is the empty array. *)
Lemma lowercase_kind_is_not_found :
  ~ (exists T : Toolchain,
        forall (g : Globals) (cp : ClusterProvenance) (r : Provenance.t)
               (resourceKind resourceName : string),
          mux cp = false ->
          In r (clusterProvenance cp) ->
          ToLower resourceKind = ToLower (Provenance.Kind r) ->
          ToLower resourceName = ToLower (Provenance.Name r) ->
          returnsRecord g resourceKind resourceName cp r).
Proof.
  intros (T & Hclaim).
  destruct (Hclaim builtinGlobals myappStore
              (Provenance.mk "Deployment" "myapp" "Ready" []) "deployment" "MyApp"
              eq_refl (or_introl eq_refl) eq_refl eq_refl)
    as (c & p & compositions & cp' & _ & Hin & Hquery).
  assert (Hrun : GetProvenance builtinGlobals "deployment" "MyApp" myappStore
                 = Done ("[]", myappStore)).
  { rewrite GetProvenance_free by reflexivity.
    rewrite queryRecords_order by apply builtin_distinctPlurals.
    reflexivity. }
  assert (Hout : Marshal compositions = "[]") by congruence.
  apply Marshal_empty in Hout. subst compositions. contradiction.
Qed.

(** C3 (amended).  For the schema with [A] composed of [B], one [A] named
    [a1] and one [B] named [b1] owned by it, building, storing and querying
    [(A, a1)] yields the nested tree with the kind of the root in lower
    case and a [Status] field in every node (empty here, as neither
    instance reports a status). *)
Theorem round_trip {T : Toolchain} :
  roundTripStore
  = Done (mkCP false
            [Provenance.mk "A" "a1" ""
               [TreeNode.mk 2 "B"
                  [MetaData.mk "b1" "a1" "A" "example.org/v1" ""]]])
  /\ roundTripTrees
     = Done [Composition.mk 1 "a" "a1" "" [Composition.mk 2 "B" "b1" "" []]]
  /\ roundTrip
     = Done (fromApostrophes
               "[{'Level':1,'Kind':'a','Name':'a1','Status':'','Children':[{'Level':2,'Kind':'B','Name':'b1','Status':'','Children':[]}]}]").
Proof.
  assert (Hstore : roundTripStore
                   = Done (mkCP false
                             [Provenance.mk "A" "a1" ""
                                [TreeNode.mk 2 "B"
                                   [MetaData.mk "b1" "a1" "A" "example.org/v1" ""]]]))
    by (vm_compute; reflexivity).
  split; [exact Hstore|]. split.
  - unfold roundTripTrees. rewrite Hstore. cbn [bind clusterProvenance].
    rewrite queryRecords_order by apply ab_distinctPlurals.
    vm_compute. reflexivity.
  - unfold roundTrip. rewrite Hstore. cbn [bind].
    rewrite GetProvenance_free by reflexivity. cbn [clusterProvenance].
    rewrite queryRecords_order by apply ab_distinctPlurals.
    vm_compute. reflexivity.
Qed.

(** C3, as stated, fails, under every toolchain: the text of the claim,
    with the root kind [A] and no [Status] fields, is not what the query
    returns. *)
Lemma round_trip_is_not_the_claimed_text :
  ~ (exists T : Toolchain,
        roundTrip
        = Done (fromApostrophes
                  "[{'Level':1,'Kind':'A','Name':'a1','Children':[{'Level':2,'Kind':'B','Name':'b1','Children':[]}]}]")).
Proof.
  intros (T & Hclaim). revert Hclaim. unfold roundTrip.
  assert (Hstore : roundTripStore
                   = Done (mkCP false
                             [Provenance.mk "A" "a1" ""
                                [TreeNode.mk 2 "B"
                                   [MetaData.mk "b1" "a1" "A" "example.org/v1" ""]]]))
    by (vm_compute; reflexivity).
  rewrite Hstore. cbn [bind].
  rewrite GetProvenance_free by reflexivity. cbn [clusterProvenance].
  rewrite queryRecords_order by apply ab_distinctPlurals.
  vm_compute. discriminate.
Qed.

(** * Further properties *)

(** ** [filterChildren] *)

Lemma filterChildren_step_incl (parent : string) (l : list MetaData.t) :
  forall acc x,
    In x acc ->
    In x (fold_left
            (fun metaDataSliceToReturn metaDataRef =>
               if String.eqb (MetaData.OwnerReferenceName metaDataRef) parent
               then
                 let present :=
                   existsb (fun node => String.eqb (MetaData.MetaDataName node)
                                          (MetaData.MetaDataName metaDataRef))
                     metaDataSliceToReturn in
                 if negb present then metaDataSliceToReturn ++ [metaDataRef]
                 else metaDataSliceToReturn
               else metaDataSliceToReturn)
            l acc).
Proof.
  induction l as [|y l IH]; intros acc x Hx; cbn [fold_left]; [exact Hx|].
  apply IH.
  destruct (String.eqb (MetaData.OwnerReferenceName y) parent); [|exact Hx].
  cbv zeta. destruct (negb _); [|exact Hx]. apply in_or_app. now left.
Qed.

Lemma filterChildren_loop (parent : string) (l : list MetaData.t) :
  forall acc,
    NoDup (map MetaData.MetaDataName acc) ->
    let result :=
      fold_left
        (fun metaDataSliceToReturn metaDataRef =>
           if String.eqb (MetaData.OwnerReferenceName metaDataRef) parent
           then
             let present :=
               existsb (fun node => String.eqb (MetaData.MetaDataName node)
                                      (MetaData.MetaDataName metaDataRef))
                 metaDataSliceToReturn in
             if negb present then metaDataSliceToReturn ++ [metaDataRef]
             else metaDataSliceToReturn
           else metaDataSliceToReturn)
        l acc in
    (forall x, In x result ->
               In x acc \/ (In x l /\ MetaData.OwnerReferenceName x = parent))
    /\ NoDup (map MetaData.MetaDataName result)
    /\ (forall x, In x l -> MetaData.OwnerReferenceName x = parent ->
                  In (MetaData.MetaDataName x) (map MetaData.MetaDataName result)).
Proof.
  induction l as [|y l IH]; intros acc Hnd; cbn [fold_left].
  - split; [now left|]. split; [exact Hnd|]. intros x [].
  - destruct (String.eqb_spec (MetaData.OwnerReferenceName y) parent) as [Eowner|Eowner].
    + cbv zeta.
      destruct (existsb (fun node => String.eqb (MetaData.MetaDataName node)
                                       (MetaData.MetaDataName y)) acc) eqn:Epresent;
        cbn [negb].
      * destruct (IH acc Hnd) as (Hfrom & Hdistinct & Hall).
        split; [|split; [exact Hdistinct|]].
        -- intros x Hx. destruct (Hfrom x Hx) as [Hacc|[Hl Ho]]; [now left|].
           right. split; [now right|exact Ho].
        -- intros x [<-|Hx] Ho; [|now apply Hall].
           apply existsb_exists in Epresent. destruct Epresent as (node & Hnode & Ename).
           apply String.eqb_eq in Ename. rewrite <- Ename.
           apply in_map. now apply filterChildren_step_incl.
      * assert (Hnd' : NoDup (map MetaData.MetaDataName (acc ++ [y]))).
        { rewrite map_app. cbn [map]. apply NoDup_app; [exact Hnd| |].
          - apply NoDup_cons; [intros []|apply NoDup_nil].
          - intros name Hin [<-|[]].
            apply in_map_iff in Hin. destruct Hin as (node & Ename & Hnode).
            assert (Hfound : existsb
                               (fun node0 => String.eqb (MetaData.MetaDataName node0)
                                               (MetaData.MetaDataName y)) acc = true).
            { apply existsb_exists. exists node. split; [exact Hnode|].
              now apply String.eqb_eq. }
            congruence. }
        destruct (IH (acc ++ [y]) Hnd') as (Hfrom & Hdistinct & Hall).
        split; [|split; [exact Hdistinct|]].
        -- intros x Hx. destruct (Hfrom x Hx) as [Hacc|[Hl Ho]].
           ++ apply in_app_or in Hacc. destruct Hacc as [Hacc|[<-|[]]]; [now left|].
              right. split; [now left|exact Eowner].
           ++ right. split; [now right|exact Ho].
        -- intros x [<-|Hx] Ho; [|now apply Hall].
           apply in_map. apply filterChildren_step_incl. apply in_or_app.
           right. now left.
    + destruct (IH acc Hnd) as (Hfrom & Hdistinct & Hall).
      split; [|split; [exact Hdistinct|]].
      * intros x Hx. destruct (Hfrom x Hx) as [Hacc|[Hl Ho]]; [now left|].
        right. split; [now right|exact Ho].
      * intros x [<-|Hx] Ho; [contradiction|now apply Hall].
Qed.

(** X1.  [filterChildren] returns only instances of the listing whose owner
    reference names the parent, never two of the same name, and the name of
    every such instance of the listing is among them; of several instances
    with one name the first of the listing is the one kept. *)
Theorem filterChildren_owned_distinct (metaDataSlice : list MetaData.t)
    (parentResourceName : string) :
  (forall x, In x (filterChildren metaDataSlice parentResourceName) ->
             In x metaDataSlice /\ MetaData.OwnerReferenceName x = parentResourceName)
  /\ NoDup (map MetaData.MetaDataName (filterChildren metaDataSlice parentResourceName))
  /\ (forall x, In x metaDataSlice ->
                MetaData.OwnerReferenceName x = parentResourceName ->
                In (MetaData.MetaDataName x)
                  (map MetaData.MetaDataName
                     (filterChildren metaDataSlice parentResourceName)))
  /\ (forall before x after,
         metaDataSlice = before ++ x :: after ->
         MetaData.OwnerReferenceName x = parentResourceName ->
         (forall y, In y before ->
                    MetaData.OwnerReferenceName y = parentResourceName ->
                    MetaData.MetaDataName y <> MetaData.MetaDataName x) ->
         In x (filterChildren metaDataSlice parentResourceName)).
Proof.
  destruct (filterChildren_loop parentResourceName metaDataSlice [] (NoDup_nil _))
    as (Hfrom & Hdistinct & Hall).
  split; [|split; [exact Hdistinct|split; [exact Hall|]]].
  - intros x Hx. destruct (Hfrom x Hx) as [[]|H]. exact H.
  - intros before x after -> Howner Hfirst.
    unfold filterChildren. rewrite fold_left_app. cbn [fold_left].
    destruct (filterChildren_loop parentResourceName before [] (NoDup_nil _))
      as (Hfrom' & _ & _).
    apply filterChildren_step_incl.
    rewrite Howner, String.eqb_refl. cbv zeta.
    match goal with
    | |- In x (if negb (existsb ?f ?acc) then _ else _) =>
        destruct (existsb f acc) eqn:Epresent
    end; cbn [negb].
    + exfalso. apply existsb_exists in Epresent.
      destruct Epresent as (node & Hnode & Ename). apply String.eqb_eq in Ename.
      destruct (Hfrom' node Hnode) as [[]|[Hin Ho]].
      exact (Hfirst node Hin Ho Ename).
    + apply in_or_app. right. now left.
Qed.

(** ** The store: lookups and identities *)

Lemma identity_overwrite (topLevelObject : MetaData.t) (kind name : string)
    (tree : list TreeNode.t) (prov : Provenance.t) :
  identity (overwrite topLevelObject kind name tree prov) = identity prov.
Proof. unfold overwrite. now destruct (sameIdentity kind name prov). Qed.

Lemma sameIdentity_identity (kind name : string) (prov : Provenance.t) :
  sameIdentity kind name prov = true <-> identity prov = (kind, name).
Proof.
  unfold sameIdentity, identity. rewrite andb_true_iff, !String.eqb_eq. split.
  - intros [-> ->]. reflexivity.
  - intros E. injection E as -> ->. now split.
Qed.

Lemma existsb_identity (kind name : string) (records : list Provenance.t) :
  existsb (sameIdentity kind name) records = true
  <-> In (kind, name) (map identity records).
Proof.
  rewrite existsb_exists, in_map_iff. split.
  - intros (r & Hr & E). exists r. split; [|exact Hr]. now apply sameIdentity_identity.
  - intros (r & E & Hr). exists r. split; [exact Hr|]. now apply sameIdentity_identity.
Qed.

(** The identities in the collection after [storeProvenance]: the old ones,
    in the old order, followed by the stored one when it is new. *)
Lemma storeRecords_identities (topLevelObject : MetaData.t) (kind name : string)
    (tree : list TreeNode.t) (records : list Provenance.t) :
  map identity (storeRecords topLevelObject kind name tree records)
  = if existsb (sameIdentity kind name) records
    then map identity records
    else map identity records ++ [(kind, name)].
Proof.
  rewrite storeRecords_cases.
  destruct (existsb (sameIdentity kind name) records).
  - rewrite map_map. apply map_ext. intros r. apply identity_overwrite.
  - now rewrite map_app.
Qed.

(** X2.  What [storeProvenance] stores, [checkIfProvenanceNeeded] finds:
    after storing under a kind and name the check for that kind and name
    answers [false], and the check for any other kind or name answers what
    it answered before. *)
Theorem stored_is_not_needed (topLevelObject : MetaData.t) (kind name : string)
    (tree : list TreeNode.t) (cp : ClusterProvenance) :
  mux cp = false ->
  exists cp1,
    storeProvenance topLevelObject kind name tree cp = Done cp1
    /\ checkIfProvenanceNeeded kind name cp1 = Done (false, cp1)
    /\ forall kind' name' needed,
         (kind', name') <> (kind, name) ->
         checkIfProvenanceNeeded kind' name' cp = Done (needed, cp) ->
         checkIfProvenanceNeeded kind' name' cp1 = Done (needed, cp1).
Proof.
  intros Hfree. unfold storeProvenance, Lock. rewrite Hfree. cbn [bind mux].
  eexists. split; [reflexivity|].
  assert (Hcheck : forall k n records,
             existsb (fun provenanceItem =>
                        String.eqb k (Provenance.Kind provenanceItem)
                        && String.eqb n (Provenance.Name provenanceItem)) records
             = existsb (sameIdentity k n) records).
  { intros k n records. induction records as [|r records IH]; cbn [existsb];
      [reflexivity|].
    rewrite IH. unfold sameIdentity.
    now rewrite (String.eqb_sym k), (String.eqb_sym n). }
  unfold checkIfProvenanceNeeded, Lock, Unlock. cbn [mux clusterProvenance bind].
  rewrite !Hcheck. split.
  - assert (Hin : existsb (sameIdentity kind name)
                    (storeRecords topLevelObject kind name tree (clusterProvenance cp))
                  = true).
    { apply existsb_identity. rewrite storeRecords_identities.
      destruct (existsb (sameIdentity kind name) (clusterProvenance cp)) eqn:E.
      - now apply existsb_identity.
      - apply in_or_app. right. now left. }
    now rewrite Hin.
  - intros kind' name' needed Hother. rewrite Hfree. cbn [bind]. rewrite !Hcheck.
    intros Hbefore.
    assert (Hsame : existsb (sameIdentity kind' name')
                      (storeRecords topLevelObject kind name tree (clusterProvenance cp))
                    = existsb (sameIdentity kind' name') (clusterProvenance cp)).
    { apply eq_true_iff_eq. rewrite !existsb_identity, storeRecords_identities.
      destruct (existsb (sameIdentity kind name) (clusterProvenance cp));
        [reflexivity|].
      rewrite in_app_iff. cbn [In]. split; [|now left].
      intros [H|[H|[]]]; [exact H|]. now symmetry in H. }
    rewrite Hsame. injection Hbefore as -> _. reflexivity.
Qed.

Lemma stored_is_not_needed_witness :
  exists cp1,
    storeProvenance (MetaData.mk "cache" "" "" "" "Running") "Pod" "cache" [] sampleStore
    = Done cp1
    /\ checkIfProvenanceNeeded "Pod" "cache" sampleStore = Done (true, sampleStore)
    /\ checkIfProvenanceNeeded "Pod" "cache" cp1 = Done (false, cp1)
    /\ checkIfProvenanceNeeded "Deployment" "cache" cp1 = Done (true, cp1).
Proof.
  destruct (stored_is_not_needed (MetaData.mk "cache" "" "" "" "Running") "Pod" "cache"
              [] sampleStore eq_refl) as (cp1 & Hstore & Hfound & Hothers).
  exists cp1. split; [exact Hstore|]. split; [reflexivity|]. split; [exact Hfound|].
  apply Hothers; [discriminate|reflexivity].
Defined.

(** X3.  [storeProvenance] keeps the identities of the collection unique:
    when no two records shared a kind and name before the call, none do
    after it. *)
Theorem storeProvenance_keeps_identities_unique (topLevelObject : MetaData.t)
    (kind name : string) (tree : list TreeNode.t) (cp : ClusterProvenance) :
  mux cp = false ->
  uniqueIdentities (clusterProvenance cp) ->
  exists cp1,
    storeProvenance topLevelObject kind name tree cp = Done cp1
    /\ uniqueIdentities (clusterProvenance cp1).
Proof.
  intros Hfree Hunique. unfold storeProvenance, Lock. rewrite Hfree. cbn [bind mux].
  eexists. split; [reflexivity|].
  unfold uniqueIdentities, Unlock. cbn [clusterProvenance].
  rewrite storeRecords_identities.
  destruct (existsb (sameIdentity kind name) (clusterProvenance cp)) eqn:E;
    [exact Hunique|].
  apply NoDup_app; [exact Hunique|apply NoDup_cons; [intros []|apply NoDup_nil]|].
  intros id Hin [<-|[]].
  apply existsb_identity in Hin. congruence.
Qed.

Lemma storeProvenance_keeps_identities_unique_witness :
  uniqueIdentities (clusterProvenance sampleStore)
  /\ exists cp1,
       storeProvenance (MetaData.mk "web" "" "" "" "Ready") "Deployment" "web" sampleTree
         sampleStore = Done cp1
       /\ uniqueIdentities (clusterProvenance cp1).
Proof.
  assert (Hunique : uniqueIdentities (clusterProvenance sampleStore)).
  { unfold uniqueIdentities. cbn.
    repeat (apply NoDup_cons; [cbn; intuition discriminate|]). apply NoDup_nil. }
  split; [exact Hunique|].
  exact (storeProvenance_keeps_identities_unique (MetaData.mk "web" "" "" "" "Ready")
           "Deployment" "web" sampleTree sampleStore eq_refl Hunique).
Defined.

(** ** The refresh pass *)

(** What holds before a loop and is kept by every iteration that returns
    holds after the loop, if it returns. *)
Lemma forRange_preserves {A S : Type} (P : S -> Prop) (l : list A)
    (body : S -> A -> Outcome S) :
  (forall s x s', In x l -> P s -> body s x = Done s' -> P s') ->
  forall s s', P s -> forRange l body s = Done s' -> P s'.
Proof.
  induction l as [|x l IH]; intros Hbody s s' Hs Hrun; cbn [forRange] in Hrun.
  - now injection Hrun as <-.
  - destruct (body s x) as [s1| | |] eqn:Ex; try discriminate. cbn [bind] in Hrun.
    apply (IH (fun s0 y s0' Hy => Hbody s0 y s0' (or_intror Hy)) s1 s');
      [|exact Hrun].
    exact (Hbody s x s1 (or_introl eq_refl) Hs Ex).
Qed.

Lemma storeRecords_unique (topLevelObject : MetaData.t) (kind name : string)
    (tree : list TreeNode.t) (records : list Provenance.t) :
  uniqueIdentities records ->
  uniqueIdentities (storeRecords topLevelObject kind name tree records).
Proof.
  intros Hunique. unfold uniqueIdentities. rewrite storeRecords_identities.
  destruct (existsb (sameIdentity kind name) records) eqn:E; [exact Hunique|].
  apply NoDup_app; [exact Hunique|apply NoDup_cons; [intros []|apply NoDup_nil]|].
  intros id Hin [<-|[]]. apply existsb_identity in Hin. congruence.
Qed.

Lemma NoDup_map_filter {A B : Type} (f : A -> B) (keep : A -> bool) (l : list A) :
  NoDup (map f l) -> NoDup (map f (filter keep l)).
Proof.
  induction l as [|x l IH]; cbn [map filter]; intros Hnd; [exact Hnd|].
  inversion Hnd as [|? ? Hnotin Hnd']; subst.
  destruct (keep x); [|now apply IH].
  cbn [map]. apply NoDup_cons; [|now apply IH].
  intros Hin. apply Hnotin. apply in_map_iff in Hin.
  destruct Hin as (y & Ey & Hy). apply filter_In in Hy.
  rewrite <- Ey. apply in_map. apply Hy.
Qed.

Lemma purgeRecords_filter (seen : list MetaData.t) (records : list Provenance.t) :
  NoDup (map MetaData.MetaDataName seen) ->
  purgeRecords seen records
  = filter (fun r => existsb (String.eqb (Provenance.Name r))
                       (map MetaData.MetaDataName seen))
      records.
Proof.
  intros Hnd. rewrite purgeRecords_flat_map.
  induction records as [|prov records IH]; cbn [flat_map filter]; [reflexivity|].
  rewrite IH, occurrences_once by assumption.
  now destruct (existsb (String.eqb (Provenance.Name prov))
                  (map MetaData.MetaDataName seen)).
Qed.

(** X4.  A refresh pass keeps the identities of the store unique: when no
    two records shared a kind and name before the pass, none do in the
    store the pass returns. *)
Theorem refreshCycle_keeps_identities_unique {W} (cl : Cluster W) (g : Globals)
    (depth : nat) (cp cp' : ClusterProvenance) (w w' : W) :
  uniqueIdentities (clusterProvenance cp) ->
  refreshCycle cl g depth cp w = Done (cp', w') ->
  uniqueIdentities (clusterProvenance cp').
Proof.
  intros Hunique. unfold refreshCycle.
  match goal with
  | |- context [forRange ?l ?body ?init] =>
      destruct (forRange l body init) as [[[seen cp1] w1]| | |] eqn:Escan
  end; cbn [bind]; try discriminate.
  unfold purgeCompositionOfDeletedItems. cbn [bind]. intros Hrun.
  injection Hrun as <- _. cbn [clusterProvenance].
  apply (forRange_preserves
           (fun s : list MetaData.t * ClusterProvenance * W =>
              NoDup (map MetaData.MetaDataName (fst (fst s)))
              /\ uniqueIdentities (clusterProvenance (snd (fst s)))))
    in Escan; cbn [fst snd clusterProvenance map].
  - destruct Escan as [Hseen Hcp1]. cbn [fst snd] in Hseen, Hcp1.
    rewrite (purgeRecords_filter _ _ Hseen). now apply NoDup_map_filter.
  - clear. intros [[seen cp] w] kind [[seen' cp'] w'] _ [Hseen Hcp].
    cbn [fst snd] in Hseen, Hcp.
    destruct (getResourceNames cl g kind w) as [[found w0]| | |];
      cbn [bind]; try discriminate.
    match goal with
    | |- context [forRange found ?body ?init] =>
        destruct (forRange found body init) as [[cp1 w1]| | |] eqn:Estore
    end; cbn [bind]; try discriminate.
    intros Hstep. injection Hstep as <- <- _. cbn [fst snd]. split.
    + now apply collectSeen_NoDup.
    + apply (forRange_preserves
               (fun s : ClusterProvenance * W =>
                  uniqueIdentities (clusterProvenance (fst s))))
        in Estore; [exact Estore| |exact Hcp].
      clear. intros [cp w] topLevelObject [cp' w'] _ Hcp. cbn [fst] in Hcp.
      destruct (buildProvenance cl g depth kind _ 1 [] w) as [[tree w0]| | |];
        cbn [bind]; try discriminate.
      unfold storeProvenance, Lock.
      destruct (mux cp); cbn [bind]; [discriminate|].
      intros Hstep. injection Hstep as <- _. cbn [fst clusterProvenance Unlock].
      now apply storeRecords_unique.
  - split; [apply NoDup_nil|exact Hunique].
Qed.

Lemma refreshCycle_keeps_identities_unique_witness :
  uniqueIdentities (clusterProvenance sampleStore)
  /\ refreshCycle quietCluster builtinGlobals 3 sampleStore tt
     = Done (mkCP false
               [Provenance.mk "Deployment" "web" "Ready" [TreeNode.mk 2 "ReplicaSet" []];
                Provenance.mk "Pod" "web" "Running" []],
             tt)
  /\ uniqueIdentities
       [Provenance.mk "Deployment" "web" "Ready" [TreeNode.mk 2 "ReplicaSet" []];
        Provenance.mk "Pod" "web" "Running" []].
Proof.
  assert (Hunique : uniqueIdentities (clusterProvenance sampleStore)).
  { unfold uniqueIdentities. cbn.
    repeat (apply NoDup_cons; [cbn; intuition discriminate|]). apply NoDup_nil. }
  assert (Hrun : refreshCycle quietCluster builtinGlobals 3 sampleStore tt
                 = Done (mkCP false
                           [Provenance.mk "Deployment" "web" "Ready"
                              [TreeNode.mk 2 "ReplicaSet" []];
                            Provenance.mk "Pod" "web" "Running" []],
                         tt)) by (vm_compute; reflexivity).
  split; [exact Hunique|]. split; [exact Hrun|].
  exact (refreshCycle_keeps_identities_unique quietCluster builtinGlobals 3 sampleStore
           _ tt tt Hunique Hrun).
Defined.

(** A loop reaches [Q] when the iteration for [x] establishes it and the
    others keep it, all under an invariant [P]. *)
Lemma forRange_reaches {A S : Type} (P Q : S -> Prop) (l : list A)
    (body : S -> A -> Outcome S) (x : A) :
  In x l ->
  (forall s y s', P s -> body s y = Done s' -> P s') ->
  (forall s s', P s -> body s x = Done s' -> Q s') ->
  (forall s y s', P s -> Q s -> body s y = Done s' -> Q s') ->
  forall s s', P s -> forRange l body s = Done s' -> Q s'.
Proof.
  intros Hx HP Hestablish Hkeep.
  induction l as [|y l IH]; [contradiction|].
  intros s s' Hs Hrun. cbn [forRange] in Hrun.
  destruct (body s y) as [s1| | |] eqn:Ey; try discriminate. cbn [bind] in Hrun.
  destruct Hx as [->|Hx].
  - pose proof (HP s x s1 Hs Ey) as Hs1.
    pose proof (Hestablish s s1 Hs Ey) as Hq1.
    apply (forRange_preserves (fun s0 => P s0 /\ Q s0) l body) with (s := s1);
      [|now split|exact Hrun].
    intros s0 z s0' _ [Hp Hq] Hz. split; [exact (HP _ _ _ Hp Hz)|].
    exact (Hkeep _ _ _ Hp Hq Hz).
  - exact (IH Hx s1 s' (HP s y s1 Hs Ey) Hrun).
Qed.

Lemma steady_getResourceListContent {W} (cl : Cluster W) (g : Globals)
    (apiVersion plural : string) (w w' : W) (content : Content) :
  steady cl w ->
  getResourceListContent cl g apiVersion plural w = Done (content, w') -> w' = w.
Proof.
  intros Hsteady. unfold getResourceListContent, getToken, getCACert.
  destruct (ReadFile cl w _); [|discriminate]. cbn [bind].
  destruct (ReadFile cl w _); [|discriminate]. cbn [bind].
  destruct (url_Parse cl _) as [u|]; [|discriminate].
  destruct (http_NewRequest cl _ u); [|discriminate].
  specialize (Hsteady u s s0).
  destruct (client_Do cl w u s s0) as [[body|] w1]; [|discriminate].
  cbn [snd] in Hsteady. intros H. injection H as _ <-. exact Hsteady.
Qed.

Lemma steady_getResourceNames {W} (cl : Cluster W) (g : Globals) (kind : string)
    (w w' : W) (found : list MetaData.t) :
  steady cl w -> getResourceNames cl g kind w = Done (found, w') -> w' = w.
Proof.
  intros Hsteady. unfold getResourceNames.
  destruct (getResourceListContent cl g _ _ w) as [[content w1]| | |] eqn:E;
    cbn [bind]; try discriminate.
  apply (steady_getResourceListContent _ _ _ _ _ _ _ Hsteady) in E. subst w1.
  destruct (parseMetaData content); cbn [bind]; try discriminate.
  intros H. now injection H as _ <-.
Qed.

Lemma steady_buildProvenance {W} (cl : Cluster W) (g : Globals) (w : W) (depth : nat) :
  steady cl w ->
  forall kind name level tree tree' w',
    buildProvenance cl g depth kind name level tree w = Done (tree', w') -> w' = w.
Proof.
  intros Hsteady. induction depth as [|depth IH];
    intros kind name level tree tree' w'; cbn [buildProvenance]; [discriminate|].
  destruct (mapLookup kind (compositionMap g)) as [children|];
    [|intros H; now injection H as _ <-].
  intros Hrun.
  apply (forRange_preserves (fun s : list TreeNode.t * W => snd s = w)) in Hrun;
    [exact Hrun| |reflexivity].
  clear Hrun. intros [t0 w0] child [t1 w1] _ Hw0. cbn [snd] in Hw0. subst w0.
  destruct (getResourceListContent cl g _ _ w) as [[content w2]| | |] eqn:E;
    cbn [bind]; try discriminate.
  apply (steady_getResourceListContent _ _ _ _ _ _ _ Hsteady) in E. subst w2.
  destruct (parseMetaData content) as [found| | |]; cbn [bind]; try discriminate.
  intros Hinner.
  apply (forRange_preserves (fun s : list TreeNode.t * W => snd s = w)) in Hinner;
    [exact Hinner| |reflexivity].
  clear Hinner. intros [t2 w2] ref [t3 w3] _ Hw2. cbn [snd] in Hw2. subst w2.
  cbn [snd]. apply IH.
Qed.

Lemma storeRecords_keeps_identity (topLevelObject : MetaData.t) (kind name : string)
    (tree : list TreeNode.t) (records : list Provenance.t) (id : string * string) :
  In id (map identity records) ->
  In id (map identity (storeRecords topLevelObject kind name tree records)).
Proof.
  rewrite storeRecords_identities.
  destruct (existsb (sameIdentity kind name) records); [trivial|].
  intros H. apply in_or_app. now left.
Qed.

Lemma storeRecords_has_identity (topLevelObject : MetaData.t) (kind name : string)
    (tree : list TreeNode.t) (records : list Provenance.t) :
  In (kind, name) (map identity (storeRecords topLevelObject kind name tree records)).
Proof.
  rewrite storeRecords_identities.
  destruct (existsb (sameIdentity kind name) records) eqn:E.
  - now apply existsb_identity.
  - apply in_or_app. right. now left.
Qed.

Lemma collectSeen_names (found : list MetaData.t) :
  forall seen name,
    In name (map MetaData.MetaDataName (collectSeen seen found))
    <-> In name (map MetaData.MetaDataName seen)
        \/ In name (map MetaData.MetaDataName found).
Proof.
  unfold collectSeen.
  induction found as [|resource found IH]; intros seen name; cbn [fold_left map In].
  - tauto.
  - rewrite IH.
    destruct (existsb (fun res => String.eqb (MetaData.MetaDataName res)
                                    (MetaData.MetaDataName resource)) seen)
      eqn:Epresent; cbn [negb].
    + apply existsb_exists in Epresent. destruct Epresent as (res & Hres & E).
      apply String.eqb_eq in E.
      assert (In (MetaData.MetaDataName resource) (map MetaData.MetaDataName seen))
        by (rewrite <- E; now apply in_map).
      split; [tauto|]. intros [H1|[<-|H1]]; tauto.
    + rewrite map_app, in_app_iff. cbn [map In]. tauto.
Qed.

Lemma purgeRecords_In (seen : list MetaData.t) (records : list Provenance.t)
    (r : Provenance.t) :
  In r (purgeRecords seen records)
  <-> In r records /\ In (Provenance.Name r) (map MetaData.MetaDataName seen).
Proof.
  rewrite purgeRecords_flat_map, in_flat_map. split.
  - intros (prov & Hprov & Hr). apply occurrences_in in Hr.
    destruct Hr as [-> Hname]. now split.
  - intros [Hr Hname]. exists r. split; [exact Hr|]. apply occurrences_in. now split.
Qed.

(** X5.  While the cluster keeps answering the same, a refresh pass that
    returns leaves a record for every instance it listed: for every kind of
    the schema and every instance in the listing of that kind, the store
    holds a record of that kind and name. *)
Theorem refreshCycle_records_every_instance {W} (cl : Cluster W) (g : Globals)
    (depth : nat) (cp cp' : ClusterProvenance) (w w' : W)
    (kind : string) (found : list MetaData.t) (topLevelObject : MetaData.t) :
  steady cl w ->
  refreshCycle cl g depth cp w = Done (cp', w') ->
  In kind (getResourceKinds g) ->
  getResourceNames cl g kind w = Done (found, w) ->
  In topLevelObject found ->
  exists r,
    In r (clusterProvenance cp')
    /\ Provenance.Kind r = kind
    /\ Provenance.Name r = MetaData.MetaDataName topLevelObject.
Proof.
  intros Hsteady Hrun Hkind Hfound Hobj. unfold refreshCycle in Hrun.
  match type of Hrun with
  | context [forRange ?l ?body ?init] =>
      destruct (forRange l body init) as [[[seen cp1] w1]| | |] eqn:Escan
  end; cbn [bind] in Hrun; try discriminate.
  unfold purgeCompositionOfDeletedItems in Hrun. cbn [bind] in Hrun.
  injection Hrun as <- _. cbn [clusterProvenance].
  set (name := MetaData.MetaDataName topLevelObject).
  apply (forRange_reaches
           (fun s : list MetaData.t * ClusterProvenance * W => snd s = w)
           (fun s : list MetaData.t * ClusterProvenance * W =>
              In (kind, name) (map identity (clusterProvenance (snd (fst s))))
              /\ In name (map MetaData.MetaDataName (fst (fst s))))
           _ _ kind Hkind) in Escan; [| | | |reflexivity].
  - cbn [fst snd] in Escan. destruct Escan as [Hid Hseen].
    apply in_map_iff in Hid. destruct Hid as (r & Eid & Hr).
    exists r. unfold identity in Eid. injection Eid as Ek En.
    split; [|now split]. apply purgeRecords_In. split; [exact Hr|]. now rewrite En.
  - (* the world stays the same *)
    clear - Hsteady. intros [[seen cp] w0] k [[seen' cp'] w'] Hw. cbn [snd] in Hw.
    subst w0.
    destruct (getResourceNames cl g k w) as [[l w1]| | |] eqn:E;
      cbn [bind]; try discriminate.
    apply (steady_getResourceNames _ _ _ _ _ _ Hsteady) in E. subst w1.
    match goal with
    | |- context [forRange l ?body ?init] =>
        destruct (forRange l body init) as [[cp1 w1]| | |] eqn:Estore
    end; cbn [bind]; try discriminate.
    intros H. injection H as _ _ <-. cbn [snd].
    apply (forRange_preserves (fun s : ClusterProvenance * W => snd s = w))
      in Estore; [exact Estore| |reflexivity].
    clear - Hsteady. intros [cp0 w0] obj [cp2 w2] _ Hw0. cbn [snd] in Hw0. subst w0.
    destruct (buildProvenance cl g depth k _ 1 [] w) as [[tree w3]| | |] eqn:Eb;
      cbn [bind]; try discriminate.
    apply (steady_buildProvenance _ _ _ _ Hsteady) in Eb. subst w3.
    destruct (storeProvenance obj k _ tree cp0); cbn [bind]; try discriminate.
    intros H. now injection H as _ <-.
  - (* the iteration for the kind stores the instance and sees its name *)
    clear - Hsteady Hfound Hobj. intros [[seen cp] w0] [[seen' cp'] w'] Hw.
    cbn [snd] in Hw. subst w0. rewrite Hfound. cbn [bind].
    match goal with
    | |- context [forRange found ?body ?init] =>
        destruct (forRange found body init) as [[cp1 w1]| | |] eqn:Estore
    end; cbn [bind]; try discriminate.
    intros H. injection H as <- <- _. cbn [fst snd]. split.
    + apply (forRange_reaches
               (fun _ : ClusterProvenance * W => True)
               (fun s : ClusterProvenance * W =>
                  In (kind, name) (map identity (clusterProvenance (fst s))))
               _ _ topLevelObject Hobj) in Estore; [exact Estore|trivial| | |exact I].
      * intros [cp0 w0] [cp2 w2] _.
        destruct (buildProvenance cl g depth kind _ 1 [] w0) as [[tree w3]| | |];
          cbn [bind]; try discriminate.
        unfold storeProvenance, Lock. destruct (mux cp0); cbn [bind]; [discriminate|].
        intros H. injection H as <- _. cbn [fst clusterProvenance Unlock].
        apply storeRecords_has_identity.
      * intros [cp0 w0] obj [cp2 w2] _ Hid. cbn [fst] in Hid.
        destruct (buildProvenance cl g depth kind _ 1 [] w0) as [[tree w3]| | |];
          cbn [bind]; try discriminate.
        unfold storeProvenance, Lock. destruct (mux cp0); cbn [bind]; [discriminate|].
        intros H. injection H as <- _. cbn [fst clusterProvenance Unlock].
        now apply storeRecords_keeps_identity.
    + apply collectSeen_names. right. now apply in_map.
  - (* later iterations keep both *)
    clear. intros [[seen cp] w0] k [[seen' cp'] w'] _ [Hid Hseen].
    cbn [fst snd] in Hid, Hseen.
    destruct (getResourceNames cl g k w0) as [[l w1]| | |];
      cbn [bind]; try discriminate.
    match goal with
    | |- context [forRange l ?body ?init] =>
        destruct (forRange l body init) as [[cp1 w2]| | |] eqn:Estore
    end; cbn [bind]; try discriminate.
    intros H. injection H as <- <- _. cbn [fst snd]. split.
    + apply (forRange_preserves
               (fun s : ClusterProvenance * W =>
                  In (kind, name) (map identity (clusterProvenance (fst s)))))
        in Estore; [exact Estore| |exact Hid].
      clear. intros [cp0 w0] obj [cp2 w2] _ Hid. cbn [fst] in Hid.
      destruct (buildProvenance cl g depth k _ 1 [] w0) as [[tree w3]| | |];
        cbn [bind]; try discriminate.
      unfold storeProvenance, Lock. destruct (mux cp0); cbn [bind]; [discriminate|].
      intros H. injection H as <- _. cbn [fst clusterProvenance Unlock].
      now apply storeRecords_keeps_identity.
    + apply collectSeen_names. now left.
Qed.

Lemma sampleCluster_steady (respond : option Content) : steady (sampleCluster respond) tt.
Proof.
  intros url token pool. cbn.
  now destruct (String.eqb url _).
Qed.

Lemma refreshCycle_records_every_instance_witness :
  exists r,
    In r [Provenance.mk "Deployment" "web" "Ready" [TreeNode.mk 2 "ReplicaSet" []];
          Provenance.mk "Pod" "web" "Running" []]
    /\ Provenance.Kind r = "Deployment"
    /\ Provenance.Name r = "web".
Proof.
  refine (refreshCycle_records_every_instance quietCluster builtinGlobals 3 sampleStore
            (mkCP false
               [Provenance.mk "Deployment" "web" "Ready" [TreeNode.mk 2 "ReplicaSet" []];
                Provenance.mk "Pod" "web" "Running" []])
            tt tt "Deployment" [MetaData.mk "web" "" "" "" "Ready"]
            (MetaData.mk "web" "" "" "" "Ready") _ _ _ _ _).
  - apply sampleCluster_steady.
  - vm_compute. reflexivity.
  - now left.
  - vm_compute. reflexivity.
  - now left.
Defined.

(** ** Queries *)

(** X6.  A query always returns, with one reconstructed tree for every
    stored record that passes its test and for no other, in the order of
    the store.  The test of a record: the kind that the plural of the
    query kind resolves to, in the order in which the table is visited for
    that record, is the lower-cased kind of the record, and the
    lower-cased query name is [*] or the lower-cased name of the record.
    When no two kinds share a plural, letter case aside, the order of the
    visits does not matter: the records returned are those that pass the
    test against the table as it stands. *)
Theorem queryRecords_selection {T : Toolchain} (g : Globals)
    (resourceKind resourceName : string) (records : list Provenance.t) :
  exists compositions,
    queryRecords g resourceKind resourceName records = Done compositions
    /\ Forall2 reconstructs
         (selected g (mapGet resourceKind (KindPluralMap g)) resourceName 0 records)
         compositions
    /\ (distinctPlurals g ->
        Forall2 reconstructs
          (filter (answersb (KindPluralMap g) (mapGet resourceKind (KindPluralMap g))
                     resourceName)
             records)
          compositions).
Proof.
  unfold queryRecords.
  destruct (queryFrom_selects g (mapGet resourceKind (KindPluralMap g)) resourceName
              records 0 []) as (out & -> & Hout).
  cbn [bind app]. exists out. split; [reflexivity|]. split; [exact Hout|].
  intros Hdistinct. now rewrite <- (selected_filter g _ resourceName Hdistinct records 0).
Qed.

(** With a plural that two kinds share the answer depends on the order
    of the visits: a runtime that visits the table forwards for the first
    record and backwards for the second returns both records to a query
    for cats, one that visits it forwards both times returns the cat. *)
Lemma shared_plural_example :
  queryRecords (T := sampleToolchain) petsGlobals "Cat" "*" petsRecords
  = Done [Composition.mk 1 "cat" "tom" "" []; Composition.mk 1 "dog" "rex" "" []]
  /\ forRange petsRecords
       (queryRecord (T := sampleToolchain) (KindPluralMap petsGlobals) "pets" "*") []
     = Done [Composition.mk 1 "cat" "tom" "" []].
Proof. split; reflexivity. Qed.

(** X7.  The reading operations return whenever the mutex is free, without
    panicking, and leave the store as it was, mutex released:
    [GetProvenance] for every kind and name, [PrintProvenance] and
    [checkIfProvenanceNeeded]. *)
Theorem reads_leave_the_store {T : Toolchain} (g : Globals)
    (resourceKind resourceName : string) (cp : ClusterProvenance) :
  mux cp = false ->
  (exists provenanceString,
      GetProvenance g resourceKind resourceName cp = Done (provenanceString, cp))
  /\ (exists text, PrintProvenance cp = Done (text, cp))
  /\ (exists needed,
         checkIfProvenanceNeeded resourceKind resourceName cp = Done (needed, cp)).
Proof.
  intros Hfree. split.
  - rewrite (GetProvenance_free g resourceKind resourceName cp Hfree).
    unfold queryRecords.
    destruct (queryFrom_selects g (mapGet resourceKind (KindPluralMap g)) resourceName
                (clusterProvenance cp) 0 []) as (out & -> & _).
    cbn [bind]. eexists. reflexivity.
  - assert (Hsame : Unlock (mkCP true (clusterProvenance cp)) = cp).
    { destruct cp as [m records]. cbn in Hfree. now subst. }
    unfold PrintProvenance, checkIfProvenanceNeeded, Lock.
    rewrite Hfree. cbn [bind clusterProvenance]. rewrite Hsame.
    split; eexists; reflexivity.
Qed.

Lemma reads_leave_the_store_witness :
  (exists provenanceString,
      GetProvenance (T := sampleToolchain) builtinGlobals "Deployment" "*" sampleStore
      = Done (provenanceString, sampleStore))
  /\ (exists text, PrintProvenance sampleStore = Done (text, sampleStore))
  /\ (exists needed,
         checkIfProvenanceNeeded "Deployment" "*" sampleStore = Done (needed, sampleStore)).
Proof.
  exact (reads_leave_the_store (T := sampleToolchain) builtinGlobals "Deployment" "*"
           sampleStore eq_refl).
Defined.

(** X8.  A query for a kind that is not a key of the plural-name table is a
    miss, not an error: when no kind of the table has an empty plural and
    no stored record an empty kind, the answer is the empty array and the
    store is left as it was. *)
Theorem unknown_kind_is_a_miss {T : Toolchain} (g : Globals)
    (resourceKind resourceName : string) (cp : ClusterProvenance) :
  mux cp = false ->
  mapLookup resourceKind (KindPluralMap g) = None ->
  (forall key value, In (key, value) (KindPluralMap g) -> value <> EmptyString) ->
  (forall r, In r (clusterProvenance cp) -> Provenance.Kind r <> EmptyString) ->
  GetProvenance g resourceKind resourceName cp = Done ("[]", cp).
Proof.
  intros Hfree Hunknown Hplurals Hkinds.
  rewrite (GetProvenance_free g resourceKind resourceName cp Hfree).
  unfold queryRecords, mapGet. rewrite Hunknown.
  destruct (queryFrom_selects g EmptyString resourceName (clusterProvenance cp) 0 [])
    as (out & -> & Hout).
  cbn [bind app].
  rewrite (selected_none g EmptyString resourceName (clusterProvenance cp)) in Hout.
  - inversion Hout; subst. reflexivity.
  - intros r i Hr. unfold answersb. rewrite resolveKind_none.
    + destruct (String.eqb_spec EmptyString (ToLower (Provenance.Kind r)))
        as [E|E]; [|reflexivity].
      exfalso. symmetry in E. apply ToLower_empty in E. exact (Hkinds r Hr E).
    + intros key value Hin E. cbn in E. apply ToLower_empty in E.
      apply (Permutation_in _ (rangeOrder_visits i _)) in Hin.
      exact (Hplurals key value Hin E).
Qed.

Lemma unknown_kind_is_a_miss_witness :
  GetProvenance (T := sampleToolchain) builtinGlobals "CronJob" "*" sampleStore
  = Done ("[]", sampleStore).
Proof.
  apply (unknown_kind_is_a_miss (T := sampleToolchain)).
  - reflexivity.
  - reflexivity.
  - intros key value Hin. cbn in Hin.
    repeat (destruct Hin as [Hin|Hin]; [injection Hin as <- <-; discriminate|]).
    contradiction.
  - intros r Hin. cbn in Hin.
    repeat (destruct Hin as [<-|Hin]; [discriminate|]). contradiction.
Defined.

Lemma showsMemberOf_nil (nodes : list Composition.t) :
  Forall (showsMemberOf []) nodes -> nodes = [].
Proof.
  destruct nodes as [|c nodes]; [reflexivity|].
  intros H. inversion H as [|? ? (node & member & [] & _) _].
Qed.

Lemma restAreLeaves_snoc (nodes : list Composition.t) (leaf : Composition.t) :
  restAreLeaves nodes -> Composition.Children leaf = [] ->
  restAreLeaves (nodes ++ [leaf]).
Proof.
  destruct nodes as [|c nodes]; cbn; intros Hrest Hleaf; [apply Forall_nil|].
  apply Forall_app. split; [exact Hrest|]. now apply Forall_cons.
Qed.

Lemma getCompositionWithin_shape (depth : nat) :
  forall (compositionTree : list TreeNode.t),
    (List.length compositionTree < depth)%nat ->
    forall kind name status level processedList,
    exists composition processedList',
      getCompositionWithin depth kind name status level compositionTree processedList
      = Done (composition, processedList')
      /\ Composition.Level composition = level
      /\ Composition.Kind composition = kind
      /\ Composition.Name composition = name
      /\ Composition.Status composition = status
      /\ restAreLeaves (Composition.Children composition)
      /\ Forall (showsMemberOf compositionTree) (Composition.Children composition).
Proof.
  induction depth as [|depth IH];
    intros compositionTree Hlen kind name status level processedList; [lia|].
  cbn [getCompositionWithin].
  set (P := fun st : QueryState =>
              ((currentTree st = compositionTree /\ children st = [])
               \/ (currentTree st = [] /\ restAreLeaves (children st)))
              /\ Forall (showsMemberOf compositionTree) (children st)).
  match goal with
  | |- context [forRange compositionTree ?body ?init] =>
      destruct (forRange_invariant P compositionTree body) with (s := init)
        as (st & -> & Hcases & Hshown)
  end.
  - intros st node Hnode Hst.
    destruct (processed (processedNodes st) node); [now exists st|].
    apply (forRange_invariant P); [|exact Hst].
    intros st' member Hmember [Hcases' Hshown'].
    match goal with
    | |- context [getCompositionWithin depth ?k ?n ?s ?lv ?t ?p] =>
        destruct (IH t) with (kind := k) (name := n) (status := s) (level := lv)
          (processedList := p)
          as (child & processedList' & -> & Elevel & Ekind & Ename & Estatus & _ & Hgrand)
    end.
    + destruct Hcases' as [[-> _] | [-> _]].
      * assert (Hlt : (List.length
                         (filter
                            (fun n1 =>
                               negb (Z.eqb (TreeNode.Level n1) (TreeNode.Level node))
                               && negb (String.eqb (TreeNode.ChildKind n1)
                                          (TreeNode.ChildKind node)))
                            compositionTree)
                       < List.length compositionTree)%nat).
        { apply (filter_length_lt _ _ node Hnode). now rewrite Z.eqb_refl. }
        lia.
      * cbn [filter List.length]. destruct compositionTree; [contradiction|].
        cbn [List.length] in Hlen. lia.
    + cbn [bind]. eexists. split; [reflexivity|].
      unfold P. cbn [currentTree children]. split.
      * right. split; [reflexivity|].
        destruct Hcases' as [[_ ->] | [Ecur Hrest]]; [exact (Forall_nil _)|].
        apply restAreLeaves_snoc; [exact Hrest|].
        rewrite Ecur in Hgrand. cbn [filter] in Hgrand.
        now apply showsMemberOf_nil.
      * apply Forall_app. split; [exact Hshown'|].
        apply Forall_cons; [|apply Forall_nil].
        exists node, member. now repeat split.
  - unfold P. cbn [currentTree children]. split; [left; now split|apply Forall_nil].
  - cbn [bind]. eexists. eexists. split; [reflexivity|].
    cbn [Composition.Level Composition.Kind Composition.Name Composition.Status
           Composition.Children].
    repeat split; try exact Hshown.
    destruct Hcases as [[_ ->] | [_ Hrest]]; [exact I|exact Hrest].
Qed.

(** X9.  The tree [getComposition] reconstructs: the root carries the
    level, kind, name and status it was called with; every child of the
    root shows a member of a slice of the flat tree, at the level and with
    the kind of that slice; and only the first child can have children of
    its own, every later one being a leaf whatever the flat tree holds for
    it. *)
Theorem getComposition_shape (kind name status : string) (level : Z)
    (compositionTree processedList : list TreeNode.t) :
  exists composition processedList',
    getComposition kind name status level compositionTree processedList
    = Done (composition, processedList')
    /\ Composition.Level composition = level
    /\ Composition.Kind composition = kind
    /\ Composition.Name composition = name
    /\ Composition.Status composition = status
    /\ onlyFirstChildNested composition
    /\ Forall (showsMemberOf compositionTree) (Composition.Children composition).
Proof.
  unfold getComposition.
  destruct (getCompositionWithin_shape (S (List.length compositionTree)) compositionTree
              (Nat.lt_succ_diag_r _) kind name status level processedList)
    as (c & p & Hrun & Hl & Hk & Hn & Hs & Hrest & Hshown).
  exists c, p. repeat split; try assumption.
Qed.

(** ** The tree builder: what it appends *)

(** X10.  [buildProvenance] only appends: called on a slice that already
    holds nodes it gives that slice followed by exactly what it gives on
    an empty one, with the same outcome otherwise. *)
Theorem buildProvenance_appends {W} (cl : Cluster W) (g : Globals) (depth : nat)
    (kind name : string) (level : Z) (tree : list TreeNode.t) (w : W) :
  buildProvenance cl g depth kind name level tree w
  = ('(added, w') <- buildProvenance cl g depth kind name level [] w ;;
     Done (tree ++ added, w')).
Proof.
  enough (H : forall tree0 tree1 kind name level w,
             buildProvenance cl g depth kind name level (tree0 ++ tree1) w
             = (s <- buildProvenance cl g depth kind name level tree1 w ;;
                Done (tree0 ++ fst s, snd s))).
  { rewrite <- (app_nil_r tree) at 1. rewrite H.
    destruct (buildProvenance cl g depth kind name level [] w) as [[added w']| | |];
      reflexivity. }
  clear. induction depth as [|depth IH]; intros tree0 tree1 kind name level w;
    cbn [buildProvenance]; [reflexivity|].
  destruct (mapLookup kind (compositionMap g)) as [children|]; [|reflexivity].
  apply (forRange_commute
           (fun s : list TreeNode.t * W => (tree0 ++ fst s, snd s))
           _ children) with (s := (tree1, w)).
  intros [t w0] child. cbn [fst snd].
  destruct (getResourceListContent cl g _ _ w0) as [[content w1]| | |];
    cbn [bind]; try reflexivity.
  destruct (parseMetaData content) as [found| | |]; cbn [bind]; try reflexivity.
  rewrite <- app_assoc.
  apply (forRange_commute
           (fun s : list TreeNode.t * W => (tree0 ++ fst s, snd s))
           _ (filterChildren found name))
    with (s := (t ++ [TreeNode.mk (int_add level 1) child (filterChildren found name)],
                w1)).
  intros [t' w'] ref. cbn [fst snd]. apply IH.
Qed.

Lemma filterChildren_wellFormed (g : Globals) (kind child : string) (level : Z)
    (found : list MetaData.t) (name : string) :
  In child (childKinds g kind) ->
  wellFormedSlice g (TreeNode.mk level child (filterChildren found name)).
Proof.
  intros Hchild.
  destruct (filterChildren_loop name found [] (NoDup_nil _)) as (Hfrom & Hdistinct & _).
  split; [exact Hdistinct|]. split.
  - exists name. intros member Hmember. cbn [TreeNode.Children] in Hmember.
    destruct (Hfrom member Hmember) as [[]|[_ Howner]]. exact Howner.
  - now exists kind.
Qed.

Lemma buildProvenance_wellFormed {W} (cl : Cluster W) (g : Globals) (depth : nat) :
  forall kind name level tree w tree' w',
    Forall (wellFormedSlice g) tree ->
    buildProvenance cl g depth kind name level tree w = Done (tree', w') ->
    Forall (wellFormedSlice g) tree'.
Proof.
  induction depth as [|depth IH]; intros kind name level tree w tree' w' Htree;
    cbn [buildProvenance]; [discriminate|].
  destruct (mapLookup kind (compositionMap g)) as [children|] eqn:Ekind;
    [|intros H; now injection H as <- _].
  intros Hrun.
  apply (forRange_preserves
           (fun s : list TreeNode.t * W => Forall (wellFormedSlice g) (fst s)))
    in Hrun; [exact Hrun| |exact Htree].
  clear Hrun. intros [t0 w0] child [t1 w1] Hchild Ht0. cbn [fst] in Ht0 |- *.
  destruct (getResourceListContent cl g _ _ w0) as [[content w2]| | |];
    cbn [bind]; try discriminate.
  destruct (parseMetaData content) as [found| | |]; cbn [bind]; try discriminate.
  intros Hinner.
  apply (forRange_preserves
           (fun s : list TreeNode.t * W => Forall (wellFormedSlice g) (fst s)))
    in Hinner; [exact Hinner| |].
  - clear Hinner. intros [t2 w3] ref [t3 w4] _ Ht2. cbn [fst] in Ht2 |- *.
    now apply IH.
  - cbn [fst]. apply Forall_app. split; [exact Ht0|].
    apply Forall_cons; [|apply Forall_nil].
    apply (filterChildren_wellFormed g kind). unfold childKinds. now rewrite Ekind.
Qed.

(** X11.  Every slice of a tree [buildProvenance] returns is well formed:
    its members have pairwise distinct names and all name the same owner,
    and its kind is one the schema declares as a child kind. *)
Theorem built_slices_are_well_formed {W} (cl : Cluster W) (g : Globals) (depth : nat)
    (kind name : string) (level : Z) (w w' : W) (tree : list TreeNode.t) :
  buildProvenance cl g depth kind name level [] w = Done (tree, w') ->
  Forall (wellFormedSlice g) tree.
Proof. apply buildProvenance_wellFormed. apply Forall_nil. Qed.

Lemma built_slices_are_well_formed_witness :
  Forall (wellFormedSlice abGlobals)
    [TreeNode.mk 2 "B" [MetaData.mk "b1" "a1" "A" "example.org/v1" ""]].
Proof.
  apply (built_slices_are_well_formed abCluster abGlobals 2 "A" "a1" 1 tt tt).
  vm_compute. reflexivity.
Defined.

Lemma int_add_one (z : Z) :
  (- 2 ^ 63 <= z < 2 ^ 63 - 1)%Z -> int_add z 1 = (z + 1)%Z.
Proof.
  intros Hz. unfold int_add, int_wrap.
  rewrite Z.mod_small by lia. lia.
Qed.

Lemma buildProvenance_levels {W} (cl : Cluster W) (g : Globals) (depth : nat) :
  forall kind name level tree w tree' w' (lo : Z),
    (- 2 ^ 63 <= level)%Z -> (level + Z.of_nat depth < 2 ^ 63)%Z -> (lo <= level)%Z ->
    Forall (fun node => (lo < TreeNode.Level node <= lo + (level - lo) + Z.of_nat depth)%Z)
      tree ->
    buildProvenance cl g depth kind name level tree w = Done (tree', w') ->
    Forall (fun node => (lo < TreeNode.Level node <= lo + (level - lo) + Z.of_nat depth)%Z)
      tree'.
Proof.
  induction depth as [|depth IH];
    intros kind name level tree w tree' w' lo Hmin Hmax Hlo Htree;
    cbn [buildProvenance]; [discriminate|].
  destruct (mapLookup kind (compositionMap g)) as [children|];
    [|intros H; now injection H as <- _].
  rewrite int_add_one by lia.
  intros Hrun.
  apply (forRange_preserves
           (fun s : list TreeNode.t * W =>
              Forall (fun node =>
                        (lo < TreeNode.Level node
                         <= lo + (level - lo) + Z.of_nat (S depth))%Z) (fst s)))
    in Hrun; [exact Hrun| |exact Htree].
  clear Hrun. intros [t0 w0] child [t1 w1] _ Ht0. cbn [fst] in Ht0 |- *.
  destruct (getResourceListContent cl g _ _ w0) as [[content w2]| | |];
    cbn [bind]; try discriminate.
  destruct (parseMetaData content) as [found| | |]; cbn [bind]; try discriminate.
  intros Hinner.
  apply (forRange_preserves
           (fun s : list TreeNode.t * W =>
              Forall (fun node =>
                        (lo < TreeNode.Level node
                         <= lo + (level - lo) + Z.of_nat (S depth))%Z) (fst s)))
    in Hinner; [exact Hinner| |].
  - clear Hinner. intros [t2 w3] ref [t3 w4] _ Ht2. cbn [fst] in Ht2 |- *.
    intros Hrec.
    apply (IH _ _ _ _ _ _ _ lo) in Hrec; try lia.
    + eapply Forall_impl; [|exact Hrec]. cbn beta. intros node Hnode. lia.
    + eapply Forall_impl; [|exact Ht2]. cbn beta. intros node Hnode. lia.
  - cbn [fst]. apply Forall_app. split; [exact Ht0|].
    apply Forall_cons; [|apply Forall_nil]. cbn [TreeNode.Level]. lia.
Qed.

(** X12.  The levels of a built tree: a build started at [level] with at
    most [depth] nested activations, far enough from the end of the
    integer range, numbers every slice above [level] and at most
    [level + depth]; started at level 1, as the refresh loop starts it, no
    slice is below level 2. *)
Theorem built_levels_are_above_the_start {W} (cl : Cluster W) (g : Globals)
    (depth : nat) (kind name : string) (level : Z) (w w' : W)
    (tree : list TreeNode.t) :
  (- 2 ^ 63 <= level)%Z ->
  (level + Z.of_nat depth < 2 ^ 63)%Z ->
  buildProvenance cl g depth kind name level [] w = Done (tree, w') ->
  Forall (fun node => (level < TreeNode.Level node <= level + Z.of_nat depth)%Z) tree.
Proof.
  intros Hmin Hmax Hrun.
  apply (buildProvenance_levels cl g depth kind name level [] w tree w' level) in Hrun;
    try lia; [|apply Forall_nil].
  eapply Forall_impl; [|exact Hrun]. cbn beta. intros node Hnode. lia.
Qed.

Lemma built_levels_are_above_the_start_witness :
  Forall (fun node => (1 < TreeNode.Level node <= 1 + Z.of_nat 2)%Z)
    [TreeNode.mk 2 "B" [MetaData.mk "b1" "a1" "A" "example.org/v1" ""]].
Proof.
  apply (built_levels_are_above_the_start abCluster abGlobals 2 "A" "a1" 1 tt tt).
  - lia.
  - cbn. lia.
  - vm_compute. reflexivity.
Defined.

(** ** Parsing: owner references and malformed listings *)

Lemma parseOwnerReference_fields (ownerReferenceMap : gomap json) :
  forall (ref : MetaData.t) (name kind apiVersion : option string),
    NoDup (keys ownerReferenceMap) ->
    mapLookup "name" ownerReferenceMap = option_map JString name ->
    mapLookup "kind" ownerReferenceMap = option_map JString kind ->
    mapLookup "apiVersion" ownerReferenceMap = option_map JString apiVersion ->
    parseOwnerReference ref (JObject ownerReferenceMap)
    = Done (MetaData.mk (MetaData.MetaDataName ref)
              (match name with Some s => s | None => MetaData.OwnerReferenceName ref end)
              (match kind with Some s => s | None => MetaData.OwnerReferenceKind ref end)
              (match apiVersion with
               | Some s => s
               | None => MetaData.OwnerReferenceAPIVersion ref
               end)
              (MetaData.Status ref)).
Proof.
  unfold parseOwnerReference. cbn [asMap bind].
  induction ownerReferenceMap as [|[k v] l IH];
    intros ref name kind apiVersion Hnd Hn Hk Ha.
  - cbn in *. destruct name, kind, apiVersion; try discriminate. now destruct ref.
  - inversion Hnd as [|? ? Hnotin Hnd']; subst.
    cbn [mapLookup] in Hn, Hk, Ha. cbn [forRange].
    destruct (String.eqb_spec k "name") as [->|Nn].
    + cbn in Hk, Ha |- *. destruct name as [n|]; [|discriminate].
      injection Hn as ->. cbn.
      rewrite (IH _ None kind apiVersion); try assumption; [reflexivity|].
      now apply mapLookup_absent.
    + destruct (String.eqb_spec k "kind") as [->|Nk].
      * cbn in Ha |- *. destruct kind as [n|]; [|discriminate].
        injection Hk as ->. cbn.
        rewrite (IH _ name None apiVersion); try assumption; [reflexivity|].
        now apply mapLookup_absent.
      * destruct (String.eqb_spec k "apiVersion") as [->|Na].
        -- destruct apiVersion as [n|]; [|discriminate].
           injection Ha as ->. cbn.
           rewrite (IH _ name kind None); try assumption; [reflexivity|].
           now apply mapLookup_absent.
        -- cbn. now apply IH.
Qed.

(** X13.  Of several owner references the last one is the one recorded:
    when the references before it parse and the last one has its three
    fields, the snapshot carries the name, kind and API version of the
    last, whatever the earlier ones said. *)
Theorem last_owner_reference_wins (earlier : list json) (last : gomap json)
    (ref ref1 : MetaData.t) (name kind apiVersion : string) :
  forRange earlier parseOwnerReference ref = Done ref1 ->
  ownerFields name kind apiVersion last ->
  forRange (earlier ++ [JObject last]) parseOwnerReference ref
  = Done (MetaData.mk (MetaData.MetaDataName ref1) name kind apiVersion
            (MetaData.Status ref1)).
Proof.
  intros Hearlier (Hnd & Hn & Hk & Ha).
  rewrite forRange_app, Hearlier. cbn [bind forRange].
  rewrite (parseOwnerReference_fields last ref1 (Some name) (Some kind) (Some apiVersion)
             Hnd Hn Hk Ha).
  reflexivity.
Qed.

Lemma last_owner_reference_wins_witness :
  forRange
    ([JObject [("kind", JString "ReplicaSet"); ("name", JString "web-1")]]
     ++ [JObject [("apiVersion", JString "apps/v1"); ("kind", JString "Deployment");
                  ("name", JString "web")]])
    parseOwnerReference MetaData.zero
  = Done (MetaData.mk "" "web" "Deployment" "apps/v1" "").
Proof.
  apply (last_owner_reference_wins
           [JObject [("kind", JString "ReplicaSet"); ("name", JString "web-1")]]
           [("apiVersion", JString "apps/v1"); ("kind", JString "Deployment");
            ("name", JString "web")]
           MetaData.zero (MetaData.mk "" "web-1" "ReplicaSet" "" "")
           "web" "Deployment" "apps/v1").
  - reflexivity.
  - repeat split; [distinct_keys].
Defined.

(** A loop whose bodies return or panic panics as soon as one element makes
    the body panic in every state. *)
Lemma forRange_panics {A S : Type} (l : list A) (body : S -> A -> Outcome S) (x : A) :
  In x l ->
  (forall s y, terminates (body s y)) ->
  (forall s, body s x = Panicked) ->
  forall s, forRange l body s = Panicked.
Proof.
  intros Hx Hterm Hpanic. induction l as [|y l IH]; [contradiction|].
  intros s. cbn [forRange].
  destruct Hx as [->|Hx]; [now rewrite Hpanic|].
  specialize (Hterm s y).
  destruct (body s y) as [s1| | |]; cbn [bind]; try reflexivity; try contradiction.
  now apply IH.
Qed.

(** X14.  Malformed listings.  [parseMetaData] reads what
    [json.Unmarshal] left in [result], whether or not it reported an
    error.  A [result] that is nil or holds no [items] array (no such key,
    or a value that is not an array) is an empty listing, whatever else it
    holds; a listing with an item that is not an object makes
    [parseMetaData] panic, wherever the item stands among the others. *)
Theorem parseMetaData_malformed :
  (forall content : Content,
      (forall result items,
          content = Some result -> mapLookup "items" result <> Some (JArray items)) ->
      parseMetaData content = Done [])
  /\ (forall result items item,
         mapLookup "items" result = Some (JArray items) ->
         In item items ->
         (forall itemConverted, item <> JObject itemConverted) ->
         parseMetaData (Some result) = Panicked).
Proof.
  split.
  - intros [result|] Hnone; [|reflexivity]. unfold parseMetaData.
    destruct (mapLookup "items" result) as [[| | | |items|]|] eqn:E; try reflexivity.
    now destruct (Hnone result items eq_refl).
  - intros result items item Hitems Hin Hnot. unfold parseMetaData. rewrite Hitems.
    apply (forRange_panics items parseItem item Hin).
    + intros s y. apply terminates_parseItem.
    + intros s. destruct item; try reflexivity. now destruct (Hnot m).
Qed.

(** X15.  An item without a [metadata] key never yields a snapshot:
    [parseMetaData] goes on with the snapshots it had, unless the item
    makes it panic. *)
Theorem item_without_metadata_is_skipped (itemConverted : gomap json)
    (slice : list MetaData.t) :
  ~ In "metadata" (keys itemConverted) ->
  parseItem slice (JObject itemConverted) = Done slice
  \/ parseItem slice (JObject itemConverted) = Panicked.
Proof.
  intros Hnone. unfold parseItem. cbn [asMap bind].
  set (ske := existsb (fun kv => String.eqb (fst kv) "status") itemConverted).
  assert (Hterm : terminates
                    (forRange itemConverted (parseItemKey ske)
                       (mkItemState MetaData.zero false false slice))).
  { apply terminates_forRange. intros s x _. apply terminates_parseItemKey. }
  destruct (forRange itemConverted (parseItemKey ske)
              (mkItemState MetaData.zero false false slice)) as [st| | |] eqn:Erun;
    cbn [bind]; try contradiction; [left|now right].
  apply (forRange_preserves
           (fun st : ItemState => metadataProcessed st = false /\ metaDataSlice st = slice))
    in Erun; [now destruct Erun as [_ ->]| |now split].
  clear Erun Hterm. intros st0 [key value] st1 Hkey [Hmp Hslice].
  assert (Hneq : String.eqb key "metadata" = false).
  { apply String.eqb_neq. intros ->. apply Hnone.
    apply (in_map fst) in Hkey. exact Hkey. }
  unfold parseItemKey. rewrite Hneq, Hmp. cbn [bind].
  destruct (String.eqb key "status").
  - destruct (parseStatusMap (metaDataRef st0) value); cbn [bind]; try discriminate.
    intros H. injection H as <-. cbn [metadataProcessed metaDataSlice andb].
    now destruct ske.
  - cbn [bind]. intros H. injection H as <-.
    cbn [metadataProcessed metaDataSlice andb]. now destruct ske.
Qed.

Lemma item_without_metadata_is_skipped_witness :
  parseItem [] (JObject [("status", JObject statusAllReady)]) = Done []
  \/ parseItem [] (JObject [("status", JObject statusAllReady)]) = Panicked.
Proof.
  apply item_without_metadata_is_skipped. cbn. intuition discriminate.
Defined.

(** ** The schema registry *)

Lemma mapLookup_mapSet {V : Type} (k k' : string) (v : V) (m : gomap V) :
  mapLookup k (mapSet k' v m) = if String.eqb k' k then Some v else mapLookup k m.
Proof.
  induction m as [|[k0 v0] m IH]; cbn [mapSet mapLookup].
  - reflexivity.
  - destruct (String.eqb_spec k0 k') as [->|E0]; cbn [mapLookup].
    + now destruct (String.eqb k' k).
    + rewrite IH. destruct (String.eqb_spec k0 k) as [->|E1]; [|reflexivity].
      destruct (String.eqb_spec k' k) as [->|E2]; [contradiction|reflexivity].
Qed.

Section Reload.

Variable entries : list compositionEntry.

(** The tables after the loop of [readKindCompositionFile] over the entries
    of the file. *)
Lemma reload_untouched (kind : string) :
  ~ In kind (map entryKind entries) ->
  forall g,
    let g' :=
      fold_left
        (fun g compositionObj =>
           setKind g (entryKind compositionObj) (entryPlural compositionObj)
             (entryEndpoint compositionObj) (entryComposition compositionObj))
        entries g in
    mapLookup kind (KindPluralMap g') = mapLookup kind (KindPluralMap g)
    /\ mapLookup kind (kindVersionMap g') = mapLookup kind (kindVersionMap g)
    /\ mapLookup kind (compositionMap g') = mapLookup kind (compositionMap g).
Proof.
  induction entries as [|e rest IH]; intros Hnotin g; cbn [fold_left]; [now repeat split|].
  cbn [map In] in Hnotin.
  destruct (IH (fun H => Hnotin (or_intror H))
              (setKind g (entryKind e) (entryPlural e) (entryEndpoint e)
                 (entryComposition e))) as (Hp & Hv & Hc).
  cbv zeta in Hp, Hv, Hc |- *. rewrite Hp, Hv, Hc. cbn [setKind KindPluralMap
    kindVersionMap compositionMap]. rewrite !mapLookup_mapSet.
  assert (E : String.eqb (entryKind e) kind = false).
  { apply String.eqb_neq. intros E. apply Hnotin. now left. }
  now rewrite E.
Qed.

Lemma reload_fixed (g : Globals) :
  let g' :=
    fold_left
      (fun g compositionObj =>
         setKind g (entryKind compositionObj) (entryPlural compositionObj)
           (entryEndpoint compositionObj) (entryComposition compositionObj))
      entries g in
  serviceHost g' = serviceHost g /\ servicePort g' = servicePort g
  /\ Namespace g' = Namespace g /\ httpMethod g' = httpMethod g.
Proof.
  revert g. induction entries as [|e rest IH]; intros g; cbn [fold_left];
    [now repeat split|].
  destruct (IH (setKind g (entryKind e) (entryPlural e) (entryEndpoint e)
                  (entryComposition e))) as (H1 & H2 & H3 & H4).
  cbv zeta in *. now rewrite H1, H2, H3, H4.
Qed.

End Reload.

(** X16.  A reload from the composition file never fails, and afterwards a
    kind the file declares has the plural, endpoint and child kinds of its
    last declaration in the file, while a kind the file does not declare
    keeps what the tables held for it; host, port, namespace and method
    are not touched. *)
Theorem reload_from_file {W} (reg : Registry W) (g : Globals) (w : W)
    (filePath yamlFile : string) :
  LookupEnv reg w "KIND_COMPOSITION_FILE" = Some filePath ->
  registry_ReadFile reg w filePath = Some yamlFile ->
  exists g',
    readKindCompositionFile reg g w = Done (g', w)
    /\ (forall kind,
           ~ In kind (map entryKind (yaml_Unmarshal reg yamlFile)) ->
           mapLookup kind (KindPluralMap g') = mapLookup kind (KindPluralMap g)
           /\ mapLookup kind (kindVersionMap g') = mapLookup kind (kindVersionMap g)
           /\ mapLookup kind (compositionMap g') = mapLookup kind (compositionMap g))
    /\ (forall before entry after,
           yaml_Unmarshal reg yamlFile = before ++ entry :: after ->
           ~ In (entryKind entry) (map entryKind after) ->
           mapLookup (entryKind entry) (KindPluralMap g') = Some (entryPlural entry)
           /\ mapLookup (entryKind entry) (kindVersionMap g')
              = Some (entryEndpoint entry)
           /\ mapLookup (entryKind entry) (compositionMap g')
              = Some (entryComposition entry))
    /\ serviceHost g' = serviceHost g /\ servicePort g' = servicePort g
    /\ Namespace g' = Namespace g /\ httpMethod g' = httpMethod g.
Proof.
  intros Henv Hfile. unfold readKindCompositionFile. rewrite Henv, Hfile.
  eexists. split; [reflexivity|]. split; [|split].
  - intros kind Hnotin. now apply reload_untouched.
  - intros before entry after -> Hlast. rewrite fold_left_app. cbn [fold_left].
    destruct (reload_untouched after (entryKind entry) Hlast
                (setKind
                   (fold_left
                      (fun g0 compositionObj =>
                         setKind g0 (entryKind compositionObj)
                           (entryPlural compositionObj) (entryEndpoint compositionObj)
                           (entryComposition compositionObj))
                      before g)
                   (entryKind entry) (entryPlural entry) (entryEndpoint entry)
                   (entryComposition entry))) as (Hp & Hv & Hc).
    cbv zeta in Hp, Hv, Hc. rewrite Hp, Hv, Hc.
    cbn [setKind KindPluralMap kindVersionMap compositionMap].
    rewrite !mapLookup_mapSet, String.eqb_refl. now repeat split.
  - apply reload_fixed.
Qed.

Lemma reload_from_file_witness :
  exists g',
    readKindCompositionFile fileRegistry builtinGlobals tt = Done (g', tt)
    /\ mapLookup "Pod" (compositionMap g') = Some []
    /\ mapLookup "Postgres" (KindPluralMap g') = Some "postgreses"
    /\ mapLookup "Postgres" (compositionMap g') = Some ["Deployment"; "Service"]
    /\ mapLookup "Deployment" (compositionMap g') = Some ["Pod"].
Proof.
  destruct (reload_from_file fileRegistry builtinGlobals tt "/etc/kinds.yaml" "kinds"
              eq_refl eq_refl) as (g' & Hrun & Hkept & Hlast & _).
  exists g'. split; [exact Hrun|]. split; [|split; [|split]].
  - destruct (Hkept "Pod") as (_ & _ & Hc); [cbn; intuition discriminate|].
    rewrite Hc. reflexivity.
  - apply (Hlast [mkCompositionEntry "Deployment" "apis/apps/v1beta1" ["Pod"] "deploys";
                  mkCompositionEntry "Postgres" "apis/postgres/v0" [] "pg"]
             (mkCompositionEntry "Postgres" "apis/postgrescontroller.kubeplus/v1"
                ["Deployment"; "Service"] "postgreses") []); [reflexivity|intros []].
  - apply (Hlast [mkCompositionEntry "Deployment" "apis/apps/v1beta1" ["Pod"] "deploys";
                  mkCompositionEntry "Postgres" "apis/postgres/v0" [] "pg"]
             (mkCompositionEntry "Postgres" "apis/postgrescontroller.kubeplus/v1"
                ["Deployment"; "Service"] "postgreses") []); [reflexivity|intros []].
  - apply (Hlast [] (mkCompositionEntry "Deployment" "apis/apps/v1beta1" ["Pod"] "deploys")
             [mkCompositionEntry "Postgres" "apis/postgres/v0" [] "pg";
              mkCompositionEntry "Postgres" "apis/postgrescontroller.kubeplus/v1"
                ["Deployment"; "Service"] "postgreses"]);
      [reflexivity|cbn; intuition discriminate].
Defined.

(** X17.  A reload with nothing to declare leaves the schema as it was: a
    composition file that cannot be read, a registry with an empty list of
    operators, or a list that decodes to no operator. *)
Theorem reload_with_nothing_declared {W} (reg : Registry W) (g : Globals) (w : W) :
  (exists filePath,
      LookupEnv reg w "KIND_COMPOSITION_FILE" = Some filePath
      /\ registry_ReadFile reg w filePath = None)
  \/ (LookupEnv reg w "KIND_COMPOSITION_FILE" = None
      /\ (fst (queryETCD reg w "/operators") = EmptyString
          \/ json_operators reg (fst (queryETCD reg w "/operators")) = [])) ->
  exists w', readKindCompositionFile reg g w = Done (g, w').
Proof.
  unfold readKindCompositionFile.
  intros [(filePath & -> & ->) | [-> Hnone]].
  - now exists w.
  - destruct (queryETCD reg w "/operators") as [crdListString w1]. cbn [fst] in Hnone.
    exists w1. destruct Hnone as [-> | Hnone]; [reflexivity|].
    destruct (String.eqb crdListString EmptyString); [reflexivity|].
    cbn [negb]. now rewrite Hnone.
Qed.

Lemma reload_with_nothing_declared_witness :
  exists w',
    readKindCompositionFile
      (mkRegistry unit (fun _ _ => Some "/missing.yaml") (fun _ _ => None)
         (fun _ => sampleEntries) (fun w _ => (EmptyString, w)) (fun _ => [])
         (fun _ => []))
      builtinGlobals tt
    = Done (builtinGlobals, w').
Proof.
  apply reload_with_nothing_declared. left. exists "/missing.yaml". now split.
Defined.

(** X18.  A reload from the registry service panics when the service has no
    decodable details for a custom resource that an operator lists: the
    text that comes back leaves the details empty, and [getCRDDetails]
    asserts that the missing [kind] is a string. *)
Theorem reload_panics_on_missing_details {W} (reg : Registry W) (g : Globals) (w w1 w2 : W)
    (crdListString crdDetailsString crdName : string) (crdNameList : list string) :
  LookupEnv reg w "KIND_COMPOSITION_FILE" = None ->
  queryETCD reg w "/operators" = (crdListString, w1) ->
  crdListString <> EmptyString ->
  getCRDNames (json_operators reg crdListString) = Done (crdName :: crdNameList) ->
  queryETCD reg w1 ("/" ++ crdName)%string = (crdDetailsString, w2) ->
  json_object reg crdDetailsString = [] ->
  readKindCompositionFile reg g w = Panicked.
Proof.
  intros Henv Hlist Hnonempty Hnames Hdetails Hempty.
  unfold readKindCompositionFile. rewrite Henv, Hlist.
  apply String.eqb_neq in Hnonempty. rewrite Hnonempty. cbn [negb].
  rewrite Hnames. cbn [bind forRange]. rewrite Hdetails, Hempty. reflexivity.
Qed.

Lemma reload_panics_on_missing_details_witness :
  readKindCompositionFile brokenRegistry builtinGlobals tt = Panicked.
Proof.
  apply (reload_panics_on_missing_details brokenRegistry builtinGlobals tt tt tt
           "operators" "100: Key not found" "Postgres" []).
  - reflexivity.
  - reflexivity.
  - discriminate.
  - reflexivity.
  - reflexivity.
  - reflexivity.
Defined.

(** X19.  What [init] leaves in the tables: every built-in kind has its
    built-in plural, endpoint and child kinds, whatever the composition
    file or the registry declared for it; every other kind has what the
    reload gave it; the namespace is [default] and the method [GET]. *)
Theorem init_builtin_kinds_win {W} (reg : Registry W) (w w' : W) (g : Globals) :
  init reg w = Done (g, w') ->
  (forall kind,
      In kind (keys (compositionMap builtinGlobals)) ->
      mapLookup kind (KindPluralMap g) = mapLookup kind (KindPluralMap builtinGlobals)
      /\ mapLookup kind (kindVersionMap g) = mapLookup kind (kindVersionMap builtinGlobals)
      /\ mapLookup kind (compositionMap g) = mapLookup kind (compositionMap builtinGlobals))
  /\ (exists g1 w1,
         readKindCompositionFile reg
           (mkGlobals (Getenv reg w "KUBERNETES_SERVICE_HOST")
              (Getenv reg w "KUBERNETES_SERVICE_PORT") "default" "GET" [] [] [])
           w = Done (g1, w1)
         /\ forall kind,
              ~ In kind (keys (compositionMap builtinGlobals)) ->
              mapLookup kind (KindPluralMap g) = mapLookup kind (KindPluralMap g1)
              /\ mapLookup kind (kindVersionMap g) = mapLookup kind (kindVersionMap g1)
              /\ mapLookup kind (compositionMap g) = mapLookup kind (compositionMap g1))
  /\ Namespace g = "default" /\ httpMethod g = "GET".
Proof.
  unfold init.
  destruct (readKindCompositionFile reg _ w) as [[g1 w1]| | |] eqn:Eread;
    cbn [bind]; try discriminate.
  intros Hrun. injection Hrun as <- _. split; [|split].
  - intros kind Hkind. cbn in Hkind.
    cbn [setKind KindPluralMap kindVersionMap compositionMap].
    rewrite !mapLookup_mapSet.
    repeat (destruct Hkind as [<-|Hkind]; [now repeat split|]). contradiction.
  - exists g1, w1. split; [reflexivity|]. intros kind Hkind.
    cbn [setKind KindPluralMap kindVersionMap compositionMap].
    rewrite !mapLookup_mapSet.
    assert (Hneq : forall k, In k (keys (compositionMap builtinGlobals)) ->
                             String.eqb k kind = false).
    { intros k Hk. apply String.eqb_neq. intros ->. contradiction. }
    rewrite !Hneq by (cbn; tauto). now repeat split.
  - assert (Hfixed : Namespace g1 = "default" /\ httpMethod g1 = "GET").
    { revert Eread. unfold readKindCompositionFile.
      destruct (LookupEnv reg w "KIND_COMPOSITION_FILE") as [filePath|].
      - intros H. injection H as <- _.
        match goal with
        | |- context [fold_left ?f ?l ?g0] =>
            destruct (reload_fixed l g0) as (_ & _ & Hn & Hm)
        end.
        cbv zeta in Hn, Hm. now rewrite Hn, Hm.
      - destruct (queryETCD reg w "/operators") as [crdListString w2].
        destruct (negb (String.eqb crdListString EmptyString));
          [|intros H; now injection H as <- _].
        destruct (getCRDNames _) as [names| | |]; cbn [bind]; try discriminate.
        intros Hloop.
        apply (forRange_preserves
                 (fun s : Globals * W =>
                    Namespace (fst s) = "default" /\ httpMethod (fst s) = "GET"))
          in Hloop; [exact Hloop| |now split].
        clear. intros [g0 w0] crdName [g2 w3] _ Hg0. cbn [fst] in Hg0 |- *.
        destruct (queryETCD reg w0 _) as [details w4].
        destruct (getCRDDetails _) as [[[[kind plural] endpoint] composition]| | |];
          cbn [bind]; try discriminate.
        intros H. injection H as <- _. exact Hg0. }
    exact Hfixed.
Qed.

Lemma init_builtin_kinds_win_witness :
  exists g,
    init fileRegistry tt = Done (g, tt)
    /\ mapLookup "Deployment" (compositionMap g) = Some ["ReplicaSet"]
    /\ mapLookup "Deployment" (KindPluralMap g) = Some "deployments"
    /\ Namespace g = "default".
Proof.
  destruct (init fileRegistry tt) as [[g []]| | |] eqn:Einit;
    try (vm_compute in Einit; discriminate).
  exists g. split; [reflexivity|].
  destruct (init_builtin_kinds_win fileRegistry tt tt g Einit)
    as (Hbuiltin & _ & Hnamespace & _).
  destruct (Hbuiltin "Deployment") as (Hp & _ & Hc); [now left|].
  split; [exact Hc|]. split; [exact Hp|exact Hnamespace].
Defined.

(** *** Texts *)

Lemma append_nil_r (s : string) : (s ++ EmptyString)%string = s.
Proof. induction s as [|c s IH]; cbn; [reflexivity|now rewrite IH]. Qed.

Lemma append_assoc (s t u : string) : ((s ++ t) ++ u)%string = (s ++ t ++ u)%string.
Proof. induction s as [|c s IH]; cbn; [reflexivity|now rewrite IH]. Qed.

Lemma append_empty (s t : string) : (s ++ t)%string = EmptyString -> t = EmptyString.
Proof. destruct s; [trivial|discriminate]. Qed.

Lemma chars_append (s t : string) :
  list_ascii_of_string (s ++ t) = list_ascii_of_string s ++ list_ascii_of_string t.
Proof. induction s as [|c s IH]; cbn; [reflexivity|now rewrite IH]. Qed.

Lemma splitComma_length (s : string) :
  List.length (splitComma s) = S (countCommas s).
Proof.
  induction s as [|c s IH]; cbn [splitComma countCommas]; [reflexivity|].
  destruct (Ascii.eqb c ","%char); cbn [List.length Nat.add]; [now rewrite IH|].
  destruct (splitComma s) as [|piece pieces]; [discriminate|exact IH].
Qed.

Lemma splitComma_no_comma (s : string) : Forall noComma (splitComma s).
Proof.
  unfold noComma. induction s as [|c s IH]; cbn [splitComma].
  - apply Forall_cons; [intros []|apply Forall_nil].
  - destruct (Ascii.eqb_spec c ","%char) as [->|Hc].
    + apply Forall_cons; [intros []|exact IH].
    + destruct (splitComma s) as [|piece pieces].
      * apply Forall_cons; [|apply Forall_nil]. cbn. intros [E|[]]. now apply Hc.
      * inversion IH as [|? ? Hpiece Hpieces]; subst.
        apply Forall_cons; [|exact Hpieces]. cbn. intros [E|Hin]; [now apply Hc|].
        now apply Hpiece.
Qed.

(** The pieces, joined by commas, are the text. *)
Lemma splitComma_concat (s : string) : String.concat "," (splitComma s) = s.
Proof.
  induction s as [|c s IH]; cbn [splitComma]; [reflexivity|].
  pose proof (splitComma_length s) as Hlen.
  destruct (splitComma s) as [|piece pieces]; [discriminate|].
  destruct (Ascii.eqb_spec c ","%char) as [->|_].
  - change (String.concat "," (EmptyString :: piece :: pieces))
      with (String ","%char (String.concat "," (piece :: pieces))).
    now rewrite IH.
  - destruct pieces as [|piece' pieces].
    + cbn [String.concat] in *. now rewrite IH.
    + change (String.concat "," (String c piece :: piece' :: pieces))
        with (String c (String.concat "," (piece :: piece' :: pieces))).
      now rewrite IH.
Qed.

(** *** White space *)

(** A text that starts with a white space rune starts with one of the
    encodings [trimLeft] tests for. *)
Lemma whiteSpaceRune_starts (rune rest : string) (c : ascii) (s1 : string) :
  whiteSpaceRune rune = true ->
  String c s1 = (rune ++ rest)%string ->
  isSpace1 c = true
  \/ exists d s2,
       s1 = String d s2
       /\ (isSpace2 c d = true
           \/ exists e s3, s2 = String e s3 /\ isSpace3 c d e = true).
Proof.
  destruct rune as [|a [|b [|x [|y rune]]]]; cbn [whiteSpaceRune append];
    intros Hrune Hs; try discriminate; injection Hs as -> ->.
  - now left.
  - right. exists b, rest. split; [reflexivity|now left].
  - right. exists b, (String x rest). split; [reflexivity|].
    right. now exists x, rest.
Qed.

Lemma trimLeft_spec (s : string) :
  exists l : string,
    s = (l ++ trimLeft s)%string
    /\ whiteSpace l
    /\ forall rune rest : string,
         whiteSpaceRune rune = true -> trimLeft s <> (rune ++ rest)%string.
Proof.
  enough (H : forall n s, (String.length s <= n)%nat ->
                          exists l : string,
                            s = (l ++ trimLeft s)%string
                            /\ whiteSpace l
                            /\ forall rune rest : string,
                                 whiteSpaceRune rune = true ->
                                 trimLeft s <> (rune ++ rest)%string)
    by exact (H (String.length s) s (Nat.le_refl _)).
  clear s. induction n as [|n IH]; intros s Hlen.
  - destruct s; [|cbn in Hlen; lia].
    exists EmptyString. split; [reflexivity|]. split; [apply whiteSpace_nil|].
    intros [|a rune] rest Hrune; [discriminate|discriminate].
  - destruct s as [|c s1].
    { exists EmptyString. split; [reflexivity|]. split; [apply whiteSpace_nil|].
      intros [|a rune] rest Hrune; [discriminate|discriminate]. }
    cbn [String.length] in Hlen. cbn [trimLeft].
    destruct (isSpace1 c) eqn:E1.
    { destruct (IH s1 ltac:(lia)) as (l & Hl & Hws & Hstop).
      exists (String c l). split; [cbn; now rewrite <- Hl|].
      split; [|exact Hstop].
      exact (whiteSpace_cons (String c EmptyString) l E1 Hws). }
    destruct s1 as [|d s2].
    { exists EmptyString. split; [reflexivity|]. split; [apply whiteSpace_nil|].
      intros rune rest Hrune Hs.
      destruct (whiteSpaceRune_starts rune rest c EmptyString Hrune Hs)
        as [F|(d & s2 & F & _)]; [congruence|discriminate]. }
    cbn [String.length] in Hlen.
    destruct (isSpace2 c d) eqn:E2.
    { destruct (IH s2 ltac:(lia)) as (l & Hl & Hws & Hstop).
      exists (String c (String d l)). split; [cbn; now rewrite <- Hl|].
      split; [|exact Hstop].
      exact (whiteSpace_cons (String c (String d EmptyString)) l E2 Hws). }
    destruct s2 as [|e s3].
    { exists EmptyString. split; [reflexivity|]. split; [apply whiteSpace_nil|].
      intros rune rest Hrune Hs.
      destruct (whiteSpaceRune_starts rune rest c _ Hrune Hs)
        as [F|(d' & s2 & F & [F2|(e & s3 & F3 & _)])]; [congruence| |].
      - injection F as <- <-. congruence.
      - injection F as <- <-. discriminate. }
    cbn [String.length] in Hlen.
    destruct (isSpace3 c d e) eqn:E3.
    { destruct (IH s3 ltac:(lia)) as (l & Hl & Hws & Hstop).
      exists (String c (String d (String e l))). split; [cbn; now rewrite <- Hl|].
      split; [|exact Hstop].
      exact (whiteSpace_cons (String c (String d (String e EmptyString))) l E3 Hws). }
    exists EmptyString. split; [reflexivity|]. split; [apply whiteSpace_nil|].
    intros rune rest Hrune Hs.
    destruct (whiteSpaceRune_starts rune rest c _ Hrune Hs)
      as [F|(d' & s2 & F & [F2|(e' & s3' & F3 & F4)])]; [congruence| |].
    + injection F as <- <-. congruence.
    + injection F as <- <-. injection F3 as <- <-. congruence.
Qed.

Lemma trimRight_spec (s : string) :
  exists r : string,
    s = (trimRight s ++ r)%string
    /\ whiteSpace r
    /\ forall rune rest : string,
         whiteSpaceRune rune = true -> trimRight s <> (rest ++ rune)%string.
Proof.
  induction s as [|c s (r & Hr & Hws & Hstop)].
  - exists EmptyString. split; [reflexivity|]. split; [apply whiteSpace_nil|].
    intros rune rest Hrune Hs. symmetry in Hs. apply append_empty in Hs.
    subst rune. discriminate.
  - cbn [trimRight]. cbv zeta.
    destruct (whiteSpaceRune (String c (trimRight s))) eqn:E.
    + exists (String c (trimRight s) ++ r)%string.
      split; [cbn; now rewrite <- Hr|].
      split; [now apply whiteSpace_cons|].
      intros rune rest Hrune Hs. symmetry in Hs. apply append_empty in Hs.
      subst rune. discriminate.
    + exists r. split; [cbn; now rewrite <- Hr|]. split; [exact Hws|].
      intros rune [|a rest] Hrune Hs; cbn [append] in Hs.
      * subst rune. congruence.
      * injection Hs as _ Hs. exact (Hstop rune rest Hrune Hs).
Qed.

(** [strings.TrimSpace] removes the white space at the two ends, all of
    it and nothing else. *)
Lemma TrimSpace_spec (s : string) : trimmedFrom s (TrimSpace s).
Proof.
  unfold TrimSpace.
  destruct (trimLeft_spec s) as (l & Hl & Hwl & Hleft).
  destruct (trimRight_spec (trimLeft s)) as (r & Hr & Hwr & Hright).
  exists l, r. split; [now rewrite <- Hr|]. split; [exact Hwl|]. split; [exact Hwr|].
  intros rune rest Hrune. split; [|now apply Hright].
  intros Hs. apply (Hleft rune (rest ++ r)%string Hrune).
  now rewrite Hr, Hs, append_assoc.
Qed.

Lemma trimmedFrom_noComma (piece child : string) :
  trimmedFrom piece child -> noComma piece -> noComma child.
Proof.
  intros (l & r & -> & _) Hpiece Hin. apply Hpiece.
  rewrite !chars_append. apply in_or_app. right. apply in_or_app. now left.
Qed.

Lemma fold_left_snoc_map {A B : Type} (f : A -> B) (l : list A) :
  forall acc, fold_left (fun acc x => acc ++ [f x]) l acc = acc ++ map f l.
Proof.
  induction l as [|x l IH]; intros acc; cbn [fold_left map].
  - now rewrite app_nil_r.
  - rewrite IH, <- app_assoc. reflexivity.
Qed.

(** X20.  The details of a custom resource whose four fields are strings:
    [getCRDDetails] returns the kind, plural and endpoint as they are, and
    as child kinds the pieces of the composition text between its commas,
    in their order, each without the white space at its two ends (Unicode
    white space included).  There is one child kind more than the text has
    commas, none has a comma, and an empty text gives one child kind with
    the empty name. *)
Theorem getCRDDetails_composition (crdDetailsMap : gomap json)
    (kind endpoint plural compositionString : string) :
  mapLookup "kind" crdDetailsMap = Some (JString kind) ->
  mapLookup "endpoint" crdDetailsMap = Some (JString endpoint) ->
  mapLookup "plural" crdDetailsMap = Some (JString plural) ->
  mapLookup "composition" crdDetailsMap = Some (JString compositionString) ->
  exists pieces composition,
    getCRDDetails crdDetailsMap = Done (kind, plural, endpoint, composition)
    /\ String.concat "," pieces = compositionString
    /\ Forall noComma pieces
    /\ Forall2 trimmedFrom pieces composition
    /\ List.length composition = S (countCommas compositionString)
    /\ Forall noComma composition
    /\ (compositionString = EmptyString -> composition = [EmptyString]).
Proof.
  intros Hk He Hp Hc. unfold getCRDDetails, stringField.
  rewrite Hk, He, Hp, Hc. cbn [asString bind].
  rewrite fold_left_snoc_map. cbn [app].
  exists (splitComma compositionString), (map TrimSpace (splitComma compositionString)).
  assert (Htrim : forall pieces, Forall2 trimmedFrom pieces (map TrimSpace pieces)).
  { induction pieces as [|piece pieces IH]; cbn [map];
      [apply Forall2_nil|apply Forall2_cons; [apply TrimSpace_spec|exact IH]]. }
  split; [reflexivity|]. split; [apply splitComma_concat|].
  split; [apply splitComma_no_comma|]. split; [apply Htrim|].
  split; [now rewrite length_map, splitComma_length|]. split.
  - apply Forall_map. eapply Forall_impl; [|apply splitComma_no_comma].
    cbn beta. intros piece. apply trimmedFrom_noComma, TrimSpace_spec.
  - intros ->. reflexivity.
Qed.

Lemma getCRDDetails_composition_witness :
  (exists pieces composition,
      getCRDDetails
        [("kind", JString "Postgres"); ("endpoint", JString "apis/postgres/v1");
         ("plural", JString "postgreses");
         ("composition", JString "Deployment, Service")]
      = Done ("Postgres", "postgreses", "apis/postgres/v1", composition)
      /\ String.concat "," pieces = "Deployment, Service"
      /\ Forall noComma pieces
      /\ Forall2 trimmedFrom pieces composition
      /\ List.length composition = 2%nat
      /\ Forall noComma composition
      /\ ("Deployment, Service" = EmptyString -> composition = [EmptyString]))
  /\ getCRDDetails
       [("kind", JString "Postgres"); ("endpoint", JString "apis/postgres/v1");
        ("plural", JString "postgreses");
        ("composition", JString "Deployment, Service")]
     = Done ("Postgres", "postgreses", "apis/postgres/v1", ["Deployment"; "Service"])
  /\ getCRDDetails
       [("kind", JString "Leaf"); ("endpoint", JString "apis/leaf/v1");
        ("plural", JString "leaves"); ("composition", JString "")]
     = Done ("Leaf", "leaves", "apis/leaf/v1", [EmptyString])
  /\ getCRDDetails
       [("kind", JString "Web"); ("endpoint", JString "apis/web/v1");
        ("plural", JString "webs");
        ("composition",
         JString (" Pod,"
                  ++ String "194"%char (String "160"%char "Service")
                  ++ String "226"%char (String "128"%char (String "131"%char EmptyString))))]
     = Done ("Web", "webs", "apis/web/v1", ["Pod"; "Service"]).
Proof.
  split; [|repeat split; reflexivity].
  exact (getCRDDetails_composition
           [("kind", JString "Postgres"); ("endpoint", JString "apis/postgres/v1");
            ("plural", JString "postgreses");
            ("composition", JString "Deployment, Service")]
           "Postgres" "apis/postgres/v1" "postgreses" "Deployment, Service"
           eq_refl eq_refl eq_refl eq_refl).
Defined.

(** X21.  [getCRDNames] returns the custom resources of all operators, in
    the order of the operators and of their lists, when every operator
    record lists its resources as strings; it panics when some record has
    no [CustomResources] array. *)
Theorem getCRDNames_lists_all (operatorMapList : list (gomap (gomap json))) :
  (forall resources,
      Forall2 listsResources operatorMapList resources ->
      getCRDNames operatorMapList = Done (List.concat resources))
  /\ (forall operator,
         In operator operatorMapList ->
         (forall customResources,
             mapLookup "CustomResources" (operatorData operator)
             <> Some (JArray customResources)) ->
         getCRDNames operatorMapList = Panicked).
Proof.
  unfold getCRDNames. split.
  - enough (H : forall resources acc,
               Forall2 listsResources operatorMapList resources ->
               forRange operatorMapList
                 (fun crdNameList operator =>
                    match mapLookup "CustomResources"
                            match mapLookup "Operator" operator with
                            | Some m => m
                            | None => []
                            end
                    with
                    | Some customResources =>
                        customResources <- asSlice customResources ;;
                        forRange customResources
                          (fun crdNameList cr =>
                             s <- asString cr ;; Done (crdNameList ++ [s]))
                          crdNameList
                    | None => Panicked
                    end)
                 acc
               = Done (acc ++ List.concat resources))
      by (intros resources; apply (H resources [])).
    intros resources acc Hall. revert acc.
    induction Hall as [|operator names operators resources Hop _ IH]; intros acc;
      cbn [forRange List.concat].
    + now rewrite app_nil_r.
    + unfold listsResources, operatorData in Hop. rewrite Hop. cbn [asSlice bind].
      assert (Hinner : forall l acc0,
                 forRange (map JString l)
                   (fun crdNameList cr => s <- asString cr ;; Done (crdNameList ++ [s]))
                   acc0
                 = Done (acc0 ++ l)).
      { clear. induction l as [|x l IHl]; intros acc0; cbn [map forRange asString bind].
        - now rewrite app_nil_r.
        - rewrite IHl, <- app_assoc. reflexivity. }
      rewrite Hinner. cbn [bind]. rewrite IH, app_assoc. reflexivity.
  - intros operator Hin Hlacks.
    apply (forRange_panics operatorMapList _ operator Hin).
    + clear. intros s y.
      match goal with
      | |- terminates (match ?x with Some _ => _ | None => _ end) =>
          destruct x as [v|]; [|exact I]
      end.
      apply terminates_bind; [apply terminates_asSlice|].
      intros l. apply terminates_forRange. intros s0 x _.
      apply terminates_bind; [apply terminates_asString|]. intros; exact I.
    + intros s. unfold operatorData in Hlacks.
      destruct (mapLookup "CustomResources"
                  match mapLookup "Operator" operator with
                  | Some m => m
                  | None => []
                  end) as [v|]; [|reflexivity].
      destruct v; try reflexivity. now destruct (Hlacks l).
Qed.

(** ** The refresh pass and the mutex *)

Lemma forRange_not_blocked {A S : Type} (P : S -> Prop) (l : list A)
    (body : S -> A -> Outcome S) :
  (forall s x s', P s -> body s x = Done s' -> P s') ->
  (forall s x, P s -> body s x <> Blocked) ->
  forall s, P s -> forRange l body s <> Blocked.
Proof.
  intros Hkeep Hfree. induction l as [|x l IH]; intros s Hs; cbn [forRange];
    [discriminate|].
  destruct (body s x) as [s1| | |] eqn:Ex; cbn [bind]; try discriminate.
  - apply IH. exact (Hkeep s x s1 Hs Ex).
  - now destruct (Hfree s x Hs).
Qed.

Lemma terminates_not_blocked {A : Type} (o : Outcome A) : terminates o -> o <> Blocked.
Proof. destruct o; cbn; intros H; try discriminate. contradiction. Qed.

Lemma getResourceNames_not_blocked {W} (cl : Cluster W) (g : Globals) (kind : string)
    (w : W) :
  getResourceNames cl g kind w <> Blocked.
Proof.
  apply terminates_not_blocked. unfold getResourceNames.
  apply terminates_bind; [apply terminates_getResourceListContent|].
  intros [content w']. apply terminates_bind; [apply terminates_parseMetaData|].
  intros; exact I.
Qed.

Lemma buildProvenance_not_blocked {W} (cl : Cluster W) (g : Globals) (depth : nat) :
  forall kind name level tree w,
    buildProvenance cl g depth kind name level tree w <> Blocked.
Proof.
  induction depth as [|depth IH]; intros kind name level tree w; cbn [buildProvenance];
    [discriminate|].
  destruct (mapLookup kind (compositionMap g)) as [children|]; [|discriminate].
  apply (forRange_not_blocked (fun _ => True)); [trivial| |exact I].
  intros [t0 w0] child _.
  pose proof (terminates_getResourceListContent cl g
                (mapGet child (kindVersionMap g)) (mapGet child (KindPluralMap g)) w0)
    as Hlist.
  destruct (getResourceListContent cl g _ _ w0) as [[content w1]| | |];
    cbn [bind]; try discriminate; try contradiction.
  pose proof (terminates_parseMetaData content) as Hparse.
  destruct (parseMetaData content) as [found| | |]; cbn [bind]; try discriminate;
    try contradiction.
  apply (forRange_not_blocked (fun _ => True)); [trivial| |exact I].
  intros [t1 w2] ref _. apply IH.
Qed.

Lemma forRange_free {A S : Type} (P : S -> Prop) (l : list A)
    (body : S -> A -> Outcome S) :
  (forall s x, P s ->
               body s x <> Blocked /\ forall s', body s x = Done s' -> P s') ->
  forall s, P s ->
            forRange l body s <> Blocked
            /\ forall s', forRange l body s = Done s' -> P s'.
Proof.
  intros Hbody s Hs. split.
  - apply (forRange_not_blocked P); [|intros s0 x H0; apply (Hbody s0 x H0)|exact Hs].
    intros s0 x s' H0. apply (Hbody s0 x H0).
  - intros s'. apply (forRange_preserves P); [|exact Hs].
    intros s0 x s1 _ H0. apply (Hbody s0 x H0).
Qed.

(** X22.  A refresh pass never waits for its own lock: started with the
    mutex free it does not block, each [storeProvenance] finding the mutex
    released by the one before, and when it returns the mutex is free. *)
Theorem refreshCycle_never_blocks {W} (cl : Cluster W) (g : Globals) (depth : nat)
    (cp : ClusterProvenance) (w : W) :
  mux cp = false ->
  refreshCycle cl g depth cp w <> Blocked
  /\ forall cp' w', refreshCycle cl g depth cp w = Done (cp', w') -> mux cp' = false.
Proof.
  intros Hfree. unfold refreshCycle.
  match goal with
  | |- context [forRange ?l ?body ?init] =>
      destruct (forRange_free
                  (fun s : list MetaData.t * ClusterProvenance * W =>
                     mux (snd (fst s)) = false) l body) with (s := init)
        as [Hscan Hdone]
  end.
  - intros [[seen cp0] w0] kind Hcp0. cbn [fst snd] in Hcp0.
    pose proof (getResourceNames_not_blocked cl g kind w0) as Hnames.
    destruct (getResourceNames cl g kind w0) as [[found w1]| | |];
      cbn [bind]; try (split; [discriminate|intros; discriminate]);
      try (now destruct Hnames).
    match goal with
    | |- context [forRange found ?body ?init] =>
        destruct (forRange_free
                    (fun s : ClusterProvenance * W => mux (fst s) = false) found body)
          with (s := init) as [Hstores Hstored]
    end.
    + clear - cl. intros [cp1 w2] topLevelObject Hcp1. cbn [fst] in Hcp1.
      pose proof (buildProvenance_not_blocked cl g depth kind
                    (MetaData.MetaDataName topLevelObject) 1 [] w2) as Hbuild.
      destruct (buildProvenance cl g depth kind _ 1 [] w2) as [[tree w3]| | |];
        cbn [bind]; try (split; [discriminate|intros; discriminate]);
        try (now destruct Hbuild).
      unfold storeProvenance, Lock. rewrite Hcp1. cbn [bind].
      split; [discriminate|]. intros s' H. now injection H as <-.
    + exact Hcp0.
    + match goal with
      | |- context [forRange found ?body ?init] =>
          destruct (forRange found body init) as [[cp2 w3]| | |] eqn:Estore
      end; cbn [bind]; try (split; [discriminate|intros; discriminate]);
        try (now destruct Hstores).
      split; [discriminate|]. intros s' H. injection H as <-. cbn [fst snd].
      exact (Hstored _ eq_refl).
  - exact Hfree.
  - match goal with
    | |- context [forRange ?l ?body ?init] =>
        destruct (forRange l body init) as [[[seen cp1] w1]| | |] eqn:Escan
    end; cbn [bind]; try (split; [discriminate|intros; discriminate]);
      try (now destruct Hscan).
    unfold purgeCompositionOfDeletedItems. cbn [bind].
    split; [discriminate|]. intros cp' w' H. injection H as <- _. cbn [mux].
    exact (Hdone _ eq_refl).
Qed.

Lemma refreshCycle_never_blocks_witness :
  refreshCycle quietCluster builtinGlobals 3 sampleStore tt <> Blocked
  /\ forall cp' w',
       refreshCycle quietCluster builtinGlobals 3 sampleStore tt = Done (cp', w') ->
       mux cp' = false.
Proof. exact (refreshCycle_never_blocks quietCluster builtinGlobals 3 sampleStore tt eq_refl). Defined.

(** ** Reconstructing a chain *)

Lemma processed_existsb (processedList : list TreeNode.t) (node : TreeNode.t) :
  processed processedList node
  = existsb (fun n => Z.eqb (TreeNode.Level n) (TreeNode.Level node)
                      && String.eqb (TreeNode.ChildKind n) (TreeNode.ChildKind node))
      processedList.
Proof.
  unfold processed.
  enough (H : forall b,
             fold_left
               (fun result n =>
                  if Z.eqb (TreeNode.Level n) (TreeNode.Level node)
                     && String.eqb (TreeNode.ChildKind n) (TreeNode.ChildKind node)
                  then true else result)
               processedList b
             = b || existsb
                      (fun n => Z.eqb (TreeNode.Level n) (TreeNode.Level node)
                                && String.eqb (TreeNode.ChildKind n)
                                     (TreeNode.ChildKind node))
                      processedList)
    by apply (H false).
  induction processedList as [|n l IH]; intros b; cbn [fold_left existsb].
  - now rewrite orb_false_r.
  - rewrite IH.
    destruct (Z.eqb (TreeNode.Level n) (TreeNode.Level node)
              && String.eqb (TreeNode.ChildKind n) (TreeNode.ChildKind node));
      cbn [orb]; [now rewrite orb_true_r|reflexivity].
Qed.

Lemma forRange_skip {A S : Type} (l : list A) (body : S -> A -> Outcome S) (s : S) :
  (forall x, In x l -> body s x = Done s) -> forRange l body s = Done s.
Proof.
  induction l as [|x l IH]; intros Hskip; cbn [forRange]; [reflexivity|].
  rewrite (Hskip x (or_introl eq_refl)). cbn [bind].
  apply IH. intros y Hy. apply Hskip. now right.
Qed.

Lemma filter_all {A : Type} (f : A -> bool) (l : list A) :
  (forall x, In x l -> f x = true) -> filter f l = l.
Proof.
  induction l as [|x l IH]; intros Hall; cbn [filter]; [reflexivity|].
  rewrite (Hall x (or_introl eq_refl)). f_equal. apply IH.
  intros y Hy. apply Hall. now right.
Qed.

Lemma getCompositionWithin_chain (compositionTree : list TreeNode.t) :
  forall depth processedList kind name status level,
    isChain compositionTree ->
    (List.length compositionTree < depth)%nat ->
    (forall node, In node compositionTree -> processed processedList node = false) ->
    getCompositionWithin depth kind name status level compositionTree processedList
    = Done (Composition.mk level kind name status (nestChain compositionTree),
            processedList ++ compositionTree).
Proof.
  induction compositionTree as [|node rest IH];
    intros depth processedList kind name status level (Hone & Hlevels & Hkinds)
      Hdepth Hfresh;
    (destruct depth as [|depth]; [cbn in Hdepth; lia|]).
  - cbn. now rewrite app_nil_r.
  - inversion Hone as [|? ? [member Hmember] Hone']; subst.
    inversion Hlevels as [|? ? Hlevel Hlevels']; subst.
    inversion Hkinds as [|? ? Hkind Hkinds']; subst.
    assert (Hother : forall n, In n rest ->
                               Z.eqb (TreeNode.Level n) (TreeNode.Level node) = false
                               /\ String.eqb (TreeNode.ChildKind n)
                                    (TreeNode.ChildKind node) = false).
    { intros n Hn. split.
      - apply Z.eqb_neq. intros E. apply Hlevel. rewrite <- E. now apply in_map.
      - apply String.eqb_neq. intros E. apply Hkind. rewrite <- E. now apply in_map. }
    cbn [getCompositionWithin forRange processedNodes currentTree children].
    rewrite (Hfresh node (or_introl eq_refl)), Hmember.
    cbn [forRange filter currentTree processedNodes children app].
    rewrite Z.eqb_refl. cbn [negb andb].
    rewrite (filter_all _ rest).
    2:{ intros n Hn. destruct (Hother n Hn) as [-> ->]. reflexivity. }
    rewrite (IH depth (processedList ++ [node]) (TreeNode.ChildKind node)
               (MetaData.MetaDataName member) (MetaData.Status member)
               (TreeNode.Level node)).
    + cbn [bind app].
      rewrite forRange_skip.
      * cbn [bind children processedNodes nestChain]. rewrite Hmember.
        now rewrite <- app_assoc.
      * intros n Hn. cbn [processedNodes].
        assert (Hseen : processed ((processedList ++ [node]) ++ rest) n = true).
        { rewrite processed_existsb. apply existsb_exists. exists n.
          split; [apply in_or_app; now right|].
          now rewrite Z.eqb_refl, String.eqb_refl. }
        now rewrite Hseen.
    + now repeat split.
    + cbn [List.length] in Hdepth. lia.
    + intros n Hn. rewrite processed_existsb, existsb_app.
      rewrite <- processed_existsb, (Hfresh n (or_intror Hn)). cbn [orb existsb].
      rewrite Z.eqb_sym. destruct (Hother n Hn) as [-> _]. reflexivity.
Qed.

(** X23.  The reconstruction of a chain is exact: from a flat tree with one
    member in every slice and no level or kind used twice (a deployment
    with one replica set and one pod, say) [getComposition] builds the
    nested chain, each member the only child of the one before, and marks
    every slice processed. *)
Theorem getComposition_nests_a_chain (kind name status : string) (level : Z)
    (compositionTree : list TreeNode.t) :
  isChain compositionTree ->
  getComposition kind name status level compositionTree []
  = Done (Composition.mk level kind name status (nestChain compositionTree),
          compositionTree).
Proof.
  intros Hchain. unfold getComposition.
  rewrite (getCompositionWithin_chain compositionTree _ [] kind name status level
             Hchain (Nat.lt_succ_diag_r _) (fun node _ => eq_refl)).
  reflexivity.
Qed.

Lemma getComposition_nests_a_chain_witness :
  getComposition "deployment" "web" "Ready" 1
    [TreeNode.mk 2 "ReplicaSet" [MetaData.mk "web-1" "web" "Deployment" "apps/v1" "Ready"];
     TreeNode.mk 3 "Pod" [MetaData.mk "web-1-x" "web-1" "ReplicaSet" "apps/v1" "Running"]]
    []
  = Done (Composition.mk 1 "deployment" "web" "Ready"
            [Composition.mk 2 "ReplicaSet" "web-1" "Ready"
               [Composition.mk 3 "Pod" "web-1-x" "Running" []]],
          [TreeNode.mk 2 "ReplicaSet"
             [MetaData.mk "web-1" "web" "Deployment" "apps/v1" "Ready"];
           TreeNode.mk 3 "Pod"
             [MetaData.mk "web-1-x" "web-1" "ReplicaSet" "apps/v1" "Running"]]).
Proof.
  apply (getComposition_nests_a_chain "deployment" "web" "Ready" 1
           [TreeNode.mk 2 "ReplicaSet"
              [MetaData.mk "web-1" "web" "Deployment" "apps/v1" "Ready"];
            TreeNode.mk 3 "Pod"
              [MetaData.mk "web-1-x" "web-1" "ReplicaSet" "apps/v1" "Running"]]).
  split; [|split].
  - repeat (apply Forall_cons; [eexists; reflexivity|]). apply Forall_nil.
  - cbn. repeat (apply NoDup_cons; [cbn; intuition discriminate|]). apply NoDup_nil.
  - cbn. repeat (apply NoDup_cons; [cbn; intuition discriminate|]). apply NoDup_nil.
Defined.
